(** * Elastic pipeline scheduler (pkg/engine/pipeline.go)

    A shallow embedding of the pipeline scheduler of the gateway engine:
    the worker handle [pipelineInstance], the shared substrate
    [commonPipelineScheduler] and the three control loops of the
    [dynamicPipelineScheduler].

    Conventions.
    - A Go [uint32] is a [Z] in [0, 2^32); every arithmetic operation of
      the source is followed by its wrap-around [U32.wrap].
    - A [time.Time] is a [Z] counting nanoseconds from the zero [Time];
      [Time.Sub] saturates to the range of a [Duration] (an [int64]).
    - A channel is its buffer together with its "closed" bit; closing a
      closed channel and sending on a closed channel panic.
    - Maps are [gmap]s keyed by [string]. *)

From Stdlib Require Import ZArith Lia List Bool.
From Stdlib Require Import Floats.SpecFloat.
From stdpp Require Import gmap strings list fin_maps.

Local Open Scope Z_scope.

(** ** Machine integers *)

Module U32.

Definition modulus : Z := 2 ^ 32.

(** [^uint32(0)], that is 4294967295. *)
Definition max : Z := modulus - 1.

Definition wrap (x : Z) : Z := x mod modulus.

Definition add (x y : Z) : Z := wrap (x + y).
Definition sub (x y : Z) : Z := wrap (x - y).

Definition In (x : Z) : Prop := 0 <= x <= max.

End U32.

(** ** The float64 arithmetic of the fast-scale target

    [launch] computes [uint32(math.Ceil(float64(q) * 1.2))].  The product
    is an IEEE-754 binary64 product, embedded with the executable
    specification of the Standard Library. *)

Module F64.

Definition prec : Z := 53.
Definition emax : Z := 1024.

(** [float64(q)] for an integer [q]. *)
Definition of_Z (q : Z) : spec_float := binary_normalize prec emax q 0 false.

Definition mul : spec_float -> spec_float -> spec_float := SFmul prec emax.
Definition add : spec_float -> spec_float -> spec_float := SFadd prec emax.
Definition div : spec_float -> spec_float -> spec_float := SFdiv prec emax.

(** The binary64 nearest to the decimal constant 1.2, which is
    [0x3FF3333333333333] = 5404319552844595 * 2^-52. *)
Definition c1_2 : spec_float := S754_finite false 5404319552844595 (-52).

(** [math.Ceil] of a float as an integer; [None] for an infinity and
    for a NaN. *)
Definition ceil (x : spec_float) : option Z :=
  match x with
  | S754_zero _ => Some 0
  | S754_finite s m e =>
      let v := if s then Z.neg m else Z.pos m in
      Some (if 0 <=? e then v * 2 ^ e else - ((- v) / 2 ^ (- e)))
  | _ => None
  end.

(** [uint32(x)] for the integral float [x]: the value itself when it is
    in range.  Out of range the result depends on the implementation;
    [oor] stands for it. *)
Definition to_uint32 (oor : option Z -> Z) (x : option Z) : Z :=
  match x with
  | Some v => if (0 <=? v) && (v <=? U32.max) then v else U32.wrap (oor x)
  | None => U32.wrap (oor x)
  end.

End F64.

(** ** Policy constants *)

Definition PIPELINE_STOP_TIMEOUT_SECONDS : Z := 30.

Definition SCHEDULER_DYNAMIC_SPAWN_MIN_INTERVAL_MS : Z := 500.
Definition SCHEDULER_DYNAMIC_SPAWN_MAX_IN_EACH : Z := 500.
Definition SCHEDULER_DYNAMIC_FAST_SCALE_INTERVAL_MS : Z := 1000.
Definition SCHEDULER_DYNAMIC_FAST_SCALE_RATIO : spec_float := F64.c1_2.
Definition SCHEDULER_DYNAMIC_FAST_SCALE_MIN_COUNT : Z := 5.
Definition SCHEDULER_DYNAMIC_SHRINK_MIN_DELAY_MS : Z := 500.

(** The variables of package [option] that the scheduler reads; each is
    a [uint32]. *)
Record Options : Type := {
  PipelineInitParallelism : Z;
  PipelineMinParallelism : Z;
  PipelineMaxParallelism : Z
}.

Definition valid_options (opt : Options) : Prop :=
  U32.In (PipelineInitParallelism opt) /\
  U32.In (PipelineMinParallelism opt) /\
  U32.In (PipelineMaxParallelism opt).

(** ** Time *)

Module Time.

(** Nanoseconds since the zero [time.Time]; the zero value of a map of
    times and of a fresh struct field is [zero]. *)
Definition t : Type := Z.
Definition zero : t := 0.

Definition maxDuration : Z := 2 ^ 63 - 1.
Definition minDuration : Z := - 2 ^ 63.

(** [now.Sub(u)]: the difference as a [Duration], saturated. *)
Definition Sub (now u : t) : Z :=
  Z.max minDuration (Z.min maxDuration (now - u)).

(** [d.Seconds()*1000 < ms] for a duration [d] in nanoseconds and a
    whole number [ms] of milliseconds: the threshold is a whole number of
    nanoseconds, and the test is taken on the nanosecond count. *)
Definition ms_lt (d ms : Z) : bool := d <? ms * 1000000.

(** The same test in binary64, with [Duration.Seconds] of the Go
    library: [float64(d / Second) + float64(d % Second) / 1e9]. *)
Definition Seconds (d : Z) : spec_float :=
  F64.add (F64.of_Z (Z.quot d 1000000000))
    (F64.div (F64.of_Z (Z.rem d 1000000000)) (F64.of_Z 1000000000)).

Definition ms_lt_f64 (d ms : Z) : bool :=
  SFltb (F64.mul (Seconds d) (F64.of_Z 1000)) (F64.of_Z ms).

(** Durations around the two thresholds of the scheduler, and the ends
    of the range of a [Duration]. *)
Definition probes_of_ms (ms : Z) : list Z :=
  [minDuration; - ms * 1000000; -1; 0; 1; ms * 1000000 - 2;
   ms * 1000000 - 1; ms * 1000000; ms * 1000000 + 1; ms * 1000000 + 2;
   2 * ms * 1000000; maxDuration].

End Time.

(** ** The fast-scale target of [launch] (lines 300-314) *)

Section Request.

Context (uint32_oor : option Z -> Z).

(** [uint32(math.Ceil(float64(queueLength) * 1.2))], floored at the
    minimal count, and taken only when it is above the queue length. *)
Definition fastScale (queueLength : Z) : Z :=
  let l := F64.to_uint32 uint32_oor
             (F64.ceil (F64.mul (F64.of_Z queueLength)
                          SCHEDULER_DYNAMIC_FAST_SCALE_RATIO)) in
  let l := if l <? SCHEDULER_DYNAMIC_FAST_SCALE_MIN_COUNT
           then SCHEDULER_DYNAMIC_FAST_SCALE_MIN_COUNT else l in
  if l >? queueLength then l else queueLength.

(** The count [launch] hands to [startPipeline] for an event of queue
    length [queueLength]; [recent] is the outcome of the test
    [now.Sub(shrinkTime).Seconds()*1000 < 1000]. *)
Definition launchRequest (recent : bool) (queueLength : Z) : Z :=
  let queueLength := if recent then fastScale queueLength else queueLength in
  if queueLength >? SCHEDULER_DYNAMIC_SPAWN_MAX_IN_EACH
  then SCHEDULER_DYNAMIC_SPAWN_MAX_IN_EACH else queueLength.

End Request.



(** ** Results of operations that may panic or block *)

Inductive result (A : Type) : Type :=
| Ok (a : A)
| Panic
| Blocked.

Arguments Ok {A} a.
Arguments Panic {A}.
Arguments Blocked {A}.

Definition bind {A B : Type} (r : result A) (k : A -> result B) : result B :=
  match r with
  | Ok a => k a
  | Panic => Panic
  | Blocked => Blocked
  end.

(** ** Channels *)

(** A [chan struct{}] that is only ever closed: its "closed" bit. *)
Definition signal : Type := bool.

(** [close(c)]: closing a closed channel panics. *)
Definition close (c : signal) : result signal :=
  if c then Panic else Ok true.

(** A buffered channel: the queued values, oldest first. *)
Record chan (A : Type) : Type := {
  buf : list A;
  closed : bool
}.

Arguments buf {A} c.
Arguments closed {A} c.

Definition make_chan (A : Type) : chan A := {| buf := []; closed := false |}.

Definition close_chan {A : Type} (c : chan A) : result (chan A) :=
  if closed c then Panic else Ok {| buf := buf c; closed := true |}.

(** [select { case c <- x: default: }] on a channel of capacity [cap]:
    the value is queued when there is room and skipped otherwise. *)
Definition try_send {A : Type} (cap : nat) (c : chan A) (x : A) : result (chan A * bool) :=
  if closed c then Panic
  else if (length (buf c) <? cap)%nat
       then Ok ({| buf := buf c ++ [x]; closed := false |}, true)
       else Ok (c, false).

(** [c <- x]: blocks while the buffer is full. *)
Definition send {A : Type} (cap : nat) (c : chan A) (x : A) : result (chan A) :=
  if closed c then Panic
  else if (length (buf c) <? cap)%nat
       then Ok {| buf := buf c ++ [x]; closed := false |}
       else Blocked.

(** [<-c]: the oldest value; [None] (the nil pointer) once the channel is
    closed and drained; blocks on an open, empty channel. *)
Definition recv {A : Type} (c : chan A) : result (option A * chan A) :=
  match buf c with
  | x :: rest => Ok (Some x, {| buf := rest; closed := closed c |})
  | [] => if closed c then Ok (None, c) else Blocked
  end.

(** ** Workers, probes and handles *)

(** A [pipelines_gw.Pipeline], the worker made by [GetInstance], is named
    by a number. *)
Definition Pipeline : Type := nat.

(** A [pipelines.SourceInputQueueLengthGetter], the probe of a source, is
    named by a number; what a call of it returns is given by the
    environment at the moment of the call. *)
Definition Getter : Type := nat.

Record pipelineInstance : Type := {
  instance : Pipeline;
  stop : signal;
  stopped : signal;
  done : signal
}.

Definition newPipelineInstance (instance : Pipeline) : pipelineInstance :=
  {| instance := instance; stop := false; stopped := false; done := false |}.

Record inputEvent : Type := {
  getterName : string;
  getter : option Getter;
  queueLength : Z
}.

(** The capacity of [launchChan]. *)
Definition launchChanCap : nat := 128.

(** ** The worker handle as a transition system

    One handle is driven by three tasks: its owner (the scheduler, which
    creates it in [startPipeline] and later calls [terminate] once it has
    taken it out of the worker set), the goroutine of [run], and the
    goroutine that [terminate] starts around [instance.Stop].  Every task
    is a program counter; a step moves one task to its next statement.
    The calls [instance.Run()] and [instance.Stop(scheduled)] belong to
    the worker: they are entered by one step and left by another, and
    nothing is assumed about when they return. *)

Module Handle.

Inductive event : Type :=
| EvPrepare
| EvRunCall
| EvRunReturn (err : bool)
| EvCloseStop
| EvStopCall (scheduled : bool)
| EvStopReturn
| EvCloseStopped
| EvClose
| EvCloseDone.

Definition event_eqb (a b : event) : bool :=
  match a, b with
  | EvPrepare, EvPrepare => true
  | EvRunCall, EvRunCall => true
  | EvRunReturn x, EvRunReturn y => Bool.eqb x y
  | EvCloseStop, EvCloseStop => true
  | EvStopCall x, EvStopCall y => Bool.eqb x y
  | EvStopReturn, EvStopReturn => true
  | EvCloseStopped, EvCloseStopped => true
  | EvClose, EvClose => true
  | EvCloseDone, EvCloseDone => true
  | _, _ => false
  end.

(** The owner: [startPipeline] lines 132-137, then [terminate] lines 61-66. *)
Inductive owner_pc : Type :=
| OCreated                      (* after newPipelineInstance *)
| OPrepared                     (* after instance.prepare() *)
| OOwned                        (* after go instance.run() *)
| OStopSent (scheduled : bool)  (* after close(pi.stop) *)
| OAwaitDone.                   (* after go func(){...}(); holds pi.done *)

(** [run], lines 38-58. *)
Inductive run_pc : Type :=
| RNotStarted
| RSelect        (* at the select of the loop *)
| RInRun         (* inside pi.instance.Run() *)
| RAwaitStopped  (* at <-pi.stopped *)
| RClose         (* before pi.instance.Close() *)
| RCloseDone     (* before close(pi.done) *)
| RReturned.

(** The function literal of [terminate], lines 62-65. *)
Inductive stop_pc : Type :=
| SNotStarted
| SCallStop (scheduled : bool)  (* before pi.instance.Stop(scheduled) *)
| SInStop                       (* inside it *)
| SCloseStopped                 (* before close(pi.stopped) *)
| SReturned.

Record state : Type := {
  pi : pipelineInstance;
  owner : owner_pc;
  runner : run_pc;
  stopper : stop_pc;
  trace : list event;   (* what has happened, oldest first *)
  panicked : bool
}.

Definition init (p : Pipeline) : state :=
  {| pi := newPipelineInstance p; owner := OCreated; runner := RNotStarted;
     stopper := SNotStarted; trace := []; panicked := false |}.

Inductive label : Type :=
| LPrepare
| LGoRun
| LTerminate (scheduled : bool)
| LGoStop
| LStopCall
| LStopReturn
| LCloseStopped
| LSelect
| LRunReturn (err : bool)
| LRecvStopped
| LClose
| LCloseDone.

Definition with_stop (h : pipelineInstance) (c : signal) : pipelineInstance :=
  {| instance := instance h; stop := c; stopped := stopped h; done := done h |}.
Definition with_stopped (h : pipelineInstance) (c : signal) : pipelineInstance :=
  {| instance := instance h; stop := stop h; stopped := c; done := done h |}.
Definition with_done (h : pipelineInstance) (c : signal) : pipelineInstance :=
  {| instance := instance h; stop := stop h; stopped := stopped h; done := c |}.

Definition panic (s : state) : state :=
  {| pi := pi s; owner := owner s; runner := runner s; stopper := stopper s;
     trace := trace s; panicked := true |}.

(** A step of the owner. *)
Definition owner_step (s : state) (o : owner_pc) (h : pipelineInstance)
    (evs : list event) : state :=
  {| pi := h; owner := o; runner := runner s; stopper := stopper s;
     trace := trace s ++ evs; panicked := panicked s |}.

Definition runner_step (s : state) (r : run_pc) (h : pipelineInstance)
    (evs : list event) : state :=
  {| pi := h; owner := owner s; runner := r; stopper := stopper s;
     trace := trace s ++ evs; panicked := panicked s |}.

Definition stopper_step (s : state) (c : stop_pc) (h : pipelineInstance)
    (evs : list event) : state :=
  {| pi := h; owner := owner s; runner := runner s; stopper := c;
     trace := trace s ++ evs; panicked := panicked s |}.

(** [step l s] is the state after the statement [l], or [None] when no
    task stands before that statement (or the program has panicked). *)
Definition step (l : label) (s : state) : option state :=
  if panicked s then None else
  match l with
  | LPrepare =>
      match owner s with
      | OCreated => Some (owner_step s OPrepared (pi s) [EvPrepare])
      | _ => None
      end
  | LGoRun =>
      match owner s with
      | OPrepared =>
          Some {| pi := pi s; owner := OOwned; runner := RSelect;
                  stopper := stopper s; trace := trace s;
                  panicked := panicked s |}
      | _ => None
      end
  | LTerminate scheduled =>
      match owner s with
      | OOwned =>
          match close (stop (pi s)) with
          | Ok c => Some (owner_step s (OStopSent scheduled)
                            (with_stop (pi s) c) [EvCloseStop])
          | _ => Some (panic s)
          end
      | _ => None
      end
  | LGoStop =>
      match owner s with
      | OStopSent scheduled =>
          Some {| pi := pi s; owner := OAwaitDone; runner := runner s;
                  stopper := SCallStop scheduled; trace := trace s;
                  panicked := panicked s |}
      | _ => None
      end
  | LStopCall =>
      match stopper s with
      | SCallStop scheduled =>
          Some (stopper_step s SInStop (pi s) [EvStopCall scheduled])
      | _ => None
      end
  | LStopReturn =>
      match stopper s with
      | SInStop => Some (stopper_step s SCloseStopped (pi s) [EvStopReturn])
      | _ => None
      end
  | LCloseStopped =>
      match stopper s with
      | SCloseStopped =>
          match close (stopped (pi s)) with
          | Ok c => Some (stopper_step s SReturned
                            (with_stopped (pi s) c) [EvCloseStopped])
          | _ => Some (panic s)
          end
      | _ => None
      end
  | LSelect =>
      match runner s with
      | RSelect =>
          if stop (pi s)
          then Some (runner_step s RAwaitStopped (pi s) [])  (* break loop *)
          else Some (runner_step s RInRun (pi s) [EvRunCall])
      | _ => None
      end
  | LRunReturn err =>
      match runner s with
      | RInRun =>
          Some (runner_step s (if err then RAwaitStopped else RSelect)
                  (pi s) [EvRunReturn err])
      | _ => None
      end
  | LRecvStopped =>
      match runner s with
      | RAwaitStopped =>
          if stopped (pi s) then Some (runner_step s RClose (pi s) [])
          else None
      | _ => None
      end
  | LClose =>
      match runner s with
      | RClose => Some (runner_step s RCloseDone (pi s) [EvClose])
      | _ => None
      end
  | LCloseDone =>
      match runner s with
      | RCloseDone =>
          match close (done (pi s)) with
          | Ok c => Some (runner_step s RReturned
                            (with_done (pi s) c) [EvCloseDone])
          | _ => Some (panic s)
          end
      | _ => None
      end
  end.

Fixpoint exec (ls : list label) (s : state) : option state :=
  match ls with
  | [] => Some s
  | l :: ls' =>
      match step l s with
      | Some s' => exec ls' s'
      | None => None
      end
  end.

Inductive reachable (p : Pipeline) : state -> Prop :=
| reach_init : reachable p (init p)
| reach_step s l s' : reachable p s -> step l s = Some s' -> reachable p s'.

(** How often [e] has happened. *)
Fixpoint occ (e : event) (tr : list event) : nat :=
  match tr with
  | [] => O
  | x :: tr' => ((if event_eqb e x then 1 else 0) + occ e tr')%nat
  end.

(** Every [b] of the trace comes strictly after some [a]; [seen] tells
    whether an [a] has come before the trace. *)
Fixpoint precededBy (a b : event) (seen : bool) (tr : list event) : bool :=
  match tr with
  | [] => true
  | x :: tr' =>
      (if event_eqb x b then seen else true)
      && precededBy a b (seen || event_eqb x a) tr'
  end.

Definition after (a b : event) (tr : list event) : Prop :=
  precededBy a b false tr = true.

(** A bound on the steps left once [stop] is closed. *)
Definition owner_rank (o : owner_pc) : nat :=
  match o with
  | OCreated => 4 | OPrepared => 3 | OOwned => 2 | OStopSent _ => 1
  | OAwaitDone => 0
  end.

Definition runner_rank (r : run_pc) : nat :=
  match r with
  | RNotStarted => 6 | RInRun => 5 | RSelect => 4 | RAwaitStopped => 3
  | RClose => 2 | RCloseDone => 1 | RReturned => 0
  end.

Definition stopper_rank (c : stop_pc) : nat :=
  match c with
  | SNotStarted => 4 | SCallStop _ => 3 | SInStop => 2 | SCloseStopped => 1
  | SReturned => 0
  end.

Definition rank (s : state) : nat :=
  (owner_rank (owner s) + runner_rank (runner s) + stopper_rank (stopper s))%nat.

(** Where the tasks stand. *)
Definition terminating (o : owner_pc) : bool :=
  match o with OStopSent _ | OAwaitDone => true | _ => false end.

Definition launched (o : owner_pc) : bool :=
  match o with OCreated | OPrepared => false | _ => true end.

Definition awaiting (o : owner_pc) : bool :=
  match o with OAwaitDone => true | _ => false end.

Definition run_begun (r : run_pc) : bool :=
  match r with RNotStarted => false | _ => true end.

Definition past_recv (r : run_pc) : bool :=
  match r with RClose | RCloseDone | RReturned => true | _ => false end.

Definition past_close (r : run_pc) : bool :=
  match r with RCloseDone | RReturned => true | _ => false end.

Definition run_returned (r : run_pc) : bool :=
  match r with RReturned => true | _ => false end.

Definition stop_begun (c : stop_pc) : bool :=
  match c with SNotStarted => false | _ => true end.

Definition past_stop (c : stop_pc) : bool :=
  match c with SCloseStopped | SReturned => true | _ => false end.

Definition stop_returned (c : stop_pc) : bool :=
  match c with SReturned => true | _ => false end.

Definition b2n (b : bool) : nat := if b then 1%nat else 0%nat.

(** The invariant of the transition system: the signals and the trace
    are determined by where the three tasks stand. *)
Record Inv (s : state) : Prop := {
  inv_panicked : panicked s = false;
  inv_stop : stop (pi s) = terminating (owner s);
  inv_run : run_begun (runner s) = launched (owner s);
  inv_stopper : stop_begun (stopper s) = awaiting (owner s);
  inv_stopped : stopped (pi s) = stop_returned (stopper s);
  inv_done : done (pi s) = run_returned (runner s);
  inv_recv : past_recv (runner s) = true -> stopped (pi s) = true;
  inv_occ_stop : occ EvCloseStop (trace s) = b2n (stop (pi s));
  inv_occ_ret : occ EvStopReturn (trace s) = b2n (past_stop (stopper s));
  inv_occ_stopped : occ EvCloseStopped (trace s) = b2n (stopped (pi s));
  inv_occ_close : occ EvClose (trace s) = b2n (past_close (runner s));
  inv_occ_done : occ EvCloseDone (trace s) = b2n (done (pi s));
  inv_ret_stopped : after EvStopReturn EvCloseStopped (trace s);
  inv_ret_close : after EvStopReturn EvClose (trace s);
  inv_stopped_close : after EvCloseStopped EvClose (trace s);
  inv_stop_done : after EvCloseStop EvCloseDone (trace s);
  inv_stopped_done : after EvCloseStopped EvCloseDone (trace s);
  inv_close_done : after EvClose EvCloseDone (trace s)
}.

(** A full life of a handle: started, terminated while inside [Run],
    torn down. *)
Definition teardown : list label :=
  [LPrepare; LGoRun; LSelect; LTerminate true; LGoStop; LStopCall;
   LRunReturn false; LSelect; LStopReturn; LCloseStopped; LRecvStopped;
   LClose; LCloseDone].

Definition torn_down (p : Pipeline) : state :=
  match exec teardown (init p) with
  | Some s => s
  | None => init p
  end.

(** No [b] of the trace comes after an [a]; [seen] tells whether an [a]
    has come before the trace. *)
Fixpoint noLater (a b : event) (seen : bool) (tr : list event) : bool :=
  match tr with
  | [] => true
  | x :: tr' =>
      (if event_eqb x b then negb seen else true)
      && noLater a b (seen || event_eqb x a) tr'
  end.

Definition never_after (a b : event) (tr : list event) : Prop :=
  noLater a b false tr = true.

Definition prepared (o : owner_pc) : bool :=
  match o with OCreated => false | _ => true end.

Definition stop_called (c : stop_pc) : bool :=
  match c with SNotStarted | SCallStop _ => false | _ => true end.

Definition out_of_loop (r : run_pc) : bool :=
  match r with RNotStarted | RSelect | RInRun => false | _ => true end.

(** What the trace tells about [Prepare], [Run] and [Stop]. *)
Record Calls (s : state) : Prop := {
  calls_prepare : occ EvPrepare (trace s) = b2n (prepared (owner s));
  calls_prepare_run : after EvPrepare EvRunCall (trace s);
  calls_stop :
    (occ (EvStopCall true) (trace s) + occ (EvStopCall false) (trace s))%nat
    = b2n (stop_called (stopper s));
  calls_stop_true : after EvCloseStop (EvStopCall true) (trace s);
  calls_stop_false : after EvCloseStop (EvStopCall false) (trace s);
  calls_failed :
    (0 < occ (EvRunReturn true) (trace s))%nat -> out_of_loop (runner s) = true;
  calls_failed_once : (occ (EvRunReturn true) (trace s) <= 1)%nat;
  calls_no_restart : never_after (EvRunReturn true) EvRunCall (trace s)
}.

(** A handle whose [Run] fails at once and which is never terminated. *)
Definition failing : list label :=
  [LPrepare; LGoRun; LSelect; LRunReturn true].

Definition parked (p : Pipeline) : state :=
  match exec failing (init p) with
  | Some s => s
  | None => init p
  end.

End Handle.

(** ** The schedulers *)

Module Scheduler.

(** The control loops of a dynamic scheduler. *)
Inductive loop : Type := Launch | Spawn | Shrink.

Definition loop_eqb (a b : loop) : bool :=
  match a, b with
  | Launch, Launch | Spawn, Spawn | Shrink, Shrink => true
  | _, _ => false
  end.

(** [pipeline] is the state of the [*model.Pipeline] factory: the number
    of calls of [GetInstance] it has served.  [terminated] records the
    calls of [stopPipelineInstance] (index, handle, [scheduled]). *)
Record commonPipelineScheduler : Type := {
  pipeline : nat;
  instances : list pipelineInstance;
  started : Z;
  stopped : Z;
  terminated : list (Z * pipelineInstance * bool)
}.

Definition newCommonPipelineScheduler : commonPipelineScheduler :=
  {| pipeline := O; instances := []; started := 0; stopped := 0;
     terminated := [] |}.

Definition set_instances (l : list pipelineInstance)
    (s : commonPipelineScheduler) : commonPipelineScheduler :=
  {| pipeline := pipeline s; instances := l; started := started s;
     stopped := stopped s; terminated := terminated s |}.

Definition set_started (v : Z) (s : commonPipelineScheduler) : commonPipelineScheduler :=
  {| pipeline := pipeline s; instances := instances s; started := v;
     stopped := stopped s; terminated := terminated s |}.

Definition set_stopped (v : Z) (s : commonPipelineScheduler) : commonPipelineScheduler :=
  {| pipeline := pipeline s; instances := instances s; started := started s;
     stopped := v; terminated := terminated s |}.

Definition served (s : commonPipelineScheduler) : commonPipelineScheduler :=
  {| pipeline := S (pipeline s); instances := instances s;
     started := started s; stopped := stopped s;
     terminated := terminated s |}.

(** [uint32(len(scheduler.instances))] *)
Definition parallelismOf (s : commonPipelineScheduler) : Z :=
  U32.wrap (Z.of_nat (length (instances s))).

(** [l[i]] for an [int] index; [None] is the index out of range. *)
Definition index {A : Type} (l : list A) (i : Z) : option A :=
  if i <? 0 then None else l !! Z.to_nat i.

(** [stopPipelineInstance]: the handle is terminated and awaited for at
    most [PIPELINE_STOP_TIMEOUT_SECONDS]; for the scheduler the call comes
    back either way. *)
Definition stopPipelineInstance (idx : Z) (instance : pipelineInstance)
    (scheduled : bool) (s : commonPipelineScheduler) : commonPipelineScheduler :=
  {| pipeline := pipeline s; instances := instances s; started := started s;
     stopped := stopped s;
     terminated := terminated s ++ [(idx, instance, scheduled)] |}.

Definition StopPipeline (s : commonPipelineScheduler) : commonPipelineScheduler :=
  let s1 := fold_left
              (fun acc (x : Z * pipelineInstance) =>
                 stopPipelineInstance (fst x) (snd x) false acc)
              (imap (fun i instance => (Z.of_nat i, instance)) (instances s)) s in
  set_instances [] s1.

Record dynamicPipelineScheduler : Type := {
  common :> commonPipelineScheduler;
  ctx : option nat;
  statistics : option nat;
  mod_ : option nat;
  getters : gmap string Getter;
  launchChan : chan inputEvent;
  spawnStop : signal;
  spawnDone : signal;
  shrinkStop : signal;
  sourceLastScheduleTimes : gmap string Time.t;
  launchTime : Time.t;
  shrinkTime : Time.t;
  loops : list loop   (* the control loops that run *)
}.

Definition newDynamicPipelineScheduler : dynamicPipelineScheduler :=
  {| common := newCommonPipelineScheduler;
     ctx := None; statistics := None; mod_ := None;
     getters := ∅;
     launchChan := make_chan inputEvent;
     spawnStop := false; spawnDone := false; shrinkStop := false;
     sourceLastScheduleTimes := ∅;
     launchTime := Time.zero; shrinkTime := Time.zero;
     loops := [] |}.

Definition set_common (c : commonPipelineScheduler)
    (s : dynamicPipelineScheduler) : dynamicPipelineScheduler :=
  {| common := c; ctx := ctx s; statistics := statistics s; mod_ := mod_ s;
     getters := getters s; launchChan := launchChan s;
     spawnStop := spawnStop s; spawnDone := spawnDone s;
     shrinkStop := shrinkStop s;
     sourceLastScheduleTimes := sourceLastScheduleTimes s;
     launchTime := launchTime s; shrinkTime := shrinkTime s;
     loops := loops s |}.

Definition book (c st m : nat) (s : dynamicPipelineScheduler) : dynamicPipelineScheduler :=
  {| common := common s; ctx := Some c; statistics := Some st; mod_ := Some m;
     getters := getters s; launchChan := launchChan s;
     spawnStop := spawnStop s; spawnDone := spawnDone s;
     shrinkStop := shrinkStop s;
     sourceLastScheduleTimes := sourceLastScheduleTimes s;
     launchTime := launchTime s; shrinkTime := shrinkTime s;
     loops := loops s |}.

Definition set_getters (g : gmap string Getter)
    (s : dynamicPipelineScheduler) : dynamicPipelineScheduler :=
  {| common := common s; ctx := ctx s; statistics := statistics s; mod_ := mod_ s;
     getters := g; launchChan := launchChan s;
     spawnStop := spawnStop s; spawnDone := spawnDone s;
     shrinkStop := shrinkStop s;
     sourceLastScheduleTimes := sourceLastScheduleTimes s;
     launchTime := launchTime s; shrinkTime := shrinkTime s;
     loops := loops s |}.

Definition set_launchChan (c : chan inputEvent)
    (s : dynamicPipelineScheduler) : dynamicPipelineScheduler :=
  {| common := common s; ctx := ctx s; statistics := statistics s; mod_ := mod_ s;
     getters := getters s; launchChan := c;
     spawnStop := spawnStop s; spawnDone := spawnDone s;
     shrinkStop := shrinkStop s;
     sourceLastScheduleTimes := sourceLastScheduleTimes s;
     launchTime := launchTime s; shrinkTime := shrinkTime s;
     loops := loops s |}.

Definition set_signals (spawnStop' spawnDone' shrinkStop' : signal)
    (s : dynamicPipelineScheduler) : dynamicPipelineScheduler :=
  {| common := common s; ctx := ctx s; statistics := statistics s; mod_ := mod_ s;
     getters := getters s; launchChan := launchChan s;
     spawnStop := spawnStop'; spawnDone := spawnDone';
     shrinkStop := shrinkStop';
     sourceLastScheduleTimes := sourceLastScheduleTimes s;
     launchTime := launchTime s; shrinkTime := shrinkTime s;
     loops := loops s |}.

Definition set_sourceLastScheduleTimes (m : gmap string Time.t)
    (s : dynamicPipelineScheduler) : dynamicPipelineScheduler :=
  {| common := common s; ctx := ctx s; statistics := statistics s; mod_ := mod_ s;
     getters := getters s; launchChan := launchChan s;
     spawnStop := spawnStop s; spawnDone := spawnDone s;
     shrinkStop := shrinkStop s;
     sourceLastScheduleTimes := m;
     launchTime := launchTime s; shrinkTime := shrinkTime s;
     loops := loops s |}.

Definition set_launchTime (t : Time.t)
    (s : dynamicPipelineScheduler) : dynamicPipelineScheduler :=
  {| common := common s; ctx := ctx s; statistics := statistics s; mod_ := mod_ s;
     getters := getters s; launchChan := launchChan s;
     spawnStop := spawnStop s; spawnDone := spawnDone s;
     shrinkStop := shrinkStop s;
     sourceLastScheduleTimes := sourceLastScheduleTimes s;
     launchTime := t; shrinkTime := shrinkTime s;
     loops := loops s |}.

Definition set_shrinkTime (t : Time.t)
    (s : dynamicPipelineScheduler) : dynamicPipelineScheduler :=
  {| common := common s; ctx := ctx s; statistics := statistics s; mod_ := mod_ s;
     getters := getters s; launchChan := launchChan s;
     spawnStop := spawnStop s; spawnDone := spawnDone s;
     shrinkStop := shrinkStop s;
     sourceLastScheduleTimes := sourceLastScheduleTimes s;
     launchTime := launchTime s; shrinkTime := t;
     loops := loops s |}.

Definition set_loops (l : list loop)
    (s : dynamicPipelineScheduler) : dynamicPipelineScheduler :=
  {| common := common s; ctx := ctx s; statistics := statistics s; mod_ := mod_ s;
     getters := getters s; launchChan := launchChan s;
     spawnStop := spawnStop s; spawnDone := spawnDone s;
     shrinkStop := shrinkStop s;
     sourceLastScheduleTimes := sourceLastScheduleTimes s;
     launchTime := launchTime s; shrinkTime := shrinkTime s;
     loops := l |}.

(** Whether a loop of kind [k] runs, and the loops left when one of kind
    [k] has returned. *)
Definition runs (k : loop) (l : list loop) : bool := existsb (loop_eqb k) l.

Fixpoint returned (k : loop) (l : list loop) : list loop :=
  match l with
  | [] => []
  | x :: l' => if loop_eqb k x then l' else x :: returned k l'
  end.

(** What the trigger hook does, in order. *)
Inductive action : Type :=
| ActCall (g : Getter) (l : Z)           (* getter() returned l *)
| ActLoadStopped (v : Z)                 (* atomic.LoadUint32(&stopped) *)
| ActSend (e : inputEvent) (queued : bool).  (* the select on launchChan *)

(** Computations of the hook: they act on the scheduler and log their
    actions, also when they end in a panic. *)
Definition M (A : Type) : Type :=
  dynamicPipelineScheduler -> list action * result (A * dynamicPipelineScheduler).

Definition ret {A : Type} (a : A) : M A := fun s => ([], Ok (a, s)).

Definition bindM {A B : Type} (m : M A) (k : A -> M B) : M B :=
  fun s =>
    match m s with
    | (log, Ok (a, s')) => let (log', r) := k a s' in (log ++ log', r)
    | (log, Panic) => (log, Panic)
    | (log, Blocked) => (log, Blocked)
    end.

Notation "'let*' x ':=' m 'in' k" := (bindM m (fun x => k))
  (at level 10, x name, k at level 200).

(** Calling a nil func panics. *)
Definition callGetter (probe : Getter -> Z) (g : option Getter) : M Z :=
  fun s =>
    match g with
    | Some g' => ([ActCall g' (probe g')], Ok (probe g', s))
    | None => ([], Panic)
    end.

Definition loadStopped : M Z :=
  fun s => ([ActLoadStopped (stopped s)], Ok (stopped s, s)).

Definition trySend (e : inputEvent) : M bool :=
  fun s =>
    match try_send launchChanCap (launchChan s) e with
    | Ok (c, queued) => ([ActSend e queued], Ok (queued, set_launchChan c s))
    | Panic => ([], Panic)
    | Blocked => ([], Blocked)
    end.

(** [trigger], lines 244-266, run without another goroutine in
    between.  [triggerCheck] and [triggerSend] below are its two parts
    on their own. *)
Definition trigger (probe : Getter -> Z) (getterName : string)
    (getter : option Getter) : M unit :=
  let* queueLength := callGetter probe getter in
  if queueLength =? 0 then ret tt
  else
    let* flag := loadStopped in
    if flag =? 1 then ret tt
    else
      let event := {| getterName := getterName; getter := getter;
                      queueLength := queueLength |} in
      let* _ := trySend event in
      ret tt.

(** The sum of the probes in [spawn] and [shrink]:
    [if l+queueLength > queueLength { queueLength = l + queueLength }]. *)
Definition addQueueLength (queueLength l : Z) : Z :=
  if U32.add l queueLength >? queueLength then U32.add l queueLength
  else queueLength.

Definition sumQueueLength (probe : Getter -> Z) (gs : list Getter) : Z :=
  fold_left (fun queueLength g => addQueueLength queueLength (probe g)) gs 0.

(** The loop entered with the sum [queueLength]. *)
Definition sumFrom (probe : Getter -> Z) (queueLength : Z) (gs : list Getter) : Z :=
  fold_left (fun queueLength g => addQueueLength queueLength (probe g)) gs queueLength.

(** The exact sum of the probes. *)
Definition totalQueueLength (probe : Getter -> Z) (gs : list Getter) : Z :=
  fold_right (fun g acc => probe g + acc) 0 gs.

(** The getters met by [range scheduler.getters] when the keys come in
    the order [order]. *)
Definition rangeGetters (order : list string) (m : gmap string Getter) : list Getter :=
  omap (fun k => m !! k) order.

(** Whether [launch] takes an event for a call of [trigger]. *)
Definition fromTrigger (info : inputEvent) : option Getter :=
  if negb (String.eqb (getterName info) EmptyString) then getter info else None.

(** The number of workers of the set. *)
Definition size (s : commonPipelineScheduler) : Z :=
  Z.of_nat (length (instances s)).

(** The handles of the calls of [stopPipelineInstance]. *)
Definition handlesOf (l : list (Z * pipelineInstance * bool)) : list pipelineInstance :=
  map (fun x => snd (fst x)) l.

Definition isCall (a : action) : bool :=
  match a with ActCall _ _ => true | _ => false end.

Section WithOptions.

Context (opt : Options).
Context (GetInstance : nat -> option Pipeline).
Context (uint32_oor : option Z -> Z).

(** The loop of [startPipeline], lines 122-142, for [n] more rounds. *)
Fixpoint startLoop (n : nat) (idx currentParallelism : Z)
    (s : commonPipelineScheduler) : Z * Z * commonPipelineScheduler :=
  match n with
  | O => (currentParallelism, idx, s)
  | S n' =>
      match GetInstance (pipeline s) with
      | None => (currentParallelism, idx, served s)
      | Some p =>
          startLoop n' (U32.add idx 1) (U32.add currentParallelism 1)
            (set_instances (instances s ++ [newPipelineInstance p]) (served s))
      end
  end.

(** [startPipeline], lines 100-143; the loop runs while
    [idx < parallelism], for [idx] from 0 in steps of 1. *)
Definition startPipeline (parallelism : Z) (s : commonPipelineScheduler)
    : Z * Z * commonPipelineScheduler :=
  let parallelism := if parallelism =? 0 then 1 else parallelism in
  let currentParallelism := parallelismOf s in
  if (stopped s =? 1) || (currentParallelism =? U32.max)
  then (currentParallelism, 0, s)
  else
    let left := U32.sub (PipelineMaxParallelism opt) currentParallelism in
    let parallelism := if parallelism >? left then left else parallelism in
    startLoop (Z.to_nat parallelism) 0 currentParallelism s.

(** [Start], lines 222-242. *)
Definition Start (c st m : nat) (s : dynamicPipelineScheduler) : dynamicPipelineScheduler :=
  if started s =? 0 then
    let s1 := book c st m (set_common (set_started 1 s) s) in
    let r := startPipeline (PipelineInitParallelism opt) s1 in
    let s2 := set_common (snd r) s1 in
    set_loops (loops s2 ++ [Launch; Spawn; Shrink]) s2
  else s.

(** The way out of [spawn]: [case <-scheduler.spawnStop: return], with
    the deferred [close(scheduler.spawnDone)]. *)
Definition spawnReturn (s : dynamicPipelineScheduler) : result dynamicPipelineScheduler :=
  if spawnStop s then
    bind (close (spawnDone s)) (fun c =>
      Ok (set_loops (returned Spawn (loops s))
            (set_signals (spawnStop s) c (shrinkStop s) s)))
  else Blocked.

(** [<-scheduler.spawnDone] in [Stop]: the running spawner returns, and
    the wait is over once [spawnDone] is closed. *)
Definition awaitSpawnDone (s : dynamicPipelineScheduler) : result dynamicPipelineScheduler :=
  bind (if runs Spawn (loops s) then spawnReturn s else Ok s) (fun s' =>
    if spawnDone s' then Ok s' else Blocked).

(** [Stop], lines 461-474, taken as one step: a call that has to wait
    on [spawnDone] is [Blocked], and what it has done before the wait is
    not kept.  [stopRequest], [stopWait] and [stopFinish] below are the
    parts on their own. *)
Definition Stop (s : dynamicPipelineScheduler) : result dynamicPipelineScheduler :=
  if stopped s =? 0 then
    let s1 := set_common (set_stopped 1 s) s in
    bind (close (spawnStop s1)) (fun c1 =>
    let s2 := set_signals c1 (spawnDone s1) (shrinkStop s1) s1 in
    bind (close (shrinkStop s2)) (fun c2 =>
    let s3 := set_signals (spawnStop s2) (spawnDone s2) c2 s2 in
    bind (awaitSpawnDone s3) (fun s4 =>
    bind (close_chan (launchChan s4)) (fun ch =>
    let s5 := set_launchChan ch s4 in
    Ok (set_common (set_started 0 s5) s5)))))
  else Ok s.

(** The first part of the body of the loop of [launch], lines 278-296,
    for the event [info] at the time [now]: [None] is the [continue] of
    the debounce, otherwise the state with the ledger refreshed. *)
Definition debounce (now : Time.t) (info : inputEvent)
    (s : dynamicPipelineScheduler) : option dynamicPipelineScheduler :=
  match fromTrigger info with
  | Some g =>
      let lastScheduleAt :=
        default Time.zero (sourceLastScheduleTimes s !! getterName info) in
      if Time.ms_lt (Time.Sub now lastScheduleAt)
           SCHEDULER_DYNAMIC_SPAWN_MIN_INTERVAL_MS
      then None
      else Some (set_getters (<[getterName info := g]> (getters s))
                   (set_sourceLastScheduleTimes
                      (<[getterName info := now]> (sourceLastScheduleTimes s)) s))
  | None =>
      Some (set_sourceLastScheduleTimes
              ((fun _ => now) <$> sourceLastScheduleTimes s) s)
  end.

(** The second part, lines 298-328, taken as one step: the state after
    it and the count handed to [startPipeline].  [now'] is what the
    second call of [common.Now()] returns; [launchTime] is written once
    [startPipeline] has returned and released [instancesLock].
    [growAppend] and [growStamp] below are the two parts on their own. *)
Definition grow (now now' : Time.t) (info : inputEvent)
    (s : dynamicPipelineScheduler) : dynamicPipelineScheduler * Z :=
  let recent := Time.ms_lt (Time.Sub now (shrinkTime s))
                  SCHEDULER_DYNAMIC_FAST_SCALE_INTERVAL_MS in
  let request := launchRequest uint32_oor recent (queueLength info) in
  let r := startPipeline request s in
  let delta := snd (fst r) in
  let s2 := set_common (snd r) s in
  (if delta >? 0 then set_launchTime now' s2 else s2, request).

(** The body of the loop of [launch] for the event [info]: the state
    after it, and the count handed to [startPipeline] when it is
    called. *)
Definition launchEvent (now now' : Time.t) (info : inputEvent)
    (s : dynamicPipelineScheduler) : dynamicPipelineScheduler * option Z :=
  match debounce now info s with
  | None => (s, None)
  | Some s1 =>
      let r := grow now now' info s1 in (fst r, Some (snd r))
  end.

(** One round of the loop of [launch]. *)
Definition launch (now now' : Time.t) (s : dynamicPipelineScheduler)
    : result (dynamicPipelineScheduler * option Z) :=
  bind (recv (launchChan s)) (fun r =>
    let s1 := set_launchChan (snd r) s in
    match fst r with
    | None => Ok (set_loops (returned Launch (loops s1)) s1, None)
    | Some info => Ok (launchEvent now now' info s1)
    end).

(** One tick of [spawn], lines 341-371. *)
Definition spawnTick (probe : Getter -> Z) (order : list string)
    (s : dynamicPipelineScheduler) : result dynamicPipelineScheduler :=
  let currentParallelism := parallelismOf s in
  if currentParallelism =? PipelineMaxParallelism opt then Ok s
  else
    let queueLength := sumQueueLength probe (rangeGetters order (getters s)) in
    if queueLength =? 0 then Ok s
    else
      bind (send launchChanCap (launchChan s)
              {| getterName := EmptyString; getter := None; queueLength := queueLength |})
        (fun c => Ok (set_launchChan c s)).

(** One tick of [shrink], lines 385-410: whether the tick goes on to
    take the write lock. *)
Definition shrinkCheck (probe : Getter -> Z) (order : list string)
    (s : dynamicPipelineScheduler) : bool :=
  let currentParallelism := parallelismOf s in
  if currentParallelism <=? PipelineMinParallelism opt then false
  else
    let queueLength := sumQueueLength probe (rangeGetters order (getters s)) in
    if negb (queueLength =? 0) then false else true.

(** Lines 414-447, taken as one step: the second check, the cooldown
    and the pop under the write lock (lines 414-441), then, the lock
    released, the write of [shrinkTime] and the call of
    [stopPipelineInstance] (lines 443-447).  The result is the state
    after the tick and the handle it has popped.  [shrinkPop] and
    [shrinkStamp] below are the two parts on their own. *)
Definition shrinkLocked (now : Time.t) (s : dynamicPipelineScheduler)
    : result (dynamicPipelineScheduler * option pipelineInstance) :=
  let currentParallelism := parallelismOf s in
  if currentParallelism <=? PipelineMinParallelism opt then Ok (s, None)
  else if Time.ms_lt (Time.Sub now (launchTime s))
            SCHEDULER_DYNAMIC_SHRINK_MIN_DELAY_MS
  then Ok (s, None)
  else
    let idx := currentParallelism - 1 in
    match index (instances s) idx with
    | Some instance =>
        let s1 := set_common (set_instances (take (Z.to_nat idx) (instances s)) s) s in
        let s2 := set_shrinkTime now s1 in
        Ok (set_common (stopPipelineInstance idx instance true s2) s2,
            Some instance)
    | None => Panic
    end.

Definition shrinkTick (probe : Getter -> Z) (order : list string)
    (now : Time.t) (s : dynamicPipelineScheduler)
    : result (dynamicPipelineScheduler * option pipelineInstance) :=
  if shrinkCheck probe order s then shrinkLocked now s else Ok (s, None).

(** The way out of [shrink]: [case <-scheduler.shrinkStop: return]. *)
Definition shrinkReturn (s : dynamicPipelineScheduler) : result dynamicPipelineScheduler :=
  if shrinkStop s then Ok (set_loops (returned Shrink (loops s)) s)
  else Blocked.

(** What can happen to a dynamic scheduler. *)
Inductive op : Type :=
| OpStart (c st m : nat)
| OpStop
| OpStopPipeline
| OpTrigger (probe : Getter -> Z) (getterName : string) (getter : option Getter)
| OpLaunch (now now' : Time.t)
| OpSpawnTick (probe : Getter -> Z) (order : list string)
| OpSpawnReturn
| OpShrinkTick (probe : Getter -> Z) (order : list string) (now : Time.t)
| OpShrinkLocked (now : Time.t)
| OpShrinkReturn
| OpStartPipeline (parallelism : Z).

Definition when (b : bool) (r : result dynamicPipelineScheduler)
    : result dynamicPipelineScheduler :=
  if b then r else Blocked.

(** The state after the operation [o].  Every operation runs as one
    step, from its first statement to its last, with no other goroutine
    in between; the worker set is changed under [instancesLock] only,
    while [stopped], the signals, [launchChan], [launchTime] and
    [shrinkTime] are also read and written outside of it. *)
Definition perform (o : op) (s : dynamicPipelineScheduler) : result dynamicPipelineScheduler :=
  match o with
  | OpStart c st m => Ok (Start c st m s)
  | OpStop => Stop s
  | OpStopPipeline => Ok (set_common (StopPipeline s) s)
  | OpTrigger probe name g =>
      bind (snd (trigger probe name g s)) (fun r => Ok (snd r))
  | OpLaunch now now' =>
      when (runs Launch (loops s))
        (bind (launch now now' s) (fun r => Ok (fst r)))
  | OpSpawnTick probe order =>
      when (runs Spawn (loops s)) (spawnTick probe order s)
  | OpSpawnReturn => when (runs Spawn (loops s)) (spawnReturn s)
  | OpShrinkTick probe order now =>
      when (runs Shrink (loops s))
        (bind (shrinkTick probe order now s) (fun r => Ok (fst r)))
  | OpShrinkLocked now =>
      when (runs Shrink (loops s))
        (bind (shrinkLocked now s) (fun r => Ok (fst r)))
  | OpShrinkReturn => when (runs Shrink (loops s)) (shrinkReturn s)
  | OpStartPipeline parallelism =>
      Ok (set_common (snd (startPipeline parallelism s)) s)
  end.

(** The states a scheduler passes through from its creation. *)
Inductive reachable : dynamicPipelineScheduler -> Prop :=
| reach_new : reachable newDynamicPipelineScheduler
| reach_perform o s s' : reachable s -> perform o s = Ok s' -> reachable s'.

Fixpoint run (os : list op) (s : dynamicPipelineScheduler) : result dynamicPipelineScheduler :=
  match os with
  | [] => Ok s
  | o :: os' => bind (perform o s) (run os')
  end.

End WithOptions.

(** The setting of the scenarios of the specification: one worker at
    the start, a floor of one and a cap of ten. *)
Definition scenarioOptions : Options :=
  {| PipelineInitParallelism := 1; PipelineMinParallelism := 1;
     PipelineMaxParallelism := 10 |}.

(** A factory whose [GetInstance] never fails, and one whose
    [GetInstance] always fails. *)
Definition makes : nat -> option Pipeline := Some.
Definition fails : nat -> option Pipeline := fun _ => None.

(** A conversion to [uint32] that yields 0 out of range. *)
Definition oorZero : option Z -> Z := fun _ => 0.

(** A trigger of queue length 3 (scenario S3 of the specification). *)
Definition trigger3 : inputEvent :=
  {| getterName := "a"; getter := Some 0%nat; queueLength := 3 |}.

(** An event that the trigger hook queues for the empty name. *)
Definition unnamed : inputEvent :=
  {| getterName := EmptyString; getter := Some 0%nat; queueLength := 3 |}.

(** A scheduler that has been started and stopped, and whose loops have
    returned. *)
Definition startStop : list op :=
  [OpStart 1 2 3; OpStop; OpShrinkReturn; OpLaunch 0 0].

(** *** The factory and the static scheduler *)

Section Factory.

Context (opt : Options).
Context (GetInstance : nat -> option Pipeline).

(** The workers that [n] rounds of the loop of [startPipeline] get from
    a factory that has served [k] calls: the outcomes of the calls
    [k], [k+1], ... up to the first error. *)
Fixpoint made (n k : nat) : list Pipeline :=
  match n with
  | O => []
  | S n' =>
      match GetInstance k with
      | Some p => p :: made n' (S k)
      | None => []
      end
  end.

(** The rounds of the loop for the count [parallelism] asked for: the
    count, or 1 for the count 0, clamped to the room left under the
    cap. *)
Definition rounds (parallelism : Z) (s : commonPipelineScheduler) : nat :=
  Z.to_nat (Z.min (if parallelism =? 0 then 1 else parallelism)
              (PipelineMaxParallelism opt - size s)).

(** [staticPipelineScheduler.Start], lines 502-514; [Parallelism] is
    what [scheduler.pipeline.Config().Parallelism()] returns. *)
Definition staticStart (Parallelism : Z) (s : commonPipelineScheduler)
    : commonPipelineScheduler :=
  if started s =? 0 then
    snd (startPipeline opt GetInstance (U32.wrap Parallelism) (set_started 1 s))
  else s.

End Factory.

(** [staticPipelineScheduler.Stop], lines 516-522. *)
Definition staticStop (s : commonPipelineScheduler) : commonPipelineScheduler :=
  if stopped s =? 0 then set_started 0 (set_stopped 1 s) else s.

(** The two kinds of [PipelineScheduler]. *)
Inductive PipelineScheduler : Type :=
| Dynamic (s : dynamicPipelineScheduler)
| Static (s : commonPipelineScheduler).

(** [CreatePipelineScheduler], lines 482-490, for a pipeline whose
    configuration has the parallelism [Parallelism]. *)
Definition CreatePipelineScheduler (Parallelism : Z) : PipelineScheduler :=
  if Parallelism =? 0 then Dynamic newDynamicPipelineScheduler
  else Static newCommonPipelineScheduler.

(** A factory that fails at its third call. *)
Definition failsThird : nat -> option Pipeline :=
  fun k => if (k <? 2)%nat then Some k else None.

(** A scheduler that has been started and has taken one trigger. *)
Definition started1 : dynamicPipelineScheduler :=
  Start scenarioOptions makes 1 2 3 newDynamicPipelineScheduler.

Definition serving : dynamicPipelineScheduler :=
  fst (launchEvent scenarioOptions makes oorZero
         1000000000000000005 1000000000000000006 trigger3 started1).

(** ** The calls, part by part

    [perform] runs a call of [Stop], a call of [trigger], the body of
    [launch] and a tick of [shrink] each as one step.  Between the parts
    given here the source holds no lock that keeps the other goroutines
    out, so that another call can run between them. *)

(** [Stop] up to its wait, lines 462-467: the CAS on [stopped] and the
    two closes; [None] is the return of a scheduler that is stopped
    already. *)
Definition stopRequest (s : dynamicPipelineScheduler)
    : result (option dynamicPipelineScheduler) :=
  if stopped s =? 0 then
    let s1 := set_common (set_stopped 1 s) s in
    bind (close (spawnStop s1)) (fun c1 =>
    let s2 := set_signals c1 (spawnDone s1) (shrinkStop s1) s1 in
    bind (close (shrinkStop s2)) (fun c2 =>
    Ok (Some (set_signals (spawnStop s2) (spawnDone s2) c2 s2))))
  else Ok None.

(** [<-scheduler.spawnDone], line 469. *)
Definition stopWait (s : dynamicPipelineScheduler) : result dynamicPipelineScheduler :=
  if spawnDone s then Ok s else Blocked.

(** The rest of [Stop], lines 471-473. *)
Definition stopFinish (s : dynamicPipelineScheduler) : result dynamicPipelineScheduler :=
  bind (close_chan (launchChan s)) (fun ch =>
    let s5 := set_launchChan ch s in
    Ok (set_common (set_started 0 s5) s5)).

(** [trigger] up to its load of [stopped], lines 245-260: the event it
    goes on to send, [None] when it returns without sending. *)
Definition triggerCheck (probe : Getter -> Z) (getterName : string)
    (getter : option Getter) : M (option inputEvent) :=
  let* queueLength := callGetter probe getter in
  if queueLength =? 0 then ret None
  else
    let* flag := loadStopped in
    if flag =? 1 then ret None
    else ret (Some {| getterName := getterName; getter := getter;
                      queueLength := queueLength |}).

(** The [select] of [trigger], lines 262-265. *)
Definition triggerSend (event : option inputEvent) : M unit :=
  match event with
  | Some e => let* _ := trySend e in ret tt
  | None => ret tt
  end.

Section Parts.

Context (opt : Options).
Context (GetInstance : nat -> option Pipeline).
Context (uint32_oor : option Z -> Z).

(** The body of [launch] from line 298 to the return of
    [startPipeline], line 319: the state, the count handed to
    [startPipeline] and the [delta] it returns. *)
Definition growAppend (now : Time.t) (info : inputEvent)
    (s : dynamicPipelineScheduler) : dynamicPipelineScheduler * Z * Z :=
  let recent := Time.ms_lt (Time.Sub now (shrinkTime s))
                  SCHEDULER_DYNAMIC_FAST_SCALE_INTERVAL_MS in
  let request := launchRequest uint32_oor recent (queueLength info) in
  let r := startPipeline opt GetInstance request s in
  (set_common (snd r) s, request, snd (fst r)).

(** Lines 321-328: the write of [launchTime]. *)
Definition growStamp (now' : Time.t) (delta : Z) (s : dynamicPipelineScheduler)
    : dynamicPipelineScheduler :=
  if delta >? 0 then set_launchTime now' s else s.



End Parts.

(** A scheduler with two registered probes. *)
Definition twoSources : dynamicPipelineScheduler :=
  set_getters {[ "a"%string := 0%nat; "b"%string := 1%nat ]} serving.

(** A probe that reads 3 for the source 0 and 4 for every other one. *)
Definition probe34 : Getter -> Z :=
  fun g => match g with O => 3 | _ => 4 end.

(** ** Relations between two states of the scheduler

    What an operation may do to the registry of probes and its ledger,
    and to [launchChan] and [stopped]; used to state the invariants of
    the reachable states. *)

Definition registry_step (s s' : dynamicPipelineScheduler) : Prop :=
  (getters s' = getters s /\
   sourceLastScheduleTimes s' = sourceLastScheduleTimes s) \/
  (exists name g now,
     name <> EmptyString /\
     getters s' = <[name := g]> (getters s) /\
     sourceLastScheduleTimes s' = <[name := now]> (sourceLastScheduleTimes s)) \/
  (exists now : Time.t,
     getters s' = getters s /\
     sourceLastScheduleTimes s' = (fun _ => now) <$> sourceLastScheduleTimes s).

Definition chan_step (s s' : dynamicPipelineScheduler) : Prop :=
  (closed (launchChan s') = closed (launchChan s) \/
   stopped s' = 1 /\ closed (launchChan s') = true) /\
  (buf (launchChan s') = buf (launchChan s) \/
   ((length (buf (launchChan s)) < launchChanCap)%nat /\
    exists e, buf (launchChan s') = buf (launchChan s) ++ [e]) \/
   (exists e, buf (launchChan s) = e :: buf (launchChan s'))) /\
  (stopped s' = stopped s \/ stopped s' = 1).

End Scheduler.

(** * Properties *)

(** ** Machine integers *)

Lemma U32_wrap_range x : U32.In (U32.wrap x).
Proof.
  unfold U32.In, U32.wrap, U32.max, U32.modulus.
  pose proof (Z.mod_pos_bound x (2 ^ 32) ltac:(lia)). lia.
Qed.

Lemma U32_wrap_small x : U32.In x -> U32.wrap x = x.
Proof.
  unfold U32.In, U32.wrap, U32.max, U32.modulus. intros H.
  apply Z.mod_small. lia.
Qed.

Lemma U32_add_no_carry x y :
  U32.In x -> U32.In y -> x + y <= U32.max -> U32.add x y = x + y.
Proof.
  unfold U32.add, U32.In. intros. apply U32_wrap_small. unfold U32.In. lia.
Qed.

Lemma U32_add_carry x y :
  U32.In x -> U32.In y -> U32.max < x + y ->
  U32.add x y = x + y - U32.modulus.
Proof.
  unfold U32.add, U32.wrap, U32.In, U32.max, U32.modulus. intros Hx Hy Hc.
  symmetry. apply Z.mod_unique with (q := 1); lia.
Qed.

Lemma U32_sub_no_borrow x y :
  U32.In x -> U32.In y -> y <= x -> U32.sub x y = x - y.
Proof.
  unfold U32.sub, U32.In. intros. apply U32_wrap_small. unfold U32.In. lia.
Qed.

(** ** Time *)

Lemma ms_lt_Sub now u ms :
  0 <= ms <= 1000000 ->
  Time.ms_lt (Time.Sub now u) ms = (now - u <? ms * 1000000).
Proof.
  intros Hms. unfold Time.ms_lt, Time.Sub, Time.maxDuration, Time.minDuration.
  destruct (Z.ltb_spec (now - u) (ms * 1000000));
    destruct (Z.ltb_spec (Z.max (- 2 ^ 63) (Z.min (2 ^ 63 - 1) (now - u)))
                (ms * 1000000)); try reflexivity; lia.
Qed.

(** The binary64 test and the test on nanoseconds agree at the
    thresholds of 500ms and 1000ms, next to them and at the ends of the
    range. *)
Lemma ms_lt_f64_thresholds :
  forallb (fun d => Bool.eqb (Time.ms_lt_f64 d 500) (Time.ms_lt d 500))
    (Time.probes_of_ms 500) = true /\
  forallb (fun d => Bool.eqb (Time.ms_lt_f64 d 1000) (Time.ms_lt d 1000))
    (Time.probes_of_ms 1000) = true.
Proof. split; vm_compute; reflexivity. Qed.

(** ** The fast-scale target *)

(** The mantissa of [F64.c1_2] is the integer nearest to [1.2 * 2^52]:
    the constant is the binary64 nearest to 1.2. *)
Lemma c1_2_nearest :
  F64.c1_2 = S754_finite false 5404319552844595 (-52) /\
  2 ^ 52 <= 5404319552844595 < 2 ^ 53 /\
  2 * Z.abs (5 * 5404319552844595 - 6 * 2 ^ 52) < 5.
Proof. split; [reflexivity |]. vm_compute. intuition discriminate. Qed.


Lemma fastScale_ge oor q : q <= fastScale oor q.
Proof.
  unfold fastScale.
  match goal with |- context [if ?a >? q then _ else _] =>
    destruct (Z.gtb_spec a q) end; lia.
Qed.






(** ** The worker handle *)

Lemma event_eqb_sym a b : Handle.event_eqb a b = Handle.event_eqb b a.
Proof.
  destruct a, b; simpl; try reflexivity;
    match goal with |- Bool.eqb ?x ?y = _ => destruct x, y; reflexivity end.
Qed.

Lemma event_eqb_eq a b : Handle.event_eqb a b = true <-> a = b.
Proof.
  destruct a, b; simpl; split; intros H; try discriminate; try reflexivity;
    try (apply Bool.eqb_prop in H; subst; reflexivity);
    try (inversion H; apply Bool.eqb_reflx).
Qed.

Lemma occ_snoc e tr x :
  Handle.occ e (tr ++ [x]) =
  (Handle.occ e tr + (if Handle.event_eqb e x then 1 else 0))%nat.
Proof.
  induction tr as [| y tr IH]; simpl; [lia |]. rewrite IH. lia.
Qed.

Lemma precededBy_snoc a b tr x : forall seen,
  Handle.precededBy a b seen (tr ++ [x]) =
  Handle.precededBy a b seen tr
  && (if Handle.event_eqb x b
      then seen || (0 <? Handle.occ a tr)%nat else true).
Proof.
  induction tr as [| y tr IH]; intros seen; simpl.
  - destruct (Handle.event_eqb x b), seen; reflexivity.
  - rewrite IH. rewrite (event_eqb_sym a y).
    destruct (Handle.event_eqb y b), (Handle.event_eqb y a),
      (Handle.event_eqb x b), seen,
      (Handle.precededBy a b true tr), (Handle.precededBy a b false tr);
      simpl; try reflexivity;
      destruct (Handle.occ a tr); reflexivity.
Qed.

Lemma after_snoc a b tr x :
  Handle.after a b tr ->
  (Handle.event_eqb x b = true -> (0 < Handle.occ a tr)%nat) ->
  Handle.after a b (tr ++ [x]).
Proof.
  unfold Handle.after. intros H Hx. rewrite precededBy_snoc, H. simpl.
  destruct (Handle.event_eqb x b); [| reflexivity].
  apply Nat.ltb_lt. auto.
Qed.

Section HandleProofs.

Import Handle.

Lemma Inv_init p : Inv (init p).
Proof. constructor; simpl; try reflexivity. discriminate. Qed.

Ltac occ_pos :=
  match goal with
  | H : occ ?e ?tr = _ |- (0 < occ ?e ?tr)%nat => rewrite H; simpl; lia
  end.

Lemma Inv_step l s s' : Inv s -> step l s = Some s' -> Inv s'.
Proof.
  intros [] H. unfold step in H.
  destruct s as [h o r c tr pn]. destruct h as [p st sd dn].
  simpl in *. subst pn.
  destruct l; simpl in H;
    [ destruct o | destruct o | destruct o | destruct o
    | destruct c | destruct c | destruct c
    | destruct r | destruct r | destruct r | destruct r | destruct r ];
    try discriminate H; simpl in *; subst.
  all: repeat match goal with
       | H : context [if ?b then _ else _] |- _ => destruct b eqn:?; simpl in H
       end; try discriminate.
  all: inversion H; subst; clear H.
  all: constructor; simpl in *; rewrite ?app_nil_r, ?occ_snoc; simpl;
       rewrite ?Nat.add_0_r; try assumption; try reflexivity; try congruence.
  all: try (apply after_snoc; [assumption | simpl; intros; try discriminate; try occ_pos]).
  all: try (intros; try discriminate; auto; fail).
  all: repeat match goal with
       | H : ?x = ?x -> _ |- _ => specialize (H eq_refl)
       end.
  all: try (destruct c; simpl in *; try discriminate; try congruence; lia).
  all: try (destruct r; simpl in *; try discriminate; try congruence; lia).
  all: destruct c, o; simpl in *; try discriminate; lia.
Qed.

Lemma reachable_Inv p s : reachable p s -> Inv s.
Proof.
  induction 1 as [| s l s' _ IH H]; [apply Inv_init | eapply Inv_step; eauto].
Qed.

Lemma exec_reachable p ls : forall s s',
  reachable p s -> exec ls s = Some s' -> reachable p s'.
Proof.
  induction ls as [| l ls IH]; intros s s' R H; simpl in H.
  - congruence.
  - destruct (step l s) as [s1 |] eqn:E; [| discriminate].
    eapply IH; [| exact H]. econstructor; eauto.
Qed.

Lemma step_rank l s s' :
  Inv s -> stop (pi s) = true -> step l s = Some s' ->
  (rank s' < rank s)%nat /\ stop (pi s') = true.
Proof.
  intros [] Hs H. unfold step in H.
  destruct s as [h o r c tr pn]. destruct h as [p st sd dn].
  simpl in *. subst pn st.
  destruct l; simpl in H;
    [ destruct o | destruct o | destruct o | destruct o
    | destruct c | destruct c | destruct c
    | destruct r | destruct r | destruct r | destruct r | destruct r ];
    try discriminate H; simpl in *; subst; try discriminate.
  all: repeat match goal with
       | H : context [if ?b then _ else _] |- _ => destruct b eqn:?; simpl in H
       end; try discriminate.
  all: inversion H; subst; clear H; unfold rank; simpl; split; try lia; try congruence.
  all: try (destruct err; simpl; lia).
  all: destruct c; simpl in *; try discriminate; lia.
Qed.

Lemma exec_bound ls : forall s s',
  Inv s -> stop (pi s) = true -> exec ls s = Some s' ->
  (length ls + rank s' <= rank s)%nat.
Proof.
  induction ls as [| l ls IH]; intros s s' I Hs H; simpl in H.
  - inversion H. simpl. lia.
  - destruct (step l s) as [s1 |] eqn:E; [| discriminate].
    destruct (step_rank _ _ _ I Hs E) as [Hr Hs1].
    pose proof (IH _ _ (Inv_step _ _ _ I E) Hs1 H). simpl. lia.
Qed.

Lemma stuck_done s :
  Inv s -> stop (pi s) = true -> (forall l, step l s = None) ->
  done (pi s) = true.
Proof.
  intros [] Hs Hstuck.
  destruct s as [h o r c tr pn]. destruct h as [p st sd dn].
  simpl in *. subst pn st.
  pose proof (Hstuck LGoStop) as H1.
  pose proof (Hstuck LStopCall) as H2.
  pose proof (Hstuck LStopReturn) as H3.
  pose proof (Hstuck LCloseStopped) as H4.
  pose proof (Hstuck LSelect) as H5.
  pose proof (Hstuck (LRunReturn false)) as H6.
  pose proof (Hstuck LRecvStopped) as H7.
  pose proof (Hstuck LClose) as H8.
  pose proof (Hstuck LCloseDone) as H9.
  unfold step in *; simpl in *.
  destruct o; simpl in *; try discriminate;
  destruct c; simpl in *; try discriminate; subst;
  destruct r; simpl in *; try discriminate; try reflexivity.
Qed.



(** What [after] says: every occurrence of [b] in the trace has an
    occurrence of [a] strictly before it. *)
Lemma precededBy_spec a b tr : forall seen,
  precededBy a b seen tr = true <->
  (forall l1 l2, tr = l1 ++ b :: l2 -> seen = true \/ In a l1).
Proof.
  induction tr as [| x tr IH]; intros seen; simpl.
  - split; [| reflexivity]. intros _ [| y l1] l2 H; discriminate H.
  - rewrite andb_true_iff, IH. split.
    + intros [Hx Htr] [| y l1] l2 H; simpl in H; inversion H; subst.
      * left. rewrite (proj2 (event_eqb_eq b b) eq_refl) in Hx. exact Hx.
      * destruct (Htr l1 l2 eq_refl) as [Hs | Hin]; [| right; right; exact Hin].
        apply orb_true_iff in Hs. destruct Hs as [Hs | Hs]; [left; exact Hs |].
        right. left. apply event_eqb_eq. exact Hs.
    + intros H. split.
      * destruct (event_eqb x b) eqn:E; [| reflexivity].
        apply event_eqb_eq in E. subst x.
        destruct (H [] tr eq_refl) as [Hs | []]. exact Hs.
      * intros l1 l2 E. subst tr.
        destruct (H (x :: l1) l2 eq_refl) as [Hs | [Hx | Hin]].
        -- left. rewrite Hs. reflexivity.
        -- left. subst x. rewrite (proj2 (event_eqb_eq a a) eq_refl).
           apply orb_true_r.
        -- right. exact Hin.
Qed.

Lemma after_spec a b tr :
  after a b tr <-> (forall l1 l2, tr = l1 ++ b :: l2 -> In a l1).
Proof.
  unfold after. rewrite precededBy_spec. split; intros H l1 l2 E.
  - destruct (H l1 l2 E) as [? | ?]; [discriminate | assumption].
  - right. eauto.
Qed.

Lemma exec_app ls1 : forall ls2 s s1,
  exec ls1 s = Some s1 -> exec (ls1 ++ ls2) s = exec ls2 s1.
Proof.
  induction ls1 as [| l ls1 IH]; intros ls2 s s1 H; simpl in *.
  - inversion H. reflexivity.
  - destruct (step l s) as [s0 |]; [| discriminate]. apply IH. exact H.
Qed.

Lemma exec_Inv ls : forall s s',
  Inv s -> stop (pi s) = true -> exec ls s = Some s' ->
  Inv s' /\ stop (pi s') = true.
Proof.
  induction ls as [| l ls IH]; intros s s' I Hs H; simpl in H.
  - inversion H; subst. split; assumption.
  - destruct (step l s) as [s1 |] eqn:E; [| discriminate].
    destruct (step_rank _ _ _ I Hs E) as [_ Hs1].
    exact (IH _ _ (Inv_step _ _ _ I E) Hs1 H).
Qed.

Lemma stuck_dec s :
  (forall l, step l s = None) \/ (exists l s1, step l s = Some s1).
Proof.
  destruct (step LPrepare s) eqn:E1; [right; eauto |].
  destruct (step LGoRun s) eqn:E2; [right; eauto |].
  destruct (step (LTerminate true) s) eqn:E3; [right; eauto |].
  destruct (step (LTerminate false) s) eqn:E4; [right; eauto |].
  destruct (step LGoStop s) eqn:E5; [right; eauto |].
  destruct (step LStopCall s) eqn:E6; [right; eauto |].
  destruct (step LStopReturn s) eqn:E7; [right; eauto |].
  destruct (step LCloseStopped s) eqn:E8; [right; eauto |].
  destruct (step LSelect s) eqn:E9; [right; eauto |].
  destruct (step (LRunReturn true) s) eqn:E10; [right; eauto |].
  destruct (step (LRunReturn false) s) eqn:E11; [right; eauto |].
  destruct (step LRecvStopped s) eqn:E12; [right; eauto |].
  destruct (step LClose s) eqn:E13; [right; eauto |].
  destruct (step LCloseDone s) eqn:E14; [right; eauto |].
  left. intros l. destruct l as [| | [|] | | | | | | [|] | | |]; assumption.
Qed.

Lemma teardown_ends n : forall s,
  Inv s -> stop (pi s) = true -> (rank s < n)%nat ->
  exists ls s', exec ls s = Some s' /\ forall l, step l s' = None.
Proof.
  induction n as [| n IH]; intros s I Hs Hr; [lia |].
  destruct (stuck_dec s) as [Hstuck | (l & s1 & E)].
  - exists [], s. split; [reflexivity | exact Hstuck].
  - destruct (step_rank _ _ _ I Hs E) as [Hlt Hs1].
    destruct (IH s1 (Inv_step _ _ _ I E) Hs1 ltac:(lia)) as (ls & s' & H1 & H2).
    exists (l :: ls), s'. split; [simpl; rewrite E; exact H1 | exact H2].
Qed.

Lemma terminate_enabled s :
  Inv s -> stop (pi s) = false ->
  exists ls s', exec ls s = Some s' /\ stop (pi s') = true.
Proof.
  intros [] Hs.
  destruct s as [h o r c tr pn]. destruct h as [p st sd dn].
  simpl in *. subst pn st.
  destruct o; simpl in *; try discriminate.
  - exists [LPrepare; LGoRun; LTerminate true]. eexists. split; reflexivity.
  - exists [LGoRun; LTerminate true]. eexists. split; reflexivity.
  - exists [LTerminate true]. eexists. split; reflexivity.
Qed.

Lemma not_terminated s :
  Inv s -> stop (pi s) = false ->
  occ EvClose (trace s) = 0%nat /\ done (pi s) = false.
Proof.
  intros [] Hs.
  destruct s as [h o r c tr pn]. destruct h as [p st sd dn].
  simpl in *. subst.
  destruct o; simpl in *; try discriminate;
    destruct c; simpl in *; try discriminate;
    destruct r; simpl in *; auto;
    try (specialize (inv_recv0 eq_refl); discriminate).
Qed.

(** C4. In every state a handle can reach (created by [startPipeline],
    terminated at most once by its owner): [Close] has been invoked at
    most once, and exactly once when [done] is closed; every [Close]
    comes strictly after the return of [Stop] and after the closing of
    [stopped]; the closing of [done] comes strictly after the closings of
    [stop] and of [stopped] (and after [Close]); each of the three
    signals has been closed at most once and no close has panicked.
    Once [stop] is closed the teardown ends, after at most [rank s] more
    steps, and where it ends [done] is closed and [Close] has been
    invoked exactly once.  While [stop] is open, that is on a handle
    that has not been terminated, [Close] has not been invoked and
    [done] is open.  And every handle can be terminated and torn down:
    from every state there is a run to a state where no task can move,
    [done] is closed and [Close] has been invoked exactly once. *)
Theorem handle_close_once_after_stop (p : Pipeline) (s : state) :
  reachable p s ->
  (occ EvClose (trace s) <= 1)%nat /\
  (done (pi s) = true -> occ EvClose (trace s) = 1%nat) /\
  after EvStopReturn EvClose (trace s) /\
  after EvCloseStopped EvClose (trace s) /\
  after EvStopReturn EvCloseStopped (trace s) /\
  after EvCloseStop EvCloseDone (trace s) /\
  after EvCloseStopped EvCloseDone (trace s) /\
  after EvClose EvCloseDone (trace s) /\
  (occ EvCloseStop (trace s) <= 1)%nat /\
  (occ EvCloseStopped (trace s) <= 1)%nat /\
  (occ EvCloseDone (trace s) <= 1)%nat /\
  panicked s = false /\
  (stop (pi s) = true ->
   (forall ls s', exec ls s = Some s' -> (length ls <= rank s)%nat) /\
   ((forall l, step l s = None) ->
    done (pi s) = true /\ occ EvClose (trace s) = 1%nat)) /\
  (stop (pi s) = false ->
   occ EvClose (trace s) = 0%nat /\ done (pi s) = false) /\
  (exists ls s',
     exec ls s = Some s' /\ (forall l, step l s' = None) /\
     stop (pi s') = true /\ done (pi s') = true /\
     occ EvClose (trace s') = 1%nat).
Proof.
  intros R. pose proof (reachable_Inv _ _ R) as I.
  pose proof I as [].
  assert (Hd : forall s0, Inv s0 -> done (pi s0) = true ->
                          occ EvClose (trace s0) = 1%nat).
  { intros s0 [] Hd. rewrite inv_occ_close1. rewrite inv_done1 in Hd.
    destruct (runner s0); simpl in *; congruence. }
  assert (Hend : forall s0, Inv s0 -> stop (pi s0) = true ->
            exists ls s', exec ls s0 = Some s' /\ (forall l, step l s' = None) /\
              stop (pi s') = true /\ done (pi s') = true /\
              occ EvClose (trace s') = 1%nat).
  { intros s0 I0 H0.
    destruct (teardown_ends (S (rank s0)) s0 I0 H0 ltac:(lia))
      as (ls & s' & E & Hstuck).
    destruct (exec_Inv _ _ _ I0 H0 E) as [I' H'].
    exists ls, s'. split_and!; try assumption.
    - apply stuck_done; assumption.
    - apply Hd; [assumption |]. apply stuck_done; assumption. }
  split_and!; try assumption.
  - rewrite inv_occ_close0. destruct (past_close (runner s)); simpl; lia.
  - apply Hd; exact I.
  - rewrite inv_occ_stop0. destruct (stop (pi s)); simpl; lia.
  - rewrite inv_occ_stopped0. destruct (stopped (pi s)); simpl; lia.
  - rewrite inv_occ_done0. destruct (done (pi s)); simpl; lia.
  - intros H. split_and!.
    + intros ls s' E. pose proof (exec_bound _ _ _ I H E). lia.
    + intros Hstuck. split; [apply stuck_done; assumption |].
      apply Hd; [exact I |]. apply stuck_done; assumption.
  - apply not_terminated. exact I.
  - destruct (stop (pi s)) eqn:Hs.
    + apply Hend; assumption.
    + destruct (terminate_enabled s I Hs) as (ls1 & s1 & E1 & H1).
      assert (I1 : Inv s1)
        by exact (reachable_Inv _ _ (exec_reachable p ls1 s s1 R E1)).
      destruct (Hend s1 I1 H1) as (ls2 & s' & E2 & Rest).
      exists (ls1 ++ ls2), s'. split; [| exact Rest].
      rewrite (exec_app _ _ _ _ E1). exact E2.
Qed.

Lemma handle_close_once_after_stop_witness :
  exists s,
    exec teardown (init 7%nat) = Some s /\
    stop (pi s) = true /\ (forall l, step l s = None) /\
    done (pi s) = true /\ occ EvClose (trace s) = 1%nat /\
    after EvStopReturn EvClose (trace s).
Proof.
  assert (E : exists s,
             exec teardown (init 7%nat) = Some s /\
             stop (pi s) = true /\ (forall l, step l s = None)).
  { eexists. split; [vm_compute; reflexivity |]. split; [reflexivity |].
    intros l. destruct l as [| | [|] | | | | | | [|] | | |]; reflexivity. }
  destruct E as (s & E & Hs & Hstuck).
  exists s. split; [exact E |]. split; [exact Hs |]. split; [exact Hstuck |].
  destruct (handle_close_once_after_stop 7%nat s
              (exec_reachable 7%nat teardown (init 7%nat) s (reach_init 7%nat) E))
    as (_ & _ & Ha & _ & _ & _ & _ & _ & _ & _ & _ & _ & H & _).
  destruct (H Hs) as [_ Hend]. destruct (Hend Hstuck) as [Hd Hc].
  split_and!; assumption.
Defined.

(** C4, as stated, fails for a handle that is not terminated: after a
    [Run] that has failed the runner waits at [<-pi.stopped]; [Close]
    has not been invoked, [done] is open, and the only step left is the
    [terminate] of the owner. *)
Lemma handle_not_terminated_never_closed :
  exists s,
    exec failing (init 7%nat) = Some s /\
    runner s = RAwaitStopped /\ stop (pi s) = false /\
    occ EvClose (trace s) = 0%nat /\ done (pi s) = false /\
    forall l s', step l s = Some s' -> exists scheduled, l = LTerminate scheduled.
Proof.
  eexists. split; [vm_compute; reflexivity |].
  split_and!; try reflexivity.
  intros l s'.
  destruct l as [| | b | | | | | | b | | |]; try discriminate.
  intros _. exists b. reflexivity.
Qed.

End HandleProofs.

(** ** The sum of the probes *)

Section ProbeSum.

Import Scheduler.

Context (probe : Getter -> Z).
Hypothesis probe_u32 : forall g, U32.In (probe g).


Lemma addQueueLength_spec q l :
  U32.In q -> U32.In l ->
  addQueueLength q l = if q + l <=? U32.max then q + l else q.
Proof.
  intros Hq Hl. unfold addQueueLength.
  destruct (Z.leb_spec (q + l) U32.max) as [Hle | Hgt].
  - rewrite U32_add_no_carry by (auto; lia).
    unfold U32.In in *.
    destruct (Z.gtb_spec (l + q) q); lia.
  - rewrite U32_add_carry by (auto; lia).
    unfold U32.In, U32.max, U32.modulus in *.
    destruct (Z.gtb_spec (l + q - 2 ^ 32) q); lia.
Qed.

Lemma totalQueueLength_nonneg gs : 0 <= totalQueueLength probe gs.
Proof.
  induction gs as [| g gs IH]; simpl; [lia |].
  pose proof (probe_u32 g) as Hg. unfold U32.In in Hg. lia.
Qed.

Lemma sumFrom_cons q g gs :
  sumFrom probe q (g :: gs) = sumFrom probe (addQueueLength q (probe g)) gs.
Proof. reflexivity. Qed.

Lemma sumFrom_bounds gs : forall q,
  U32.In q ->
  U32.In (sumFrom probe q gs) /\
  q <= sumFrom probe q gs <= q + totalQueueLength probe gs /\
  (q + totalQueueLength probe gs <= U32.max -> sumFrom probe q gs = q + totalQueueLength probe gs) /\
  (sumFrom probe q gs = 0 -> q = 0 /\ totalQueueLength probe gs = 0).
Proof.
  induction gs as [| g gs IH]; intros q Hq.
  - unfold sumFrom, totalQueueLength, U32.In in *. simpl.
    repeat split; intros; lia.
  - rewrite sumFrom_cons. cbn [totalQueueLength fold_right].
    fold (totalQueueLength probe gs).
    pose proof (probe_u32 g) as Hg.
    pose proof (totalQueueLength_nonneg gs) as Hn.
    pose proof (addQueueLength_spec q (probe g) Hq Hg) as Ha.
    unfold U32.In in Hq, Hg.
    destruct (Z.leb_spec (q + probe g) U32.max) as [Hle | Hgt];
      rewrite Ha;
      match goal with |- context [sumFrom probe ?a gs] =>
        assert (Hin : U32.In a) by (unfold U32.In; lia);
        destruct (IH a Hin) as (I1 & I2 & I3 & I4)
      end;
      (split; [exact I1 |]); (split; [lia |]); (split; [lia |]);
      intros H; destruct (I4 H); lia.
Qed.

(** C2 (amended). The loop of the spawner and of the shrinker never
    wraps: an addition is made when the sum stays a [uint32] and is
    dropped otherwise.  So the result is a [uint32] that is at most the
    exact sum, is the exact sum whenever that sum is at most
    [UINT32_MAX], and is zero only when every probe returns zero. *)
Theorem sumQueueLength_drops_overflow (gs : list Getter) :
  (forall q l, U32.In q -> U32.In l ->
     addQueueLength q l = if q + l <=? U32.max then q + l else q) /\
  U32.In (sumQueueLength probe gs) /\
  sumQueueLength probe gs <= Z.min U32.max (totalQueueLength probe gs) /\
  (totalQueueLength probe gs <= U32.max ->
   sumQueueLength probe gs = totalQueueLength probe gs) /\
  (sumQueueLength probe gs = 0 <-> totalQueueLength probe gs = 0).
Proof.
  assert (H0 : U32.In 0) by (unfold U32.In; vm_compute; intuition discriminate).
  destruct (sumFrom_bounds gs 0 H0) as (I1 & I2 & I3 & I4).
  change (sumFrom probe 0 gs) with (sumQueueLength probe gs) in *.
  split; [apply addQueueLength_spec |].
  pose proof (totalQueueLength_nonneg gs) as Hn.
  split; [exact I1 |]. unfold U32.In in I1.
  split; [lia |]. split; [lia |]. split.
  - intros H. apply I4 in H. tauto.
  - intros H. assert (U32.max = 4294967295) by reflexivity. lia.
Qed.

End ProbeSum.

Section ProbeSumInstances.

Import Scheduler.

Lemma sumQueueLength_drops_overflow_witness :
  sumQueueLength (fun _ => 3) [0%nat; 1%nat] = totalQueueLength (fun _ => 3) [0%nat; 1%nat].
Proof.
  apply (sumQueueLength_drops_overflow (fun _ => 3)).
  - intros _. unfold U32.In. vm_compute. intuition discriminate.
  - vm_compute. discriminate.
Defined.

(** C2, as stated, fails: two probes of 2^31 each sum to 2^31, not to
    [UINT32_MAX]. *)
Lemma sumQueueLength_not_saturating :
  (forall g : Getter, U32.In ((fun _ => 2147483648) g)) /\
  sumQueueLength (fun _ => 2147483648) [0%nat; 1%nat] = 2147483648 /\
  Z.min U32.max (totalQueueLength (fun _ => 2147483648) [0%nat; 1%nat])
    = 4294967295 /\
  sumQueueLength (fun _ => 2147483648) [0%nat; 1%nat]
    <> Z.min U32.max (totalQueueLength (fun _ => 2147483648) [0%nat; 1%nat]).
Proof.
  split_and!.
  - intros _. unfold U32.In. vm_compute. intuition discriminate.
  - vm_compute. reflexivity.
  - vm_compute. reflexivity.
  - vm_compute. discriminate.
Qed.

End ProbeSumInstances.

(** ** The schedulers *)

Section SchedulerProofs.

Import Scheduler.

Context (opt : Options).
Context (GetInstance : nat -> option Pipeline).
Context (uint32_oor : option Z -> Z).

Lemma startLoop_flags n : forall idx cur s,
  let s' := snd (startLoop GetInstance n idx cur s) in
  started s' = started s /\ stopped s' = stopped s /\
  terminated s' = terminated s.
Proof.
  induction n as [| n IH]; intros idx cur s; cbn [startLoop].
  - simpl. auto.
  - destruct (GetInstance (pipeline s)) as [p |]; [| simpl; auto].
    specialize (IH (U32.add idx 1) (U32.add cur 1)
                  (set_instances (instances s ++ [newPipelineInstance p]) (served s))).
    cbv zeta in *. simpl in IH. exact IH.
Qed.

Lemma startPipeline_flags parallelism s :
  let s' := snd (startPipeline opt GetInstance parallelism s) in
  started s' = started s /\ stopped s' = stopped s /\
  terminated s' = terminated s.
Proof.
  unfold startPipeline.
  destruct ((stopped s =? 1) || (parallelismOf s =? U32.max)); [simpl; auto |].
  apply startLoop_flags.
Qed.

Lemma startPipeline_stopped parallelism s :
  stopped s = 1 ->
  startPipeline opt GetInstance parallelism s = (parallelismOf s, 0, s).
Proof.
  intros H. unfold startPipeline. rewrite H. reflexivity.
Qed.

Lemma startLoop_spec n : forall idx cur s,
  0 <= idx -> idx + Z.of_nat n <= U32.max ->
  cur = size s -> cur + Z.of_nat n <= U32.max ->
  let r := startLoop GetInstance n idx cur s in
  let s' := snd r in
  let delta := snd (fst r) - idx in
  0 <= delta <= Z.of_nat n /\
  fst (fst r) = size s' /\
  size s' = size s + delta /\
  (exists new, instances s' = instances s ++ new) /\
  started s' = started s /\ stopped s' = stopped s /\
  terminated s' = terminated s.
Proof.
  induction n as [| n IH]; intros idx cur s Hidx Hn Hcur Hc; cbn [startLoop].
  - simpl. split_and!; try lia; try reflexivity; try assumption.
    exists []. symmetry. apply app_nil_r.
  - destruct (GetInstance (pipeline s)) as [p |].
    + assert (Hs : size (set_instances (instances s ++ [newPipelineInstance p]) (served s))
                   = size s + 1).
      { unfold size. simpl. rewrite length_app. simpl. lia. }
      assert (Hi : U32.add idx 1 = idx + 1).
      { apply U32_add_no_carry; unfold U32.In, U32.max, U32.modulus in *; lia. }
      assert (Hk : U32.add cur 1 = cur + 1).
      { apply U32_add_no_carry; unfold U32.In, U32.max, U32.modulus, size in *; lia. }
      rewrite Hi, Hk.
      specialize (IH (idx + 1) (cur + 1)
                    (set_instances (instances s ++ [newPipelineInstance p]) (served s))
                    ltac:(lia) ltac:(lia) ltac:(lia) ltac:(lia)).
      cbv zeta in IH. destruct IH as (I1 & I2 & I3 & (new & I4) & I5 & I6 & I7).
      cbv zeta. split_and!; try lia; try assumption.
      * exists (newPipelineInstance p :: new). rewrite I4. simpl.
        rewrite <- app_assoc. reflexivity.
    + simpl. split_and!; try lia; try reflexivity; try assumption.
      * unfold size. simpl. lia.
      * exists []. symmetry. apply app_nil_r.
Qed.

Lemma parallelismOf_size (s : commonPipelineScheduler) :
  size s <= U32.max -> parallelismOf s = size s.
Proof.
  intros H. unfold parallelismOf. apply U32_wrap_small.
  unfold U32.In, size in *. lia.
Qed.

Hypothesis opt_valid : valid_options opt.

Lemma startPipeline_spec parallelism (s : commonPipelineScheduler) :
  size s <= PipelineMaxParallelism opt ->
  let r := startPipeline opt GetInstance parallelism s in
  let s' := snd r in
  let delta := snd (fst r) in
  0 <= delta <= PipelineMaxParallelism opt - size s /\
  (0 <= parallelism -> delta <= Z.max 1 parallelism) /\
  fst (fst r) = size s' /\
  size s' = size s + delta /\
  size s' <= PipelineMaxParallelism opt /\
  (exists new, instances s' = instances s ++ new) /\
  started s' = started s /\ stopped s' = stopped s /\
  terminated s' = terminated s /\
  (stopped s = 1 -> s' = s).
Proof.
  intros Hcap. destruct opt_valid as (_ & _ & Hmax). unfold U32.In in Hmax.
  assert (Hpos : 0 <= size s) by (unfold size; lia).
  unfold startPipeline. rewrite parallelismOf_size by lia.
  destruct ((stopped s =? 1) || (size s =? U32.max)) eqn:E.
  - simpl. split_and!; try lia; try reflexivity.
    exists []. symmetry. apply app_nil_r.
  - apply orb_false_iff in E. destruct E as [E1 E2].
    apply Z.eqb_neq in E1, E2.
    rewrite U32_sub_no_borrow by (unfold U32.In, size in *; lia).
    set (par := if parallelism =? 0 then 1 else parallelism).
    set (left := PipelineMaxParallelism opt - size s).
    set (n := Z.to_nat (if par >? left then left else par)).
    assert (Hn : Z.of_nat n <= left).
    { subst n. destruct (Z.gtb_spec par left); lia. }
    assert (Hn' : 0 <= parallelism -> Z.of_nat n <= Z.max 1 parallelism).
    { subst n par. destruct (Z.eqb_spec parallelism 0);
        match goal with |- context [?a >? left] =>
          destruct (Z.gtb_spec a left) end; lia. }
    pose proof (startLoop_spec n 0 (size s) s ltac:(lia) ltac:(lia) eq_refl ltac:(lia)) as H.
    cbv zeta in H. destruct H as (I1 & I2 & I3 & I4 & I5 & I6 & I7).
    cbv zeta. rewrite Z.sub_0_r in *.
    split_and!; try lia; try assumption.
Qed.


Lemma size_nonneg (s : commonPipelineScheduler) : 0 <= size s.
Proof. unfold size. lia. Qed.

(** *** Shrinking *)

Lemma shrinkLocked_spec now (s : dynamicPipelineScheduler) :
  size s <= U32.max ->
  (shrinkLocked opt now s = Ok (s, None) /\
   (size s <= PipelineMinParallelism opt \/
    Time.ms_lt (Time.Sub now (launchTime s))
      SCHEDULER_DYNAMIC_SHRINK_MIN_DELAY_MS = true)) \/
  (exists h s',
     shrinkLocked opt now s = Ok (s', Some h) /\
     instances s = instances s' ++ [h] /\
     PipelineMinParallelism opt < size s /\
     Time.ms_lt (Time.Sub now (launchTime s))
       SCHEDULER_DYNAMIC_SHRINK_MIN_DELAY_MS = false /\
     shrinkTime s' = now /\
     terminated s' = terminated s ++ [(size s - 1, h, true)] /\
     started s' = started s /\ stopped s' = stopped s /\
     launchTime s' = launchTime s /\ loops s' = loops s).
Proof.
  intros Hcap. destruct opt_valid as (_ & Hmin & _). unfold U32.In in Hmin.
  unfold shrinkLocked. rewrite parallelismOf_size by assumption.
  destruct (Z.leb_spec (size s) (PipelineMinParallelism opt)) as [Hle | Hgt].
  { left. split; [reflexivity | left; assumption]. }
  destruct (Time.ms_lt (Time.Sub now (launchTime s))
              SCHEDULER_DYNAMIC_SHRINK_MIN_DELAY_MS) eqn:Ht.
  { left. split; [reflexivity | right; reflexivity]. }
  right.
  assert (Hne : instances s <> []).
  { intros E. unfold size in Hgt. rewrite E in Hgt. simpl in Hgt. lia. }
  destruct (exists_last Hne) as (rest & h & E).
  assert (Hidx : Z.to_nat (size s - 1) = length rest).
  { unfold size. rewrite E, length_app. simpl. lia. }
  unfold index.
  destruct (Z.ltb_spec (size s - 1) 0) as [Hneg | _]; [lia |].
  rewrite Hidx, E, list_lookup_middle by reflexivity.
  rewrite take_app_length.
  eexists h, _. split; [reflexivity |]. simpl.
  split_and!; try reflexivity; try assumption.
Qed.


Lemma shrinkTick_spec probe order now (s : dynamicPipelineScheduler) :
  size s <= U32.max ->
  shrinkTick opt probe order now s = Ok (s, None) \/
  (shrinkCheck opt probe order s = true /\
   exists h s', shrinkTick opt probe order now s = Ok (s', Some h) /\
                shrinkLocked opt now s = Ok (s', Some h)).
Proof.
  intros Hcap. unfold shrinkTick.
  destruct (shrinkCheck opt probe order s); [| left; reflexivity].
  destruct (shrinkLocked_spec now s Hcap) as [[E _] | (h & s' & E & _)].
  - left. exact E.
  - right. split; [reflexivity |]. exists h, s'. split; exact E.
Qed.

(** *** The operations and the worker set *)

Lemma Stop_spec (s s' : dynamicPipelineScheduler) :
  Stop s = Ok s' ->
  instances s' = instances s /\ terminated s' = terminated s /\
  (stopped s = 0 -> stopped s' = 1 /\ started s' = 0) /\
  (stopped s <> 0 -> s' = s).
Proof.
  unfold Stop. destruct (Z.eqb_spec (stopped s) 0) as [E | E].
  - unfold awaitSpawnDone, spawnReturn, close, close_chan, bind. simpl.
    destruct (spawnStop s), (shrinkStop s); try discriminate.
    destruct (runs Spawn (loops s)); simpl;
      destruct (spawnDone s); simpl; try discriminate;
      destruct (closed (launchChan s)); try discriminate;
      intros H; inversion H; subst; simpl; split_and!; try reflexivity;
      intros; try lia; split; reflexivity.
  - intros H. inversion H; subst. split_and!; try reflexivity; try lia.
Qed.

Lemma trigger_common probe name g (s : dynamicPipelineScheduler) u s' :
  snd (trigger probe name g s) = Ok (u, s') ->
  common s' = common s /\ loops s' = loops s.
Proof.
  unfold trigger, bindM, callGetter, loadStopped, trySend, ret, try_send.
  destruct g as [g |]; simpl; [| discriminate].
  destruct (probe g =? 0); simpl.
  { intros H; inversion H; auto. }
  destruct (stopped s =? 1); simpl.
  { intros H; inversion H; auto. }
  destruct (closed (launchChan s)); simpl; [discriminate |].
  destruct (length (buf (launchChan s)) <? launchChanCap)%nat; simpl;
    intros H; inversion H; auto.
Qed.

Lemma debounce_common now info (s s1 : dynamicPipelineScheduler) :
  debounce now info s = Some s1 ->
  common s1 = common s /\ shrinkTime s1 = shrinkTime s /\
  launchTime s1 = launchTime s /\ loops s1 = loops s /\
  launchChan s1 = launchChan s.
Proof.
  unfold debounce. destruct (fromTrigger info).
  - destruct (Time.ms_lt _ _); [discriminate |].
    intros H; inversion H; subst; simpl; auto.
  - intros H; inversion H; subst; simpl; auto.
Qed.

Lemma grow_spec now now' info (s : dynamicPipelineScheduler) :
  size s <= PipelineMaxParallelism opt ->
  let r := grow opt GetInstance uint32_oor now now' info s in
  size (fst r) <= PipelineMaxParallelism opt /\
  getters (fst r) = getters s /\
  sourceLastScheduleTimes (fst r) = sourceLastScheduleTimes s /\
  shrinkTime (fst r) = shrinkTime s /\
  snd r = launchRequest uint32_oor
            (Time.ms_lt (Time.Sub now (shrinkTime s))
               SCHEDULER_DYNAMIC_FAST_SCALE_INTERVAL_MS)
            (queueLength info).
Proof.
  intros Hcap. unfold grow. cbv zeta.
  match goal with |- context [startPipeline opt GetInstance ?n ?c] =>
    pose proof (startPipeline_spec n c Hcap) as H; cbv zeta in H;
    destruct (startPipeline opt GetInstance n c) as [[cur delta] cs]
  end.
  simpl in *. destruct H as (_ & _ & _ & _ & H & _).
  destruct (delta >? 0); simpl; auto.
Qed.

Lemma launchEvent_cap now now' info (s s' : dynamicPipelineScheduler) r :
  size s <= PipelineMaxParallelism opt ->
  launchEvent opt GetInstance uint32_oor now now' info s = (s', r) ->
  size s' <= PipelineMaxParallelism opt.
Proof.
  intros Hcap. unfold launchEvent.
  destruct (debounce now info s) as [s1 |] eqn:E.
  - destruct (debounce_common _ _ _ _ E) as (Hc & _).
    intros H; inversion H; subst.
    apply grow_spec. rewrite Hc. exact Hcap.
  - intros H; inversion H; subst. exact Hcap.
Qed.

Lemma StopPipeline_instances (s : commonPipelineScheduler) :
  instances (StopPipeline s) = [].
Proof. reflexivity. Qed.

Lemma perform_cap o (s s' : dynamicPipelineScheduler) :
  size s <= PipelineMaxParallelism opt ->
  perform opt GetInstance uint32_oor o s = Ok s' ->
  size s' <= PipelineMaxParallelism opt.
Proof.
  intros Hcap. pose proof opt_valid as (_ & _ & Hmax). unfold U32.In in Hmax.
  destruct o as [c st m | | | probe name g | now now' | probe order |
                 | probe order now | now | | parallelism]; simpl; unfold when.
  - intros H; inversion H; subst. unfold Start.
    destruct (started s =? 0); [| exact Hcap]. simpl.
    match goal with |- context [startPipeline opt GetInstance ?n ?c] =>
      pose proof (startPipeline_spec n c) as Hs end.
    simpl in Hs. apply Hs. exact Hcap.
  - intros H. apply Stop_spec in H. unfold size. destruct H as (-> & _). exact Hcap.
  - intros H; inversion H; subst. unfold size. simpl. lia.
  - destruct (trigger probe name g s) as [log [[u s1] | |]] eqn:E;
      simpl; try discriminate.
    intros H; inversion H; subst.
    assert (E' : snd (trigger probe name g s) = Ok (u, s'))
      by (rewrite E; reflexivity).
    apply trigger_common in E'. destruct E' as (-> & _). exact Hcap.
  - destruct (runs Launch (loops s)); [| discriminate].
    unfold launch, recv. destruct (buf (launchChan s)) as [| info rest]; simpl.
    + destruct (closed (launchChan s)); simpl; [| discriminate].
      intros H; inversion H; subst. exact Hcap.
    + destruct (launchEvent _ _ _ _ _ _ _) as [s1 r] eqn:E. simpl.
      intros H; inversion H; subst.
      eapply launchEvent_cap; [| exact E]. exact Hcap.
  - destruct (runs Spawn (loops s)); [| discriminate].
    unfold spawnTick. destruct (_ =? _); [intros H; inversion H; subst; exact Hcap |].
    destruct (_ =? _); [intros H; inversion H; subst; exact Hcap |].
    unfold send. destruct (closed (launchChan s)); simpl; [discriminate |].
    destruct (_ <? _)%nat; simpl; [| discriminate].
    intros H; inversion H; subst; exact Hcap.
  - destruct (runs Spawn (loops s)); [| discriminate].
    unfold spawnReturn. destruct (spawnStop s); [| discriminate].
    destruct (spawnDone s); simpl; [discriminate |].
    intros H; inversion H; subst; exact Hcap.
  - destruct (runs Shrink (loops s)); [| discriminate].
    destruct (shrinkTick_spec probe order now s ltac:(lia))
      as [E | (_ & h & s1 & E & E')]; rewrite E; simpl;
      intros H; inversion H; subst; [exact Hcap |].
    destruct (shrinkLocked_spec now s ltac:(lia)) as [[E2 _] | (h2 & s2 & E2 & Hi & _)];
      rewrite E2 in E'; inversion E'; subst.
    unfold size in *. rewrite Hi, length_app in Hcap. simpl in Hcap. lia.
  - destruct (runs Shrink (loops s)); [| discriminate].
    destruct (shrinkLocked_spec now s ltac:(lia)) as [[E2 _] | (h2 & s2 & E2 & Hi & _)];
      rewrite E2; simpl; intros H; inversion H; subst; [exact Hcap |].
    unfold size in *. rewrite Hi, length_app in Hcap. simpl in Hcap. lia.
  - destruct (runs Shrink (loops s)); [| discriminate].
    unfold shrinkReturn. destruct (shrinkStop s); [| discriminate].
    intros H; inversion H; subst; exact Hcap.
  - intros H; inversion H; subst. simpl.
    apply (startPipeline_spec parallelism s Hcap).
Qed.

Lemma reachable_cap (s : dynamicPipelineScheduler) :
  reachable opt GetInstance uint32_oor s -> size s <= PipelineMaxParallelism opt.
Proof.
  induction 1 as [| o s s' _ IH H].
  - pose proof opt_valid as (_ & _ & Hmax). unfold U32.In in Hmax.
    unfold size. simpl. lia.
  - eapply perform_cap; eauto.
Qed.


(** A tick of the spawner either leaves the state as it is or queues
    one event without name and without probe, whose queue length is the
    sum of the probes; the launcher takes it for a sweep. *)
Lemma spawnTick_posts probe order (s s' : dynamicPipelineScheduler) :
  spawnTick opt probe order s = Ok s' ->
  s' = s \/
  exists e,
    buf (launchChan s') = buf (launchChan s) ++ [e] /\
    getterName e = EmptyString /\ getter e = None /\
    queueLength e = sumQueueLength probe (rangeGetters order (getters s)) /\
    queueLength e <> 0 /\ fromTrigger e = None /\
    common s' = common s.
Proof.
  unfold spawnTick. destruct (_ =? _); [intros H; inversion H; auto |].
  destruct (Z.eqb_spec (sumQueueLength probe (rangeGetters order (getters s))) 0)
    as [E | E]; [intros H; inversion H; auto |].
  unfold send. destruct (closed (launchChan s)); simpl; [discriminate |].
  destruct (_ <? _)%nat; simpl; [| discriminate].
  intros H; inversion H; subst. right. eexists. simpl.
  split; [reflexivity |]. simpl. split_and!; auto.
Qed.

(** *** Handles are stopped as they leave the set *)

Lemma stopAll_spec (l : list (Z * pipelineInstance)) : forall s : commonPipelineScheduler,
  let s' := fold_left (fun acc (x : Z * pipelineInstance) =>
                         stopPipelineInstance (fst x) (snd x) false acc) l s in
  instances s' = instances s /\
  handlesOf (terminated s') = handlesOf (terminated s) ++ map snd l.
Proof.
  induction l as [| x l IH]; intros s; simpl.
  - rewrite app_nil_r. auto.
  - destruct (IH (stopPipelineInstance (fst x) (snd x) false s)) as [I1 I2].
    simpl in *. split; [exact I1 |]. rewrite I2.
    unfold handlesOf. rewrite map_app. simpl. rewrite <- app_assoc. reflexivity.
Qed.

Lemma imap_snd {A B} (l : list A) : forall f : nat -> B,
  map snd (imap (fun i x => (f i, x)) l) = l.
Proof.
  induction l as [| x l IH]; intros f; simpl; [reflexivity |].
  f_equal. apply (IH (f ∘ S)).
Qed.

Lemma StopPipeline_spec (s : commonPipelineScheduler) :
  instances (StopPipeline s) = [] /\
  handlesOf (terminated (StopPipeline s))
  = handlesOf (terminated s) ++ instances s.
Proof.
  split; [reflexivity |]. unfold StopPipeline. simpl.
  match goal with |- context [fold_left ?f ?l s] =>
    destruct (stopAll_spec l s) as [_ H] end.
  rewrite H, imap_snd. reflexivity.
Qed.

(** Every handle that an operation hands to [stopPipelineInstance]
    leaves the worker set by that operation, and an operation that adds
    handles stops none. *)
Lemma perform_terminated o (s s' : dynamicPipelineScheduler) :
  size s <= PipelineMaxParallelism opt ->
  perform opt GetInstance uint32_oor o s = Ok s' ->
  exists kept gone new,
    instances s = kept ++ gone /\ instances s' = kept ++ new /\
    handlesOf (terminated s') = handlesOf (terminated s) ++ gone /\
    (gone = [] \/ new = []).
Proof.
  intros Hcap. pose proof opt_valid as (_ & _ & Hmax). unfold U32.In in Hmax.
  assert (Same : forall s' : dynamicPipelineScheduler,
             instances s' = instances s -> terminated s' = terminated s ->
             exists kept gone new,
               instances s = kept ++ gone /\ instances s' = kept ++ new /\
               handlesOf (terminated s') = handlesOf (terminated s) ++ gone /\
               (gone = [] \/ new = [])).
  { intros s1 H1 H2. exists (instances s), [], []. rewrite H1, H2, !app_nil_r. auto. }
  assert (Grow : forall n (c0 : commonPipelineScheduler)
                    (s1 : dynamicPipelineScheduler),
             instances c0 = instances s -> terminated c0 = terminated s ->
             common s1 = snd (startPipeline opt GetInstance n c0) ->
             exists kept gone new,
               instances s = kept ++ gone /\ instances s1 = kept ++ new /\
               handlesOf (terminated s1) = handlesOf (terminated s) ++ gone /\
               (gone = [] \/ new = [])).
  { intros n c0 s1 Hi0 Ht0 H1.
    assert (Hcap0 : size c0 <= PipelineMaxParallelism opt)
      by (unfold size in *; rewrite Hi0; exact Hcap).
    pose proof (startPipeline_spec n c0 Hcap0) as H.
    cbv zeta in H. destruct H as (_ & _ & _ & _ & _ & (new & Hn) & _ & _ & Ht & _).
    rewrite <- H1 in Hn, Ht.
    exists (instances s), [], new. rewrite Hn, Ht, Hi0, Ht0, !app_nil_r. auto. }
  assert (Pop : forall now s1 h,
             shrinkLocked opt now s = Ok (s1, Some h) ->
             exists kept gone new,
               instances s = kept ++ gone /\ instances s1 = kept ++ new /\
               handlesOf (terminated s1) = handlesOf (terminated s) ++ gone /\
               (gone = [] \/ new = [])).
  { intros now s1 h E.
    destruct (shrinkLocked_spec now s ltac:(lia))
      as [[E2 _] | (h2 & s2 & E2 & Hi & _ & _ & _ & Ht & _)];
      rewrite E2 in E; inversion E; subst.
    exists (instances s1), [h], []. rewrite Hi, Ht, app_nil_r.
    unfold handlesOf. rewrite map_app. simpl. auto. }
  destruct o as [c st m | | | probe name g | now now' | probe order |
                 | probe order now | now | | parallelism]; simpl; unfold when.
  - intros H; inversion H; subst. unfold Start.
    destruct (started s =? 0); [| apply Same; reflexivity].
    eapply Grow; [| | simpl; reflexivity]; reflexivity.
  - intros H. apply Stop_spec in H. destruct H as (H1 & H2 & _). apply Same; assumption.
  - intros H; inversion H; subst.
    exists [], (instances s), []. split; [reflexivity |].
    split; [reflexivity |]. split; [| auto].
    exact (proj2 (StopPipeline_spec s)).
  - destruct (trigger probe name g s) as [log [[u s1] | |]] eqn:E;
      simpl; try discriminate.
    intros H; inversion H; subst.
    assert (E' : snd (trigger probe name g s) = Ok (u, s'))
      by (rewrite E; reflexivity).
    apply trigger_common in E'. destruct E' as (E' & _).
    apply Same; rewrite E'; reflexivity.
  - destruct (runs Launch (loops s)); [| discriminate].
    unfold launch, recv. destruct (buf (launchChan s)) as [| info rest]; simpl.
    + destruct (closed (launchChan s)); simpl; [| discriminate].
      intros H; inversion H; subst. apply Same; reflexivity.
    + unfold launchEvent.
      destruct (debounce _ _ _) as [s1 |] eqn:E; simpl.
      * destruct (debounce_common _ _ _ _ E) as (Hc & _). simpl in Hc.
        intros H; inversion H; subst. unfold grow; cbv zeta; simpl.
        match goal with |- context [if ?b then _ else _] => destruct b end;
          (eapply Grow; [| | simpl; reflexivity]; rewrite Hc; reflexivity).
      * intros H; inversion H; subst. apply Same; reflexivity.
  - destruct (runs Spawn (loops s)); [| discriminate].
    unfold spawnTick. destruct (_ =? _); [intros H; inversion H; subst; apply Same; reflexivity |].
    destruct (_ =? _); [intros H; inversion H; subst; apply Same; reflexivity |].
    unfold send. destruct (closed (launchChan s)); simpl; [discriminate |].
    destruct (_ <? _)%nat; simpl; [| discriminate].
    intros H; inversion H; subst; apply Same; reflexivity.
  - destruct (runs Spawn (loops s)); [| discriminate].
    unfold spawnReturn. destruct (spawnStop s); [| discriminate].
    destruct (spawnDone s); simpl; [discriminate |].
    intros H; inversion H; subst; apply Same; reflexivity.
  - destruct (runs Shrink (loops s)); [| discriminate].
    destruct (shrinkTick_spec probe order now s ltac:(lia))
      as [E | (_ & h & s1 & E & E')]; rewrite E; simpl;
      intros H; inversion H; subst; [apply Same; reflexivity |].
    eapply Pop; eauto.
  - destruct (runs Shrink (loops s)); [| discriminate].
    destruct (shrinkLocked opt now s) as [[s1 [h |]] | |] eqn:E; simpl; try discriminate;
      intros H; inversion H; subst.
    + eapply Pop; eauto.
    + destruct (shrinkLocked_spec now s ltac:(lia))
        as [[E2 _] | (h2 & s2 & E2 & _)]; rewrite E2 in E; inversion E; subst.
      apply Same; reflexivity.
  - destruct (runs Shrink (loops s)); [| discriminate].
    unfold shrinkReturn. destruct (shrinkStop s); [| discriminate].
    intros H; inversion H; subst; apply Same; reflexivity.
  - intros H; inversion H; subst.
    eapply Grow; [| | simpl; reflexivity]; reflexivity.
Qed.
(** *** The lifecycle *)

Lemma Start_twice c st m c' st' m' (s : dynamicPipelineScheduler) :
  Start opt GetInstance c' st' m' (Start opt GetInstance c st m s)
  = Start opt GetInstance c st m s.
Proof.
  unfold Start at 2 3. destruct (Z.eqb_spec (started s) 0) as [E | E].
  - unfold Start. simpl.
    match goal with |- context [startPipeline opt GetInstance ?n ?c0] =>
      destruct (startPipeline_flags n c0) as (Hs & _) end.
    simpl in Hs. rewrite Hs. reflexivity.
  - unfold Start. destruct (Z.eqb_spec (started s) 0); [contradiction | reflexivity].
Qed.

Lemma Stop_twice (s s' : dynamicPipelineScheduler) :
  Stop s = Ok s' -> Stop s' = Ok s'.
Proof.
  intros H. destruct (Stop_spec _ _ H) as (_ & _ & H0 & H1).
  destruct (Z.eq_dec (stopped s) 0) as [E | E].
  - destruct (H0 E) as [Hs _]. unfold Stop. rewrite Hs. reflexivity.
  - rewrite (H1 E) in *. unfold Stop in *.
    destruct (Z.eqb_spec (stopped s) 0); [contradiction | reflexivity].
Qed.

Lemma Stop_signals (s s' : dynamicPipelineScheduler) :
  stopped s = 0 -> Stop s = Ok s' ->
  spawnStop s' = true /\ spawnDone s' = true /\ shrinkStop s' = true /\
  closed (launchChan s') = true.
Proof.
  intros E. unfold Stop. rewrite E. simpl.
  unfold awaitSpawnDone, spawnReturn, close, close_chan, bind. simpl.
  destruct (spawnStop s), (shrinkStop s); try discriminate.
  destruct (runs Spawn (loops s)); simpl;
    destruct (spawnDone s); simpl; try discriminate;
    destruct (closed (launchChan s)); try discriminate;
    intros H; inversion H; subst; simpl; auto.
Qed.

(** After a [Stop] that has taken effect, a [Start] passes its guard
    again: it sets [started], starts the three loops, and adds no
    worker; the spawner it has started panics on its way out. *)
Lemma Start_after_Stop c st m (s s' : dynamicPipelineScheduler) :
  stopped s = 0 -> Stop s = Ok s' ->
  started s' = 0 /\
  started (Start opt GetInstance c st m s') = 1 /\
  instances (Start opt GetInstance c st m s') = instances s' /\
  loops (Start opt GetInstance c st m s') = loops s' ++ [Launch; Spawn; Shrink] /\
  spawnReturn (Start opt GetInstance c st m s') = Panic.
Proof.
  intros E H.
  destruct (Stop_spec _ _ H) as (_ & _ & H0 & _). destruct (H0 E) as [Hst Hsd].
  destruct (Stop_signals _ _ E H) as (S1 & S2 & _).
  split; [exact Hsd |].
  unfold Start. rewrite Hsd. simpl.
  rewrite startPipeline_stopped by exact Hst. simpl.
  split_and!; try reflexivity.
  unfold spawnReturn. simpl. rewrite S1, S2. reflexivity.
Qed.

(** C1. From the creation of the scheduler on, whatever happens to it
    ([Start], launcher rounds, ticks, [StopPipeline], [Stop], or a call
    of [startPipeline] from anywhere else), the worker set never exceeds
    [PipelineMaxParallelism]; and a call of [startPipeline] adds at most
    [PipelineMaxParallelism - len] workers (and at most the count asked
    for), returning the new length and the count added. *)
Theorem startPipeline_never_exceeds_cap (s : dynamicPipelineScheduler) :
  reachable opt GetInstance uint32_oor s ->
  Z.of_nat (length (instances s)) <= PipelineMaxParallelism opt /\
  forall parallelism,
    let r := startPipeline opt GetInstance parallelism s in
    0 <= snd (fst r)
      <= PipelineMaxParallelism opt - Z.of_nat (length (instances s)) /\
    (0 <= parallelism -> snd (fst r) <= Z.max 1 parallelism) /\
    Z.of_nat (length (instances (snd r)))
      = Z.of_nat (length (instances s)) + snd (fst r) /\
    fst (fst r) = Z.of_nat (length (instances (snd r))) /\
    Z.of_nat (length (instances (snd r))) <= PipelineMaxParallelism opt.
Proof.
  intros R. pose proof (reachable_cap s R) as Hcap. split; [exact Hcap |].
  intros parallelism.
  pose proof (startPipeline_spec parallelism s Hcap) as H. cbv zeta in *.
  unfold size in H. tauto.
Qed.


(** C6. For an event of a trigger (a name that is not empty and a probe
    that is not nil): when less than 500ms have passed since the
    schedule time recorded for the source, the launcher skips the event
    and leaves the whole state as it is, without a call of
    [startPipeline]; otherwise it records [now] as the schedule time of
    the source, registers the probe under the name and goes on to call
    [startPipeline]. *)
Theorem launch_debounce now now' info (s : dynamicPipelineScheduler) g :
  getterName info <> EmptyString -> getter info = Some g ->
  let last := default Time.zero (sourceLastScheduleTimes s !! getterName info) in
  (now - last < SCHEDULER_DYNAMIC_SPAWN_MIN_INTERVAL_MS * 1000000 ->
   launchEvent opt GetInstance uint32_oor now now' info s = (s, None)) /\
  (SCHEDULER_DYNAMIC_SPAWN_MIN_INTERVAL_MS * 1000000 <= now - last ->
   exists s' request,
     launchEvent opt GetInstance uint32_oor now now' info s = (s', Some request) /\
     sourceLastScheduleTimes s'
       = <[getterName info := now]> (sourceLastScheduleTimes s) /\
     getters s' = <[getterName info := g]> (getters s)).
Proof.
  intros Hname Hg last.
  assert (Ht : fromTrigger info = Some g).
  { unfold fromTrigger. apply String.eqb_neq in Hname. rewrite Hname. exact Hg. }
  unfold launchEvent, debounce. rewrite Ht. fold last.
  rewrite ms_lt_Sub by (unfold SCHEDULER_DYNAMIC_SPAWN_MIN_INTERVAL_MS; lia).
  destruct (Z.ltb_spec (now - last)
              (SCHEDULER_DYNAMIC_SPAWN_MIN_INTERVAL_MS * 1000000)).
  - split; [reflexivity | lia].
  - split; [lia |]. intros _. eexists _, _. split; [reflexivity |].
    unfold grow; cbv zeta; simpl.
    match goal with |- context [if ?b then _ else _] => destruct b end;
      simpl; auto.
Qed.

(** C7. A tick of the shrinker that pops a worker at the time [now] has
    [now - launchTime >= 500ms]; when [now - launchTime < 500ms] the part
    under the write lock, and so the tick, leaves the whole state as it
    is: the worker set and [shrinkTime] are not modified. *)
Theorem shrink_waits_after_launch probe order now
    (s : dynamicPipelineScheduler) :
  (now - launchTime s < SCHEDULER_DYNAMIC_SHRINK_MIN_DELAY_MS * 1000000 ->
   shrinkLocked opt now s = Ok (s, None) /\
   shrinkTick opt probe order now s = Ok (s, None)) /\
  (forall s' h,
     shrinkLocked opt now s = Ok (s', Some h) \/
     shrinkTick opt probe order now s = Ok (s', Some h) ->
     SCHEDULER_DYNAMIC_SHRINK_MIN_DELAY_MS * 1000000 <= now - launchTime s).
Proof.
  assert (Hms : 0 <= SCHEDULER_DYNAMIC_SHRINK_MIN_DELAY_MS <= 1000000)
    by (unfold SCHEDULER_DYNAMIC_SHRINK_MIN_DELAY_MS; lia).
  assert (L : forall s' h, shrinkLocked opt now s = Ok (s', Some h) ->
            SCHEDULER_DYNAMIC_SHRINK_MIN_DELAY_MS * 1000000 <= now - launchTime s).
  { intros s' h. unfold shrinkLocked.
    destruct (_ <=? _); [discriminate |].
    rewrite ms_lt_Sub by exact Hms.
    destruct (Z.ltb_spec (now - launchTime s)
                (SCHEDULER_DYNAMIC_SHRINK_MIN_DELAY_MS * 1000000));
      [discriminate | intros _; assumption]. }
  assert (N : now - launchTime s < SCHEDULER_DYNAMIC_SHRINK_MIN_DELAY_MS * 1000000 ->
              shrinkLocked opt now s = Ok (s, None)).
  { intros Hlt. unfold shrinkLocked.
    destruct (_ <=? _); [reflexivity |].
    rewrite ms_lt_Sub by exact Hms.
    destruct (Z.ltb_spec (now - launchTime s)
                (SCHEDULER_DYNAMIC_SHRINK_MIN_DELAY_MS * 1000000));
      [reflexivity | lia]. }
  split.
  - intros Hlt. split; [exact (N Hlt) |].
    unfold shrinkTick. destruct (shrinkCheck _ _ _ _); [exact (N Hlt) | reflexivity].
  - intros s' h [H | H]; [exact (L _ _ H) |].
    unfold shrinkTick in H.
    destruct (shrinkCheck _ _ _ _); [exact (L _ _ H) | discriminate].
Qed.

(** C8 (amended). A tick of the shrinker pops at most one worker, the
    tail of the set, and only when under the write lock the count is
    strictly above [PipelineMinParallelism]; so a tick never takes the
    set below the floor: a set that has at least
    [PipelineMinParallelism] workers before the tick has as many after
    it, and a set that has fewer is left as it is. *)
Theorem shrink_keeps_floor probe order now (s : dynamicPipelineScheduler) :
  Z.of_nat (length (instances s)) <= PipelineMaxParallelism opt ->
  exists s' popped,
    shrinkTick opt probe order now s = Ok (s', popped) /\
    match popped with
    | None => s' = s
    | Some h =>
        instances s = instances s' ++ [h] /\
        PipelineMinParallelism opt < Z.of_nat (length (instances s))
    end /\
    (PipelineMinParallelism opt <= Z.of_nat (length (instances s)) ->
     PipelineMinParallelism opt <= Z.of_nat (length (instances s'))) /\
    (Z.of_nat (length (instances s)) < PipelineMinParallelism opt -> s' = s).
Proof.
  intros Hcap. pose proof opt_valid as (_ & _ & Hmax). unfold U32.In in Hmax.
  fold (size s) in *.
  destruct (shrinkTick_spec probe order now s ltac:(lia))
    as [E | (_ & h & s' & E & E')].
  - exists s, None. split; [exact E |]. split; [reflexivity |]. split; auto.
  - destruct (shrinkLocked_spec now s ltac:(lia))
      as [[E2 _] | (h2 & s2 & E2 & Hi & Hgt & _)];
      rewrite E2 in E'; inversion E'; subst.
    exists s', (Some h). split; [exact E |]. split; [split; assumption |].
    unfold size in *. rewrite Hi, length_app in *. simpl in *.
    split; intros; lia.
Qed.

(** C9. The launcher takes an event for a trigger exactly when its name
    is not empty and its probe is not nil.  Any other event is a sweep:
    it is never skipped by the debounce, registers nothing in [getters]
    and sets every entry of [sourceLastScheduleTimes] to [now].  Such an
    event is what the trigger hook queues when it is called with the
    empty name. *)
Theorem launch_sweep now now' info (s : dynamicPipelineScheduler) :
  (forall g, fromTrigger info = Some g <->
             getterName info <> EmptyString /\ getter info = Some g) /\
  (getterName info = EmptyString \/ getter info = None ->
   exists s' request,
     launchEvent opt GetInstance uint32_oor now now' info s = (s', Some request) /\
     getters s' = getters s /\
     sourceLastScheduleTimes s' = (fun _ => now) <$> sourceLastScheduleTimes s) /\
  (forall probe g,
     probe g <> 0 -> stopped s <> 1 ->
     closed (launchChan s) = false ->
     (length (buf (launchChan s)) < launchChanCap)%nat ->
     exists s' e,
       snd (trigger probe EmptyString (Some g) s) = Ok (tt, s') /\
       buf (launchChan s') = buf (launchChan s) ++ [e] /\
       getterName e = EmptyString /\ fromTrigger e = None).
Proof.
  split_and!.
  - intros g. unfold fromTrigger.
    destruct (String.eqb_spec (getterName info) EmptyString); simpl; split.
    + discriminate.
    + intros [H _]. congruence.
    + intros H. split; assumption.
    + intros [_ H]. exact H.
  - intros Hsweep.
    assert (Ht : fromTrigger info = None).
    { unfold fromTrigger. destruct Hsweep as [H | H].
      - rewrite H. reflexivity.
      - rewrite H. destruct (negb _); reflexivity. }
    unfold launchEvent, debounce. rewrite Ht.
    eexists _, _. split; [reflexivity |].
    unfold grow; cbv zeta; simpl.
    match goal with |- context [if ?b then _ else _] => destruct b end;
      simpl; auto.
  - intros probe g Hp Hs Hc Hl.
    unfold trigger, bindM, callGetter, loadStopped, trySend, ret, try_send.
    simpl. apply Z.eqb_neq in Hp, Hs. rewrite Hp. simpl. rewrite Hs. simpl.
    rewrite Hc. apply Nat.ltb_lt in Hl. rewrite Hl. simpl.
    eexists _, _. split; [reflexivity |]. simpl. auto.
Qed.

(** C10. A call of the trigger hook calls the probe exactly once, and as
    its first action, before it loads the [stopped] flag.  On a stopped
    scheduler the hook has called the probe once when it returns, and it
    has queued nothing; when the probe returns 0 it returns at once,
    without loading the flag and without queuing anything. *)
Theorem trigger_probes_once probe name g (s : dynamicPipelineScheduler) :
  let log := fst (trigger probe name (Some g) s) in
  List.filter isCall log = [ActCall g (probe g)] /\
  (exists rest, log = ActCall g (probe g) :: rest) /\
  (probe g = 0 ->
   trigger probe name (Some g) s = ([ActCall g 0], Ok (tt, s))) /\
  (probe g <> 0 -> stopped s = 1 ->
   trigger probe name (Some g) s
     = ([ActCall g (probe g); ActLoadStopped 1], Ok (tt, s))).
Proof.
  unfold trigger, bindM, callGetter, loadStopped, trySend, ret, try_send.
  cbv zeta. simpl.
  destruct (Z.eqb_spec (probe g) 0) as [E0 | E0]; simpl.
  { rewrite E0. split_and!; eauto; intros; congruence. }
  destruct (Z.eqb_spec (stopped s) 1) as [E1 | E1]; simpl.
  { rewrite E1. split_and!; eauto; intros; congruence. }
  destruct (closed (launchChan s)); simpl.
  { split_and!; eauto; intros; congruence. }
  destruct (length (buf (launchChan s)) <? launchChanCap)%nat; simpl;
    split_and!; eauto; intros; congruence.
Qed.

End SchedulerProofs.

(** ** Closed instances *)

Section Instances.

Import Scheduler.

Lemma scenarioOptions_valid : valid_options scenarioOptions.
Proof. unfold valid_options, U32.In. vm_compute. intuition discriminate. Qed.

(** C3. [Start] after [Stop] is not a no-op: on a scheduler that has
    been started and stopped, a second [Start] sets [started] back to 1,
    books the new context and starts the three control loops again; it
    adds no worker, and the spawner it has started panics when it
    returns, as [spawnDone] is closed already. *)
Theorem Start_after_Stop_restarts :
  exists s2,
    run scenarioOptions makes oorZero startStop newDynamicPipelineScheduler = Ok s2 /\
    started s2 = 0 /\ stopped s2 = 1 /\ loops s2 = [] /\ ctx s2 = Some 1%nat /\
    started (Start scenarioOptions makes 4 5 6 s2) = 1 /\
    ctx (Start scenarioOptions makes 4 5 6 s2) = Some 4%nat /\
    loops (Start scenarioOptions makes 4 5 6 s2) = [Launch; Spawn; Shrink] /\
    instances (Start scenarioOptions makes 4 5 6 s2) = instances s2 /\
    Start scenarioOptions makes 4 5 6 s2 <> s2 /\
    spawnReturn (Start scenarioOptions makes 4 5 6 s2) = Panic.
Proof.
  eexists. split; [vm_compute; reflexivity |].
  split_and!; try (vm_compute; reflexivity).
  intros H.
  apply (f_equal (fun s : dynamicPipelineScheduler => started s)) in H.
  vm_compute in H.
  discriminate H.
Qed.

Lemma startPipeline_never_exceeds_cap_witness :
  Z.of_nat (length (instances (Start scenarioOptions makes 1 2 3
                                 newDynamicPipelineScheduler)))
  <= PipelineMaxParallelism scenarioOptions.
Proof.
  apply (startPipeline_never_exceeds_cap scenarioOptions makes oorZero
           scenarioOptions_valid
           (Start scenarioOptions makes 1 2 3 newDynamicPipelineScheduler)).
  apply (reach_perform scenarioOptions makes oorZero (OpStart 1 2 3)
           newDynamicPipelineScheduler); [apply reach_new | reflexivity].
Defined.


Lemma launch_debounce_witness :
  launchEvent scenarioOptions makes oorZero 5 6 trigger3
    (set_sourceLastScheduleTimes {[ "a"%string := 4 ]} newDynamicPipelineScheduler)
  = (set_sourceLastScheduleTimes {[ "a"%string := 4 ]} newDynamicPipelineScheduler,
     None).
Proof.
  apply (launch_debounce scenarioOptions makes oorZero 5 6 trigger3
           (set_sourceLastScheduleTimes {[ "a"%string := 4 ]}
              newDynamicPipelineScheduler) 0%nat).
  - discriminate.
  - reflexivity.
  - vm_compute. reflexivity.
Defined.

Lemma shrink_waits_after_launch_witness :
  shrinkCheck scenarioOptions (fun _ => 0) ["a"%string] serving = true /\
  launchTime serving = 1000000000000000006 /\
  shrinkTick scenarioOptions (fun _ => 0) ["a"%string] 1000000000500000005 serving
  = Ok (serving, None) /\
  exists s' h,
    shrinkTick scenarioOptions (fun _ => 0) ["a"%string] 1000000000500000006 serving
    = Ok (s', Some h) /\
    SCHEDULER_DYNAMIC_SHRINK_MIN_DELAY_MS * 1000000
    <= 1000000000500000006 - launchTime serving.
Proof.
  split; [vm_compute; reflexivity |]. split; [vm_compute; reflexivity |]. split.
  - apply (shrink_waits_after_launch scenarioOptions (fun _ => 0) ["a"%string]
             1000000000500000005 serving).
    vm_compute. reflexivity.
  - assert (E : exists s' h,
               shrinkTick scenarioOptions (fun _ => 0) ["a"%string]
                 1000000000500000006 serving = Ok (s', Some h)).
    { eexists _, _. vm_compute. reflexivity. }
    destruct E as (s' & h & E). exists s', h. split; [exact E |].
    apply (proj2 (shrink_waits_after_launch scenarioOptions (fun _ => 0)
                    ["a"%string] 1000000000500000006 serving) s' h).
    right. exact E.
Defined.

Lemma shrink_keeps_floor_witness :
  exists s' popped,
    shrinkTick scenarioOptions (fun _ => 0) [] 5
      (Start scenarioOptions makes 1 2 3 newDynamicPipelineScheduler)
    = Ok (s', popped).
Proof.
  destruct (shrink_keeps_floor scenarioOptions scenarioOptions_valid
              (fun _ => 0) [] 5
              (Start scenarioOptions makes 1 2 3 newDynamicPipelineScheduler))
    as (s' & popped & H & _).
  - vm_compute. discriminate.
  - exists s', popped. exact H.
Defined.

(** C8, as stated, fails: when [GetInstance] fails at [Start] the set
    is empty, below the floor of one, and a tick of the shrinker leaves
    it so, on a scheduler that is started and not stopped. *)
Lemma shrink_floor_counterexample :
  reachable scenarioOptions fails oorZero
    (Start scenarioOptions fails 1 2 3 newDynamicPipelineScheduler) /\
  shrinkTick scenarioOptions (fun _ => 0) [] 5
    (Start scenarioOptions fails 1 2 3 newDynamicPipelineScheduler)
  = Ok (Start scenarioOptions fails 1 2 3 newDynamicPipelineScheduler, None) /\
  started (Start scenarioOptions fails 1 2 3 newDynamicPipelineScheduler) = 1 /\
  stopped (Start scenarioOptions fails 1 2 3 newDynamicPipelineScheduler) = 0 /\
  Z.of_nat (length (instances
    (Start scenarioOptions fails 1 2 3 newDynamicPipelineScheduler)))
  < PipelineMinParallelism scenarioOptions.
Proof.
  split_and!; try (vm_compute; reflexivity).
  apply (reach_perform scenarioOptions fails oorZero (OpStart 1 2 3)
           newDynamicPipelineScheduler); [apply reach_new | reflexivity].
Qed.

Lemma launch_sweep_witness :
  exists s' request,
    launchEvent scenarioOptions makes oorZero 5 6 unnamed
      newDynamicPipelineScheduler = (s', Some request) /\
    getters s' = getters newDynamicPipelineScheduler.
Proof.
  destruct (launch_sweep scenarioOptions makes oorZero 5 6 unnamed
              newDynamicPipelineScheduler) as (_ & H & _).
  destruct H as (s' & request & H1 & H2 & _).
  - left. reflexivity.
  - exists s', request. split; assumption.
Defined.

Lemma trigger_probes_once_witness :
  trigger (fun _ => 0) "a" (Some 0%nat) newDynamicPipelineScheduler
  = ([ActCall 0%nat 0], Ok (tt, newDynamicPipelineScheduler)).
Proof.
  apply (trigger_probes_once (fun _ => 0) "a" 0%nat newDynamicPipelineScheduler).
  reflexivity.
Defined.

End Instances.

(** * Further properties of the handle *)

Section HandleLifecycle.

Import Handle.

Lemma noLater_snoc a b tr x : forall seen,
  noLater a b seen (tr ++ [x]) =
  noLater a b seen tr
  && (if event_eqb x b then negb (seen || (0 <? occ a tr)%nat) else true).
Proof.
  induction tr as [| y tr IH]; intros seen; simpl.
  - destruct (event_eqb x b), seen; reflexivity.
  - rewrite IH. rewrite (event_eqb_sym a y).
    destruct (event_eqb y b), (event_eqb y a), (event_eqb x b), seen,
      (noLater a b true tr), (noLater a b false tr);
      simpl; try reflexivity; destruct (occ a tr); reflexivity.
Qed.

Lemma never_after_snoc a b tr x :
  never_after a b tr ->
  (event_eqb x b = true -> occ a tr = 0%nat) ->
  never_after a b (tr ++ [x]).
Proof.
  unfold never_after. intros H Hx. rewrite noLater_snoc, H. simpl.
  destruct (event_eqb x b); [| reflexivity].
  rewrite Hx by reflexivity. reflexivity.
Qed.

Lemma noLater_spec a b tr : forall seen,
  noLater a b seen tr = true <->
  (forall l1 l2, tr = l1 ++ b :: l2 -> seen = false /\ ~ In a l1).
Proof.
  induction tr as [| x tr IH]; intros seen; simpl.
  - split; [| reflexivity]. intros _ [| y l1] l2 H; discriminate H.
  - rewrite andb_true_iff, IH. split.
    + intros [Hx Htr] [| y l1] l2 H; simpl in H; inversion H; subst.
      * rewrite (proj2 (event_eqb_eq b b) eq_refl) in Hx.
        split; [destruct seen; [discriminate | reflexivity] | intros []].
      * destruct (Htr l1 l2 eq_refl) as [Hs Hin].
        apply orb_false_iff in Hs. destruct Hs as [Hs Hy].
        split; [exact Hs |]. intros [E | Hi]; [| exact (Hin Hi)].
        subst. rewrite (proj2 (event_eqb_eq a a) eq_refl) in Hy. discriminate.
    + intros H. split.
      * destruct (event_eqb x b) eqn:E; [| reflexivity].
        apply event_eqb_eq in E. subst x.
        destruct (H [] tr eq_refl) as [Hs _]. rewrite Hs. reflexivity.
      * intros l1 l2 E. subst tr.
        destruct (H (x :: l1) l2 eq_refl) as [Hs Hin]. split.
        -- rewrite Hs. simpl. destruct (event_eqb x a) eqn:E; [| reflexivity].
           apply event_eqb_eq in E. subst. exfalso. apply Hin. left. reflexivity.
        -- intros Hi. apply Hin. right. exact Hi.
Qed.

Lemma Calls_init p : Calls (init p).
Proof. constructor; simpl; try reflexivity; try lia. Qed.

Lemma Calls_step l s s' : Inv s -> Calls s -> step l s = Some s' -> Calls s'.
Proof.
  intros [] [] H. unfold step in H.
  destruct s as [h o r c tr pn]. destruct h as [p st sd dn].
  simpl in *. subst pn.
  destruct l; simpl in H;
    [ destruct o | destruct o | destruct o | destruct o
    | destruct c | destruct c | destruct c
    | destruct r | destruct r | destruct r | destruct r | destruct r ];
    try discriminate H; simpl in *; subst.
  all: repeat match goal with
       | H : context [if ?b then _ else _] |- _ => destruct b eqn:?; simpl in H
       end; try discriminate.
  all: inversion H; subst; clear H.
  all: constructor; simpl in *; rewrite ?app_nil_r, ?occ_snoc; simpl;
       rewrite ?Nat.add_0_r; try assumption; try reflexivity; try congruence; try lia.
  all: try (apply after_snoc; [assumption | simpl; intros; try discriminate]).
  all: try (apply never_after_snoc; [assumption | simpl; intros; try discriminate]).
  all: try (intros; try discriminate; auto; fail).
  all: try (intros Hx; specialize (calls_failed0 Hx); destruct r;
            simpl in *; discriminate).
  all: try (destruct c; simpl in *; try discriminate; lia).
  all: try (destruct scheduled; simpl in *; lia).
  all: try (destruct o; simpl in *; try discriminate; lia).
  all: try (destruct (occ (EvRunReturn true) tr) eqn:E; [reflexivity |];
            exfalso; assert (Hx : (0 < S n)%nat) by lia;
            specialize (calls_failed0 Hx); discriminate).
Qed.

Lemma reachable_Calls p s : reachable p s -> Calls s.
Proof.
  induction 1 as [| s l s' R IH H]; [apply Calls_init |].
  eapply Calls_step; eauto using reachable_Inv.
Qed.

Lemma never_after_spec a b tr :
  never_after a b tr <-> (forall l1 l2, tr = l1 ++ b :: l2 -> ~ In a l1).
Proof.
  unfold never_after. rewrite noLater_spec. split; intros H l1 l2 E.
  - apply (H l1 l2 E).
  - split; [reflexivity | eauto].
Qed.

(** X1. [Prepare] is invoked at most once on a handle, and before every
    call of [Run]; [Stop] is invoked at most once, and only after [stop]
    has been closed. *)
Theorem handle_prepare_first_stop_once (p : Pipeline) (s : state) :
  reachable p s ->
  (occ EvPrepare (trace s) <= 1)%nat /\
  after EvPrepare EvRunCall (trace s) /\
  (occ (EvStopCall true) (trace s) + occ (EvStopCall false) (trace s) <= 1)%nat /\
  after EvCloseStop (EvStopCall true) (trace s) /\
  after EvCloseStop (EvStopCall false) (trace s).
Proof.
  intros R. destruct (reachable_Calls _ _ R).
  split_and!; try assumption.
  - rewrite calls_prepare0. destruct (prepared (owner s)); simpl; lia.
  - rewrite calls_stop0. destruct (stop_called (stopper s)); simpl; lia.
Qed.

Lemma handle_prepare_first_stop_once_witness :
  after EvPrepare EvRunCall (trace (torn_down 7%nat)).
Proof.
  refine (proj1 (proj2 (handle_prepare_first_stop_once 7%nat (torn_down 7%nat) _))).
  apply (exec_reachable 7%nat teardown (init 7%nat)); [apply reach_init |].
  vm_compute. reflexivity.
Defined.

Lemma step_out_of_loop l s s' :
  Inv s -> out_of_loop (runner s) = true -> step l s = Some s' ->
  out_of_loop (runner s') = true /\
  occ EvRunCall (trace s') = occ EvRunCall (trace s).
Proof.
  intros [] Ho H. unfold step, close in H.
  destruct s as [h o r c tr pn]. destruct h as [p st sd dn]. simpl in *.
  subst pn.
  destruct l; simpl in H;
    [ destruct o | destruct o | destruct o | destruct o
    | destruct c | destruct c | destruct c
    | destruct r | destruct r | destruct r | destruct r | destruct r ];
    try discriminate H; simpl in *; try discriminate Ho.
  all: repeat match goal with
       | H : context [if ?b then _ else _] |- _ => destruct b eqn:?; simpl in H
       end; try discriminate.
  all: inversion H; subst; clear H; simpl;
       rewrite ?app_nil_r, ?occ_snoc; simpl; rewrite ?Nat.add_0_r;
       split; try reflexivity; try assumption.
  all: destruct r; simpl in *; discriminate.
Qed.

Lemma exec_out_of_loop ls : forall s s',
  Inv s -> out_of_loop (runner s) = true -> exec ls s = Some s' ->
  occ EvRunCall (trace s') = occ EvRunCall (trace s).
Proof.
  induction ls as [| l ls IH]; intros s s' I Ho H; simpl in H.
  - inversion H. reflexivity.
  - destruct (step l s) as [s1 |] eqn:E; [| discriminate].
    destruct (step_out_of_loop _ _ _ I Ho E) as [Ho1 Hc].
    rewrite (IH _ _ (Inv_step _ _ _ I E) Ho1 H). exact Hc.
Qed.

(** X2. A handle is not restarted: [Run] returns an error at most once,
    and after that return [Run] is never called again: no call of [Run]
    follows it in the trace, the runner has left its loop, and however
    the handle goes on the number of calls of [Run] stays as it is. *)
Theorem handle_no_restart (p : Pipeline) (s : state) :
  reachable p s ->
  (occ (EvRunReturn true) (trace s) <= 1)%nat /\
  never_after (EvRunReturn true) EvRunCall (trace s) /\
  ((0 < occ (EvRunReturn true) (trace s))%nat ->
   out_of_loop (runner s) = true /\
   forall ls s', exec ls s = Some s' ->
                 occ EvRunCall (trace s') = occ EvRunCall (trace s)).
Proof.
  intros R. destruct (reachable_Calls _ _ R).
  split_and!; try assumption.
  intros Hf. split; [auto |]. intros ls s' E.
  eapply exec_out_of_loop; eauto using reachable_Inv.
Qed.

Lemma handle_no_restart_witness :
  never_after (EvRunReturn true) EvRunCall (trace (parked 7%nat)).
Proof.
  refine (proj1 (proj2 (handle_no_restart 7%nat (parked 7%nat) _))).
  apply (exec_reachable 7%nat failing (init 7%nat)); [apply reach_init |].
  vm_compute. reflexivity.
Defined.

(** X3. Without [terminate] there is no teardown: while [stop] is open,
    [Stop] and [Close] have not been invoked and [stopped] and [done] are
    open; a runner whose [Run] has failed waits at [<-pi.stopped], and
    the only step the handle can take then is the [terminate] of its
    owner. *)
Theorem handle_parked_until_terminate (p : Pipeline) (s : state) :
  reachable p s -> stop (pi s) = false ->
  occ EvClose (trace s) = 0%nat /\
  occ (EvStopCall true) (trace s) = 0%nat /\
  occ (EvStopCall false) (trace s) = 0%nat /\
  stopped (pi s) = false /\ done (pi s) = false /\
  (runner s = RAwaitStopped ->
   forall l s', step l s = Some s' -> exists scheduled, l = LTerminate scheduled).
Proof.
  intros R Hs. pose proof (reachable_Inv _ _ R) as [].
  destruct (reachable_Calls _ _ R).
  destruct s as [h o r c tr pn]. destruct h as [q st sd dn].
  simpl in *. subst pn st.
  assert (Hc : c = SNotStarted).
  { destruct o; simpl in *; try discriminate; destruct c; simpl in *;
      try discriminate; reflexivity. }
  subst c. simpl in *. subst sd.
  assert (Hr : past_recv r = false).
  { destruct (past_recv r); [| reflexivity]. discriminate (inv_recv0 eq_refl). }
  split_and!; try reflexivity; try lia.
  - rewrite inv_occ_close0. destruct r; simpl in *; try reflexivity; discriminate.
  - subst dn. destruct r; simpl in *; try reflexivity; discriminate.
  - intros -> l s' H. unfold step in H. simpl in H.
    destruct o; simpl in *; try discriminate;
      destruct l; simpl in H; try discriminate; eauto.
Qed.

Lemma handle_parked_until_terminate_witness :
  occ EvClose (trace (parked 7%nat)) = 0%nat.
Proof.
  refine (proj1 (handle_parked_until_terminate 7%nat (parked 7%nat) _ _)).
  - apply (exec_reachable 7%nat failing (init 7%nat)); [apply reach_init |].
    vm_compute. reflexivity.
  - vm_compute. reflexivity.
Defined.

End HandleLifecycle.

(** * Further properties of the schedulers *)

Section SchedulerLifecycle.

Import Scheduler.

Context (opt : Options).
Context (GetInstance : nat -> option Pipeline).
Context (uint32_oor : option Z -> Z).
Hypothesis opt_valid : valid_options opt.

Lemma made_length n : forall k, (length (made GetInstance n k) <= n)%nat.
Proof.
  induction n as [| n IH]; intros k; simpl; [lia |].
  destruct (GetInstance k); simpl; [| lia]. specialize (IH (S k)). lia.
Qed.

Lemma made_all n : forall k,
  (forall i, GetInstance i <> None) -> length (made GetInstance n k) = n.
Proof.
  induction n as [| n IH]; intros k H; simpl; [reflexivity |].
  destruct (GetInstance k) eqn:E; [| destruct (H k E)].
  simpl. rewrite IH by exact H. reflexivity.
Qed.

Lemma startLoop_made n : forall idx cur s,
  instances (snd (startLoop GetInstance n idx cur s))
  = instances s ++ map newPipelineInstance (made GetInstance n (pipeline s)).
Proof.
  induction n as [| n IH]; intros idx cur s; cbn [startLoop made].
  - simpl. rewrite app_nil_r. reflexivity.
  - destruct (GetInstance (pipeline s)) as [p |]; simpl.
    + rewrite IH. simpl. rewrite <- app_assoc. reflexivity.
    + rewrite app_nil_r. reflexivity.
Qed.

Lemma startPipeline_made parallelism (s : commonPipelineScheduler) :
  size s <= PipelineMaxParallelism opt -> stopped s <> 1 ->
  let r := startPipeline opt GetInstance parallelism s in
  let new := made GetInstance (rounds opt parallelism s) (pipeline s) in
  instances (snd r) = instances s ++ map newPipelineInstance new /\
  snd (fst r) = Z.of_nat (length new) /\
  fst (fst r) = size s + Z.of_nat (length new) /\
  ((forall i, GetInstance i <> None) ->
   snd (fst r) = Z.of_nat (rounds opt parallelism s)).
Proof.
  intros Hcap Hst r new.
  pose proof opt_valid as (_ & _ & Hmax). unfold U32.In in Hmax.
  pose proof (startPipeline_spec opt GetInstance opt_valid parallelism s Hcap) as H.
  cbv zeta in H. fold r in H. destruct H as (_ & _ & H1 & H2 & _).
  assert (Hi : instances (snd r) = instances s ++ map newPipelineInstance new).
  { subst r new. unfold startPipeline, rounds.
    rewrite parallelismOf_size by lia.
    destruct (Z.eqb_spec (stopped s) 1) as [E | _]; [contradiction |]. simpl.
    destruct (Z.eqb_spec (size s) U32.max) as [E | E].
    - simpl.
      match goal with |- context [Z.to_nat ?x] =>
        replace (Z.to_nat x) with 0%nat by lia end.
      simpl. rewrite app_nil_r. reflexivity.
    - assert (0 <= size s) by (unfold size; lia).
      rewrite U32_sub_no_borrow by (unfold U32.In; lia).
      rewrite startLoop_made. do 3 f_equal.
      match goal with |- context [?a >? ?b] => destruct (Z.gtb_spec a b) end; lia. }
  assert (Hd : snd (fst r) = Z.of_nat (length new)).
  { assert (E : size (snd r) = size s + Z.of_nat (length new)).
    { unfold size. rewrite Hi, length_app, length_map. lia. }
    lia. }
  split_and!; try assumption; try lia.
  intros Hall. rewrite Hd. subst new. rewrite made_all by exact Hall. reflexivity.
Qed.

(** X4. Outside a stop, [startPipeline] runs as many rounds as the count
    asked for (1 for the count 0), clamped to the room under the cap; it
    appends the workers that [GetInstance] makes up to its first error,
    in the order they are made, and reports their number and the new
    length; when [GetInstance] never fails the number is the number of
    rounds. *)
Theorem startPipeline_partial_success parallelism (s : commonPipelineScheduler) :
  size s <= PipelineMaxParallelism opt -> stopped s <> 1 ->
  instances (snd (startPipeline opt GetInstance parallelism s))
  = instances s
    ++ map newPipelineInstance
         (made GetInstance (rounds opt parallelism s) (pipeline s)) /\
  snd (fst (startPipeline opt GetInstance parallelism s))
  = Z.of_nat (length (made GetInstance (rounds opt parallelism s) (pipeline s))) /\
  fst (fst (startPipeline opt GetInstance parallelism s))
  = size s
    + Z.of_nat (length (made GetInstance (rounds opt parallelism s) (pipeline s))) /\
  ((forall i, GetInstance i <> None) ->
   snd (fst (startPipeline opt GetInstance parallelism s))
   = Z.of_nat (rounds opt parallelism s)).
Proof. intros Hcap Hst. exact (startPipeline_made parallelism s Hcap Hst). Qed.

(** X5. [Start] on a scheduler that is neither started nor stopped books
    the context, sets [started], appends the workers that
    [PipelineInitParallelism] rounds make (one round when the option is
    0) and starts the launcher, the spawner and the shrinker. *)
Theorem Start_launches c st m (s : dynamicPipelineScheduler) :
  size s <= PipelineMaxParallelism opt -> started s = 0 -> stopped s <> 1 ->
  instances (Start opt GetInstance c st m s)
  = instances s
    ++ map newPipelineInstance
         (made GetInstance (rounds opt (PipelineInitParallelism opt) s) (pipeline s)) /\
  started (Start opt GetInstance c st m s) = 1 /\
  stopped (Start opt GetInstance c st m s) = stopped s /\
  ctx (Start opt GetInstance c st m s) = Some c /\
  statistics (Start opt GetInstance c st m s) = Some st /\
  mod_ (Start opt GetInstance c st m s) = Some m /\
  loops (Start opt GetInstance c st m s) = loops s ++ [Launch; Spawn; Shrink] /\
  (PipelineInitParallelism opt = 0 -> size s < PipelineMaxParallelism opt ->
   rounds opt (PipelineInitParallelism opt) s = 1%nat).
Proof.
  intros Hcap H0 Hst. unfold Start. rewrite H0. simpl.
  pose proof (startPipeline_made (PipelineInitParallelism opt) (set_started 1 s)
                Hcap Hst) as (Hi & _).
  pose proof (startPipeline_flags opt GetInstance (PipelineInitParallelism opt)
                (set_started 1 s)) as (F1 & F2 & _).
  simpl in *. split_and!; try assumption; try reflexivity.
  intros E Hroom. unfold rounds. rewrite E. simpl. lia.
Qed.

(** X6. [Start] of the static scheduler on a scheduler that is neither
    started nor stopped sets [started] and appends the workers that
    [Parallelism] rounds make; on the scheduler that
    [CreatePipelineScheduler] returns for a parallelism between 1 and
    the cap, and with a factory that never fails, the worker set has
    exactly [Parallelism] workers afterwards. *)
Theorem staticStart_launches Parallelism (s : commonPipelineScheduler) :
  size s <= PipelineMaxParallelism opt -> started s = 0 -> stopped s <> 1 ->
  instances (staticStart opt GetInstance Parallelism s)
  = instances s
    ++ map newPipelineInstance
         (made GetInstance (rounds opt (U32.wrap Parallelism) s) (pipeline s)) /\
  started (staticStart opt GetInstance Parallelism s) = 1 /\
  stopped (staticStart opt GetInstance Parallelism s) = stopped s /\
  (s = newCommonPipelineScheduler ->
   1 <= Parallelism <= PipelineMaxParallelism opt ->
   (forall i, GetInstance i <> None) ->
   CreatePipelineScheduler Parallelism = Static s /\
   size (staticStart opt GetInstance Parallelism s) = Parallelism).
Proof.
  intros Hcap H0 Hst. unfold staticStart. rewrite H0. simpl.
  pose proof opt_valid as (_ & _ & Hmax). unfold U32.In in Hmax.
  pose proof (startPipeline_made (U32.wrap Parallelism) (set_started 1 s)
                Hcap Hst) as (Hi & _ & _ & _).
  pose proof (startPipeline_flags opt GetInstance (U32.wrap Parallelism)
                (set_started 1 s)) as (F1 & F2 & _).
  simpl in *. split_and!; try assumption.
  intros -> Hp Hall. split.
  - unfold CreatePipelineScheduler.
    destruct (Z.eqb_spec Parallelism 0); [lia | reflexivity].
  - unfold size at 1. rewrite Hi. simpl. rewrite length_map, made_all by exact Hall.
    unfold rounds. rewrite U32_wrap_small by (unfold U32.In; lia).
    destruct (Z.eqb_spec Parallelism 0); [lia |]. unfold size. simpl. lia.
Qed.

(** X7. The lifecycle of the static scheduler: a second [Start] and a
    second [Stop] change nothing; [Stop] leaves the worker set and the
    record of stopped handles as they are; and a [Start] after a [Stop]
    that has taken effect sets [started] again but adds no worker. *)
Theorem static_lifecycle Parallelism Parallelism' (s : commonPipelineScheduler) :
  staticStart opt GetInstance Parallelism' (staticStart opt GetInstance Parallelism s)
  = staticStart opt GetInstance Parallelism s /\
  staticStop (staticStop s) = staticStop s /\
  instances (staticStop s) = instances s /\
  terminated (staticStop s) = terminated s /\
  (stopped s = 0 ->
   started (staticStop s) = 0 /\ stopped (staticStop s) = 1 /\
   staticStart opt GetInstance Parallelism (staticStop s)
   = set_started 1 (staticStop s)).
Proof.
  split_and!.
  - unfold staticStart at 2 3. destruct (Z.eqb_spec (started s) 0) as [E | E].
    + unfold staticStart.
      destruct (startPipeline_flags opt GetInstance (U32.wrap Parallelism)
                  (set_started 1 s)) as (F & _).
      simpl in F. rewrite F. reflexivity.
    + unfold staticStart. destruct (Z.eqb_spec (started s) 0); [contradiction | reflexivity].
  - unfold staticStop at 2 3. destruct (Z.eqb_spec (stopped s) 0) as [E | E].
    + reflexivity.
    + unfold staticStop. destruct (Z.eqb_spec (stopped s) 0); [contradiction | reflexivity].
  - unfold staticStop. destruct (stopped s =? 0); reflexivity.
  - unfold staticStop. destruct (stopped s =? 0); reflexivity.
  - intros E. unfold staticStop. rewrite E. simpl. split_and!; reflexivity.
Qed.

(** X8. The lifecycle of the dynamic scheduler: a second [Start] changes
    nothing, whatever its arguments, and a [Stop] after a [Stop] that
    has returned changes nothing. *)
Theorem dynamic_lifecycle_idempotent c st m c' st' m'
    (s : dynamicPipelineScheduler) :
  Start opt GetInstance c' st' m' (Start opt GetInstance c st m s)
  = Start opt GetInstance c st m s /\
  (forall s', Stop s = Ok s' -> Stop s' = Ok s').
Proof.
  split; [apply Start_twice | intros s'; apply Stop_twice].
Qed.

Lemma returned_none k l : runs k l = false -> returned k l = l.
Proof.
  induction l as [| x l IH]; simpl; [reflexivity |].
  destruct (loop_eqb k x); simpl; [discriminate |].
  intros H. rewrite IH by exact H. reflexivity.
Qed.

Lemma Stop_frame (s s' : dynamicPipelineScheduler) :
  stopped s = 0 -> Stop s = Ok s' ->
  stopped s' = 1 /\ started s' = 0 /\
  spawnStop s' = true /\ shrinkStop s' = true /\ spawnDone s' = true /\
  closed (launchChan s') = true /\
  loops s' = returned Spawn (loops s) /\
  instances s' = instances s /\ terminated s' = terminated s /\
  pipeline s' = pipeline s /\
  buf (launchChan s') = buf (launchChan s) /\
  getters s' = getters s /\
  sourceLastScheduleTimes s' = sourceLastScheduleTimes s /\
  launchTime s' = launchTime s /\ shrinkTime s' = shrinkTime s /\
  ctx s' = ctx s /\ statistics s' = statistics s /\ mod_ s' = mod_ s.
Proof.
  intros E. unfold Stop. rewrite E. simpl.
  unfold awaitSpawnDone, spawnReturn, close, close_chan, bind. simpl.
  destruct (spawnStop s), (shrinkStop s); try discriminate.
  destruct (runs Spawn (loops s)) eqn:R; simpl;
    destruct (spawnDone s); simpl; try discriminate;
    destruct (closed (launchChan s)); try discriminate.
  all: intros H; inversion H; subst; clear H; simpl.
  all: repeat (split; [reflexivity |]); try reflexivity.
  split; [| repeat (split; [reflexivity |]); reflexivity].
  rewrite returned_none by exact R. reflexivity.
Qed.

(** X9. A [Stop] that takes effect and returns stops the control loops
    only: it sets [stopped], resets [started], closes [spawnStop],
    [shrinkStop], [spawnDone] and [launchChan] and lets the spawner
    return; the worker set, the record of stopped handles, the events
    queued in [launchChan], the registry of probes, the ledger and the
    booked context stay as they are. *)
Theorem Stop_stops_loops_only (s s' : dynamicPipelineScheduler) :
  stopped s = 0 -> Stop s = Ok s' ->
  stopped s' = 1 /\ started s' = 0 /\
  spawnStop s' = true /\ shrinkStop s' = true /\ spawnDone s' = true /\
  closed (launchChan s') = true /\
  loops s' = returned Spawn (loops s) /\
  instances s' = instances s /\ terminated s' = terminated s /\
  pipeline s' = pipeline s /\
  buf (launchChan s') = buf (launchChan s) /\
  getters s' = getters s /\
  sourceLastScheduleTimes s' = sourceLastScheduleTimes s /\
  launchTime s' = launchTime s /\ shrinkTime s' = shrinkTime s /\
  ctx s' = ctx s /\ statistics s' = statistics s /\ mod_ s' = mod_ s.
Proof. apply Stop_frame. Qed.

Lemma Stop_parts (s : dynamicPipelineScheduler) :
  Stop s = bind (stopRequest s) (fun r =>
             match r with
             | Some s3 =>
                 bind (bind (if runs Spawn (loops s3) then spawnReturn s3 else Ok s3)
                         stopWait) stopFinish
             | None => Ok s
             end).
Proof.
  unfold Stop, stopRequest, awaitSpawnDone, stopWait, stopFinish, close, bind.
  destruct (stopped s =? 0); [| reflexivity]. simpl.
  destruct (spawnStop s); [reflexivity |].
  destruct (shrinkStop s); reflexivity.
Qed.

Lemma returned_started (l : list loop) :
  runs Spawn l = false ->
  returned Spawn (l ++ [Launch; Spawn; Shrink]) = l ++ [Launch; Shrink].
Proof.
  unfold runs. induction l as [| x l IH]; simpl; [reflexivity |].
  destruct x; simpl; intros H; try discriminate H;
    rewrite IH by exact H; reflexivity.
Qed.

(** X10. A [Stop] on a dynamic scheduler that has not been started
    (neither stopped nor started, the signals open, no spawner running)
    cannot return on its own: it sets [stopped], closes [spawnStop] and
    [shrinkStop] and then waits on [spawnDone] ([Stop] is its three
    parts in a row, with the return of a running spawner before the
    wait).  A later [Start] lets it
    return: it passes its CAS, adds no worker as [stopped] is set, and
    its spawner returns at once on the closed [spawnStop] and closes
    [spawnDone]; [Stop] then closes [launchChan] and resets [started],
    with the launcher and the shrinker of that [Start] still to
    return. *)
Theorem Stop_before_Start_blocks c st m (s : dynamicPipelineScheduler) :
  stopped s = 0 -> started s = 0 ->
  spawnStop s = false -> shrinkStop s = false -> spawnDone s = false ->
  closed (launchChan s) = false -> runs Spawn (loops s) = false ->
  Stop s = Blocked /\
  (forall u,
     Stop u = bind (stopRequest u) (fun r =>
                match r with
                | Some u1 =>
                    bind (bind (if runs Spawn (loops u1) then spawnReturn u1
                                else Ok u1) stopWait) stopFinish
                | None => Ok u
                end)) /\
  exists s1,
    stopRequest s = Ok (Some s1) /\
    stopped s1 = 1 /\ spawnStop s1 = true /\ shrinkStop s1 = true /\
    instances s1 = instances s /\ launchChan s1 = launchChan s /\
    stopWait s1 = Blocked /\
    started (Start opt GetInstance c st m s1) = 1 /\
    instances (Start opt GetInstance c st m s1) = instances s /\
    pipeline (Start opt GetInstance c st m s1) = pipeline s /\
    exists s2 s3,
      spawnReturn (Start opt GetInstance c st m s1) = Ok s2 /\
      stopWait s2 = Ok s2 /\
      stopFinish s2 = Ok s3 /\
      stopped s3 = 1 /\ started s3 = 0 /\ closed (launchChan s3) = true /\
      instances s3 = instances s /\
      loops s3 = loops s ++ [Launch; Shrink].
Proof.
  intros E0 E1 H1 H2 H3 H4 H5. split.
  { unfold Stop. rewrite E0. simpl.
    unfold awaitSpawnDone, close, bind. simpl. rewrite H1, H2, H5. simpl.
    rewrite H3. reflexivity. }
  split; [exact Stop_parts |].
  unfold stopRequest, close, bind. rewrite E0. simpl. rewrite H1, H2.
  eexists. split; [reflexivity |]. simpl.
  split_and!; try reflexivity.
  - unfold stopWait. simpl. rewrite H3. reflexivity.
  - unfold Start. simpl. rewrite E1. reflexivity.
  - unfold Start. simpl. rewrite E1. simpl.
    try rewrite startPipeline_stopped by reflexivity. reflexivity.
  - unfold Start. simpl. rewrite E1. simpl.
    try rewrite startPipeline_stopped by reflexivity. reflexivity.
  - unfold Start. simpl. rewrite E1. simpl.
    try rewrite startPipeline_stopped by reflexivity. simpl.
    unfold spawnReturn, close, bind. simpl. rewrite H3.
    eexists _, _. split; [reflexivity |].
    unfold stopWait, stopFinish, close_chan, bind. simpl. rewrite H4.
    split_and!; try reflexivity.
    apply returned_started. exact H5.
Qed.

Lemma stopAll_terminated (l : list (Z * pipelineInstance)) :
  forall s : commonPipelineScheduler,
  terminated (fold_left (fun acc (x : Z * pipelineInstance) =>
                           stopPipelineInstance (fst x) (snd x) false acc) l s)
  = terminated s ++ map (fun x => (fst x, snd x, false)) l.
Proof.
  induction l as [| x l IH]; intros s; simpl.
  - rewrite app_nil_r. reflexivity.
  - rewrite IH. simpl. rewrite <- app_assoc. reflexivity.
Qed.

Lemma stopAll_fields (l : list (Z * pipelineInstance)) :
  forall s : commonPipelineScheduler,
  let s' := fold_left (fun acc (x : Z * pipelineInstance) =>
                         stopPipelineInstance (fst x) (snd x) false acc) l s in
  pipeline s' = pipeline s /\ started s' = started s /\ stopped s' = stopped s.
Proof.
  induction l as [| x l IH]; intros s; simpl; [auto |].
  destruct (IH (stopPipelineInstance (fst x) (snd x) false s)) as (A & B & C).
  simpl in *. auto.
Qed.

Lemma imap_tag {A B C} (g : B * A -> C) (l : list A) : forall f : nat -> B,
  map g (imap (fun i x => (f i, x)) l) = imap (fun i x => g (f i, x)) l.
Proof.
  induction l as [| x l IH]; intros f; simpl; [reflexivity |].
  f_equal. apply (IH (f ∘ S)).
Qed.

(** X11. [StopPipeline] stops every handle of the set, in the order of
    the set, with its index and with [scheduled = false], and leaves the
    set empty; it does not touch the flags; called again it stops
    nothing and changes nothing. *)
Theorem StopPipeline_stops_all (s : commonPipelineScheduler) :
  instances (StopPipeline s) = [] /\
  terminated (StopPipeline s)
  = terminated s ++ imap (fun i h => (Z.of_nat i, h, false)) (instances s) /\
  started (StopPipeline s) = started s /\
  stopped (StopPipeline s) = stopped s /\
  pipeline (StopPipeline s) = pipeline s /\
  StopPipeline (StopPipeline s) = StopPipeline s.
Proof.
  unfold StopPipeline at 1 2 3 4 5. simpl.
  rewrite stopAll_terminated.
  match goal with |- context [fold_left ?f ?l s] =>
    destruct (stopAll_fields l s) as (A & B & C) end.
  cbv zeta in *. split_and!; try assumption; try reflexivity.
  rewrite (imap_tag (fun x : Z * pipelineInstance => (fst x, snd x, false))).
  reflexivity.
Qed.

(** *** What the operations keep *)

Lemma shrinkLocked_frame now (s s' : dynamicPipelineScheduler) r :
  shrinkLocked opt now s = Ok (s', r) ->
  (exists gone, instances s = instances s' ++ gone) /\
  stopped s' = stopped s /\ started s' = started s /\
  pipeline s' = pipeline s /\
  getters s' = getters s /\
  sourceLastScheduleTimes s' = sourceLastScheduleTimes s /\
  launchChan s' = launchChan s /\ loops s' = loops s.
Proof.
  unfold shrinkLocked.
  destruct (_ <=? _); [intros H; inversion H; subst; split_and!; try reflexivity;
                       exists []; rewrite app_nil_r; reflexivity |].
  destruct (Time.ms_lt _ _);
    [intros H; inversion H; subst; split_and!; try reflexivity;
     exists []; rewrite app_nil_r; reflexivity |].
  destruct (index _ _); [| discriminate].
  intros H; inversion H; subst; simpl. split_and!; try reflexivity.
  eexists. symmetry. apply take_drop.
Qed.

Lemma shrinkTick_frame probe order now (s s' : dynamicPipelineScheduler) r :
  shrinkTick opt probe order now s = Ok (s', r) ->
  (exists gone, instances s = instances s' ++ gone) /\
  stopped s' = stopped s /\ started s' = started s /\
  pipeline s' = pipeline s /\
  getters s' = getters s /\
  sourceLastScheduleTimes s' = sourceLastScheduleTimes s /\
  launchChan s' = launchChan s /\ loops s' = loops s.
Proof.
  unfold shrinkTick. destruct (shrinkCheck _ _ _ _); [apply shrinkLocked_frame |].
  intros H; inversion H; subst; split_and!; try reflexivity.
  exists []; rewrite app_nil_r; reflexivity.
Qed.

Lemma trigger_frame probe name g (s : dynamicPipelineScheduler) u s' :
  snd (trigger probe name g s) = Ok (u, s') ->
  common s' = common s /\ loops s' = loops s /\
  getters s' = getters s /\
  sourceLastScheduleTimes s' = sourceLastScheduleTimes s /\
  closed (launchChan s') = closed (launchChan s) /\
  (buf (launchChan s') = buf (launchChan s) \/
   (length (buf (launchChan s)) < launchChanCap)%nat /\
   exists e, buf (launchChan s') = buf (launchChan s) ++ [e]).
Proof.
  unfold trigger, bindM, callGetter, loadStopped, trySend, ret, try_send.
  destruct g as [g |]; simpl; [| discriminate].
  destruct (probe g =? 0); simpl.
  { intros H; inversion H; split_and!; auto. }
  destruct (stopped s =? 1); simpl.
  { intros H; inversion H; split_and!; auto. }
  destruct (closed (launchChan s)) eqn:Ec; simpl; [discriminate |].
  destruct (Nat.ltb_spec (length (buf (launchChan s))) launchChanCap)
    as [Hl | Hl]; simpl;
    intros H; inversion H; subst; simpl; split_and!; auto.
  right. split; [assumption | eauto].
Qed.

Lemma spawnTick_frame probe order (s s' : dynamicPipelineScheduler) :
  spawnTick opt probe order s = Ok s' ->
  common s' = common s /\ loops s' = loops s /\
  getters s' = getters s /\
  sourceLastScheduleTimes s' = sourceLastScheduleTimes s /\
  closed (launchChan s') = closed (launchChan s) /\
  (buf (launchChan s') = buf (launchChan s) \/
   (length (buf (launchChan s)) < launchChanCap)%nat /\
   exists e, buf (launchChan s') = buf (launchChan s) ++ [e]).
Proof.
  unfold spawnTick. destruct (_ =? _); [intros H; inversion H; split_and!; auto |].
  destruct (_ =? _); [intros H; inversion H; split_and!; auto |].
  unfold send. destruct (closed (launchChan s)) eqn:Ec; simpl; [discriminate |].
  destruct (Nat.ltb_spec (length (buf (launchChan s))) launchChanCap)
    as [Hl | Hl]; simpl; [| discriminate].
  intros H; inversion H; subst; simpl; split_and!; auto.
  right. split; [assumption | eauto].
Qed.

Lemma grow_frame now now' info (s : dynamicPipelineScheduler) :
  let r := grow opt GetInstance uint32_oor now now' info s in
  getters (fst r) = getters s /\
  sourceLastScheduleTimes (fst r) = sourceLastScheduleTimes s /\
  shrinkTime (fst r) = shrinkTime s /\
  launchChan (fst r) = launchChan s /\ loops (fst r) = loops s /\
  stopped (fst r) = stopped s /\ started (fst r) = started s /\
  (stopped s = 1 -> fst r = s).
Proof.
  unfold grow. cbv zeta.
  match goal with |- context [startPipeline opt GetInstance ?n ?c] =>
    pose proof (startPipeline_flags opt GetInstance n c) as (F1 & F2 & _);
    pose proof (startPipeline_stopped opt GetInstance n c) as Hs;
    destruct (startPipeline opt GetInstance n c) as [[cur delta] cs] eqn:E
  end.
  simpl in *.
  split_and!; try (destruct (delta >? 0); simpl; auto; fail).
  intros H1. specialize (Hs H1). inversion Hs; subst. simpl.
  destruct s; reflexivity.
Qed.

(** X12. [stopped] is final: once it is 1 no operation resets it, and
    an operation that begins then adds no worker and does not call
    [GetInstance] (the worker set can only lose workers from its tail).
    The flag is read once by a call of [startPipeline], before its
    loop, and the loop does not read it again: the loop of a call that
    has passed the check goes on appending the workers that
    [GetInstance] makes although [stopped] has become 1. *)
Theorem stopped_is_final o (s s' : dynamicPipelineScheduler) :
  stopped s = 1 -> perform opt GetInstance uint32_oor o s = Ok s' ->
  stopped s' = 1 /\
  (exists gone, instances s = instances s' ++ gone) /\
  pipeline s' = pipeline s /\
  (forall n idx currentParallelism,
     stopped (snd (startLoop GetInstance n idx currentParallelism s)) = 1 /\
     instances (snd (startLoop GetInstance n idx currentParallelism s))
     = instances s ++ map newPipelineInstance (made GetInstance n (pipeline s)) /\
     ((forall i, GetInstance i <> None) ->
      size (snd (startLoop GetInstance n idx currentParallelism s))
      = size s + Z.of_nat n)).
Proof.
  intros Hst H.
  assert (Loop : forall n idx currentParallelism,
     stopped (snd (startLoop GetInstance n idx currentParallelism s)) = 1 /\
     instances (snd (startLoop GetInstance n idx currentParallelism s))
     = instances s ++ map newPipelineInstance (made GetInstance n (pipeline s)) /\
     ((forall i, GetInstance i <> None) ->
      size (snd (startLoop GetInstance n idx currentParallelism s))
      = size s + Z.of_nat n)).
  { intros n idx cur.
    pose proof (startLoop_flags GetInstance n idx cur s) as F.
    cbv zeta in F. destruct F as (_ & F & _).
    pose proof (startLoop_made n idx cur s) as M.
    split_and!; [congruence | exact M |].
    intros Hall. unfold size. rewrite M, length_app, length_map.
    rewrite made_all by exact Hall. lia. }
  cut (stopped s' = 1 /\ (exists gone, instances s = instances s' ++ gone) /\
       pipeline s' = pipeline s).
  { intros (A & B & C). split_and!; assumption. }
  clear Loop. revert H.
  assert (Same : forall s1 : dynamicPipelineScheduler,
             common s1 = common s ->
             stopped s1 = 1 /\ (exists gone, instances s = instances s1 ++ gone) /\
             pipeline s1 = pipeline s).
  { intros s1 E. rewrite E. split_and!; auto. exists []. rewrite app_nil_r. reflexivity. }
  destruct o as [c st m | | | probe name g | now now' | probe order |
                 | probe order now | now | | parallelism]; simpl; unfold when.
  - intros H; inversion H; subst. unfold Start.
    destruct (started s =? 0); [| apply Same; reflexivity]. simpl.
    rewrite startPipeline_stopped by exact Hst. simpl.
    split_and!; auto. exists []. rewrite app_nil_r. reflexivity.
  - intros H. apply Stop_spec in H. destruct H as (_ & _ & _ & H).
    rewrite H by lia. apply Same; reflexivity.
  - intros H; inversion H; subst. simpl.
    match goal with |- context [fold_left ?f ?l ?c] =>
      destruct (stopAll_fields l c) as (A & B & C) end.
    cbv zeta in *. split_and!; try congruence. exists (instances s). reflexivity.
  - destruct (trigger probe name g s) as [log [[u s1] | |]] eqn:E;
      simpl; try discriminate.
    intros H; inversion H; subst.
    assert (E' : snd (trigger probe name g s) = Ok (u, s'))
      by (rewrite E; reflexivity).
    apply trigger_frame in E'. apply Same. tauto.
  - destruct (runs Launch (loops s)); [| discriminate].
    unfold launch, recv. destruct (buf (launchChan s)) as [| info rest]; simpl.
    + destruct (closed (launchChan s)); simpl; [| discriminate].
      intros H; inversion H; subst. apply Same; reflexivity.
    + unfold launchEvent.
      destruct (debounce _ _ _) as [s1 |] eqn:E; cbv zeta; cbn [fst snd].
      * destruct (debounce_common _ _ _ _ E) as (Hc & _). simpl in Hc.
        intros H.
        pose proof (grow_frame now now' info s1) as G. cbv zeta in G.
        destruct G as (_ & _ & _ & _ & _ & _ & _ & G).
        rewrite G in H by (rewrite Hc; exact Hst).
        injection H as H. subst s'. apply Same. exact Hc.
      * intros H; inversion H; subst. apply Same; reflexivity.
  - destruct (runs Spawn (loops s)); [| discriminate].
    intros H. apply spawnTick_frame in H. apply Same. tauto.
  - destruct (runs Spawn (loops s)); [| discriminate].
    unfold spawnReturn. destruct (spawnStop s); [| discriminate].
    destruct (spawnDone s); simpl; [discriminate |].
    intros H; inversion H; subst; apply Same; reflexivity.
  - destruct (runs Shrink (loops s)); [| discriminate].
    destruct (shrinkTick opt probe order now s) as [[s1 r] | |] eqn:E;
      simpl; try discriminate.
    intros H; inversion H; subst.
    apply shrinkTick_frame in E. destruct E as (A & B & _ & C & _).
    split_and!; try congruence; exact A.
  - destruct (runs Shrink (loops s)); [| discriminate].
    destruct (shrinkLocked opt now s) as [[s1 r] | |] eqn:E;
      simpl; try discriminate.
    intros H; inversion H; subst.
    apply shrinkLocked_frame in E. destruct E as (A & B & _ & C & _).
    split_and!; try congruence; exact A.
  - destruct (runs Shrink (loops s)); [| discriminate].
    unfold shrinkReturn. destruct (shrinkStop s); [| discriminate].
    intros H; inversion H; subst; apply Same; reflexivity.
  - intros H; inversion H; subst. simpl.
    rewrite startPipeline_stopped by exact Hst. simpl.
    split_and!; auto. exists []. rewrite app_nil_r. reflexivity.
Qed.

Lemma debounce_registry now info (s s1 : dynamicPipelineScheduler) :
  debounce now info s = Some s1 -> registry_step s s1.
Proof.
  unfold debounce, fromTrigger.
  destruct (String.eqb_spec (getterName info) EmptyString) as [En | En]; simpl.
  - intros H; inversion H; subst. right. right. exists now. simpl. auto.
  - destruct (getter info) as [g |].
    + destruct (Time.ms_lt _ _); [discriminate |].
      intros H; inversion H; subst. right. left.
      exists (getterName info), g, now. simpl. auto.
    + intros H; inversion H; subst. right. right. exists now. simpl. auto.
Qed.

Lemma perform_effect o (s s' : dynamicPipelineScheduler) :
  perform opt GetInstance uint32_oor o s = Ok s' ->
  registry_step s s' /\ chan_step s s'.
Proof.
  assert (Same : forall s1 : dynamicPipelineScheduler,
             getters s1 = getters s ->
             sourceLastScheduleTimes s1 = sourceLastScheduleTimes s ->
             launchChan s1 = launchChan s -> stopped s1 = stopped s ->
             registry_step s s1 /\ chan_step s s1).
  { intros s1 A B C D. split; [left; auto |].
    unfold chan_step. rewrite C, D. auto. }
  destruct o as [c st m | | | probe name g | now now' | probe order |
                 | probe order now | now | | parallelism]; simpl; unfold when.
  - intros H; inversion H; subst. unfold Start.
    destruct (started s =? 0); [| apply Same; reflexivity].
    apply Same; try reflexivity. simpl.
    apply (startPipeline_flags opt GetInstance (PipelineInitParallelism opt)
             (set_started 1 s)).
  - intros H. destruct (Z.eq_dec (stopped s) 0) as [E | E].
    + destruct (Stop_frame _ _ E H)
        as (A1 & _ & _ & _ & _ & A2 & _ & _ & _ & _ & A3 & A4 & A5 & _).
      split; [left; auto |]. unfold chan_step. rewrite A3. auto.
    + apply Stop_spec in H. destruct H as (_ & _ & _ & H).
      rewrite H by exact E. apply Same; reflexivity.
  - intros H; inversion H; subst. apply Same; try reflexivity. simpl.
    match goal with |- context [fold_left ?f ?l ?c] =>
      destruct (stopAll_fields l c) as (A & B & C) end.
    exact C.
  - destruct (trigger probe name g s) as [log [[u s1] | |]] eqn:E;
      simpl; try discriminate.
    intros H; inversion H; subst.
    assert (E' : snd (trigger probe name g s) = Ok (u, s'))
      by (rewrite E; reflexivity).
    apply trigger_frame in E'. destruct E' as (A & _ & B & C & D & F).
    split; [left; auto |]. unfold chan_step. rewrite A, D.
    split_and!; auto. destruct F as [F | F]; auto.
  - destruct (runs Launch (loops s)); [| discriminate].
    unfold launch, recv. destruct (buf (launchChan s)) as [| info rest] eqn:Eb; simpl.
    + destruct (closed (launchChan s)) eqn:Ec; simpl; [| discriminate].
      intros H; inversion H; subst. split; [left; auto |].
      unfold chan_step. simpl. rewrite Eb. auto.
    + unfold launchEvent.
      destruct (debounce _ _ _) as [s1 |] eqn:E; cbv zeta; cbn [fst snd].
      * destruct (debounce_common _ _ _ _ E) as (Hc & _ & _ & _ & Hl).
        pose proof (debounce_registry _ _ _ _ E) as R.
        pose proof (grow_frame now now' info s1) as G. cbv zeta in G.
        destruct G as (G1 & G2 & _ & G3 & _ & G4 & _).
        intros H.
        assert (H' : fst (grow opt GetInstance uint32_oor now now' info s1) = s')
          by congruence.
        clear H. subst s'. split.
        -- unfold registry_step in *. rewrite G1, G2. exact R.
        -- unfold chan_step. rewrite G3, G4, Hl. simpl.
           simpl in Hc. rewrite Hc. rewrite Eb. split_and!; auto.
           right. right. exists info. reflexivity.
      * intros H; inversion H; subst. split; [left; auto |].
        unfold chan_step. simpl. rewrite Eb. split_and!; auto.
        right. right. exists info. reflexivity.
  - destruct (runs Spawn (loops s)); [| discriminate].
    intros H. apply spawnTick_frame in H. destruct H as (A & _ & B & C & D & F).
    split; [left; auto |]. unfold chan_step. rewrite A, D.
    split_and!; auto. destruct F as [F | F]; auto.
  - destruct (runs Spawn (loops s)); [| discriminate].
    unfold spawnReturn. destruct (spawnStop s); [| discriminate].
    destruct (spawnDone s); simpl; [discriminate |].
    intros H; inversion H; subst; apply Same; reflexivity.
  - destruct (runs Shrink (loops s)); [| discriminate].
    destruct (shrinkTick opt probe order now s) as [[s1 r] | |] eqn:E;
      simpl; try discriminate.
    intros H; inversion H; subst.
    apply shrinkTick_frame in E. apply Same; tauto.
  - destruct (runs Shrink (loops s)); [| discriminate].
    destruct (shrinkLocked opt now s) as [[s1 r] | |] eqn:E;
      simpl; try discriminate.
    intros H; inversion H; subst.
    apply shrinkLocked_frame in E. apply Same; tauto.
  - destruct (runs Shrink (loops s)); [| discriminate].
    unfold shrinkReturn. destruct (shrinkStop s); [| discriminate].
    intros H; inversion H; subst; apply Same; reflexivity.
  - intros H; inversion H; subst. apply Same; try reflexivity. simpl.
    apply (startPipeline_flags opt GetInstance parallelism s).
Qed.

(** *** Invariants of the reachable states *)

Lemma reachable_chan (s : dynamicPipelineScheduler) :
  reachable opt GetInstance uint32_oor s ->
  (length (buf (launchChan s)) <= launchChanCap)%nat /\
  (closed (launchChan s) = true -> stopped s = 1).
Proof.
  induction 1 as [| o s s' _ [IH1 IH2] H].
  - simpl. split; [unfold launchChanCap; lia | discriminate].
  - destruct (perform_effect _ _ _ H) as (_ & C1 & C2 & C3). split.
    + destruct C2 as [-> | [(Hl & e & ->) | (e & E)]].
      * exact IH1.
      * rewrite length_app. simpl. lia.
      * rewrite E in IH1. simpl in IH1. lia.
    + intros Hc. destruct C1 as [E | [E _]]; [| exact E].
      rewrite E in Hc. specialize (IH2 Hc).
      destruct C3 as [E3 | E3]; congruence.
Qed.

Lemma trigger_parts probe name g (s : dynamicPipelineScheduler) :
  trigger probe name g s
  = (let* event := triggerCheck probe name g in triggerSend event) s.
Proof.
  unfold trigger, triggerCheck, triggerSend, bindM, callGetter, loadStopped,
    trySend, ret.
  destruct g as [g |]; [| reflexivity]. simpl.
  destruct (probe g =? 0); [reflexivity |]. simpl.
  destruct (stopped s =? 1); [reflexivity |]. simpl.
  destruct (try_send launchChanCap (launchChan s) _) as [[c queued] | |];
    reflexivity.
Qed.

(** X13. In every state the scheduler reaches, [launchChan] holds at
    most 128 events and is closed only when [stopped] is set.  So a call
    of the trigger hook with a probe that is not nil, with no other
    goroutine between its load of [stopped] and its send, returns: it
    neither blocks nor panics, it queues at most one event, at the
    tail, and it changes nothing else.  The send itself never blocks,
    but it panics on a closed [launchChan]: the load and the send are
    two statements under no lock, and when a [Stop] runs to its end
    between them, the hook, which has read [stopped = 0], panics. *)
Theorem trigger_send_races_with_Stop probe name g (s : dynamicPipelineScheduler) :
  reachable opt GetInstance uint32_oor s ->
  (length (buf (launchChan s)) <= launchChanCap)%nat /\
  (closed (launchChan s) = true -> stopped s = 1) /\
  (exists s',
     snd (trigger probe name (Some g) s) = Ok (tt, s') /\
     set_launchChan (launchChan s) s' = s /\
     closed (launchChan s') = closed (launchChan s) /\
     (buf (launchChan s') = buf (launchChan s) \/
      exists e, buf (launchChan s') = buf (launchChan s) ++ [e])) /\
  (forall u, trigger probe name (Some g) u
             = (let* event := triggerCheck probe name (Some g) in
                triggerSend event) u) /\
  (forall e (u : dynamicPipelineScheduler),
     closed (launchChan u) = false ->
     exists u', snd (triggerSend (Some e) u) = Ok (tt, u') /\
                common u' = common u /\
                (buf (launchChan u') = buf (launchChan u) \/
                 buf (launchChan u') = buf (launchChan u) ++ [e])) /\
  (forall e (u : dynamicPipelineScheduler),
     closed (launchChan u) = true -> snd (triggerSend (Some e) u) = Panic) /\
  (probe g <> 0 -> stopped s = 0 ->
   forall s', Stop s = Ok s' ->
     snd (triggerCheck probe name (Some g) s)
     = Ok (Some {| getterName := name; getter := Some g;
                   queueLength := probe g |}, s) /\
     snd (triggerSend (Some {| getterName := name; getter := Some g;
                               queueLength := probe g |}) s') = Panic).
Proof.
  intros R. destruct (reachable_chan s R) as [H1 H2].
  assert (Closed : forall e (u : dynamicPipelineScheduler),
            closed (launchChan u) = true ->
            snd (triggerSend (Some e) u) = Panic).
  { intros e u Hc. unfold triggerSend, bindM, trySend, try_send.
    rewrite Hc. reflexivity. }
  split; [exact H1 |]. split; [exact H2 |]. split_and!.
  - unfold trigger, bindM, callGetter, loadStopped, trySend, ret, try_send. simpl.
    destruct (probe g =? 0); simpl.
    { exists s. split_and!; auto. destruct s; reflexivity. }
    destruct (Z.eqb_spec (stopped s) 1) as [E | E]; simpl.
    { exists s. split_and!; auto. destruct s; reflexivity. }
    destruct (closed (launchChan s)) eqn:Ec; [destruct (E (H2 eq_refl)) |].
    destruct (length (buf (launchChan s)) <? launchChanCap)%nat; simpl.
    + eexists. split; [reflexivity |]. simpl. split_and!; eauto.
      destruct s; reflexivity.
    + exists s. destruct s; simpl in *. split_and!; auto.
  - intros u. apply trigger_parts.
  - intros e u Hc. unfold triggerSend, bindM, trySend, try_send, ret.
    rewrite Hc.
    destruct (length (buf (launchChan u)) <? launchChanCap)%nat; simpl;
      eexists; (split; [reflexivity |]); simpl; auto.
  - exact Closed.
  - intros Hp E0 s' HS. split.
    + unfold triggerCheck, bindM, callGetter, loadStopped, ret. simpl.
      apply Z.eqb_neq in Hp. rewrite Hp. simpl. rewrite E0. reflexivity.
    + apply Closed.
      destruct (Stop_frame _ _ E0 HS) as (_ & _ & _ & _ & _ & Hc & _).
      exact Hc.
Qed.

Lemma registry_step_dom (s s' : dynamicPipelineScheduler) :
  registry_step s s' ->
  dom (getters s) ⊆ dom (getters s') /\
  ((dom (getters s) =@{gset string} dom (sourceLastScheduleTimes s)) ->
   (dom (getters s') =@{gset string} dom (sourceLastScheduleTimes s'))) /\
  (EmptyString ∉ dom (getters s) -> EmptyString ∉ dom (getters s')).
Proof.
  intros [[A B] | [(name & g & now & Hn & A & B) | (now & A & B)]];
    rewrite A, B.
  - auto.
  - rewrite !dom_insert_L. split_and!; [set_solver | set_solver |].
    intros H. set_solver.
  - rewrite dom_fmap_L. auto.
Qed.

(** X14. The registry of probes only grows, and it has the keys of the
    ledger: no operation removes a name from [getters]; and in every
    state the scheduler reaches [getters] and [sourceLastScheduleTimes]
    have the same names, none of them empty. *)
Theorem registry_grows_with_ledger (s : dynamicPipelineScheduler) :
  reachable opt GetInstance uint32_oor s ->
  (dom (getters s) =@{gset string} dom (sourceLastScheduleTimes s)) /\
  (EmptyString ∉ dom (getters s)) /\
  forall o s', perform opt GetInstance uint32_oor o s = Ok s' ->
               dom (getters s) ⊆ dom (getters s').
Proof.
  intros R. split_and!.
  - induction R as [| o s s' _ IH H]; [simpl; rewrite !dom_empty_L; reflexivity |].
    destruct (perform_effect _ _ _ H) as (Hr & _).
    apply (registry_step_dom _ _ Hr). exact IH.
  - induction R as [| o s s' _ IH H]; [simpl; rewrite dom_empty_L; set_solver |].
    destruct (perform_effect _ _ _ H) as (Hr & _).
    apply (registry_step_dom _ _ Hr). exact IH.
  - intros o s' H. destruct (perform_effect _ _ _ H) as (Hr & _).
    apply (registry_step_dom _ _ Hr).
Qed.

(** X15. A handle is stopped as it leaves the worker set: in every
    state the scheduler reaches, the handles that an operation hands to
    [stopPipelineInstance] are handles of the set that the operation
    takes out of it, in the order of the set; an operation that adds
    handles stops none. *)
Theorem stopped_handles_leave_set o (s s' : dynamicPipelineScheduler) :
  reachable opt GetInstance uint32_oor s ->
  perform opt GetInstance uint32_oor o s = Ok s' ->
  exists kept gone new,
    instances s = kept ++ gone /\ instances s' = kept ++ new /\
    handlesOf (terminated s') = handlesOf (terminated s) ++ gone /\
    (gone = [] \/ new = []).
Proof.
  intros R H.
  exact (perform_terminated opt GetInstance uint32_oor opt_valid o s s'
           (reachable_cap opt GetInstance uint32_oor opt_valid s R) H).
Qed.

(** *** The launcher between the other loops *)

Lemma launchEvent_accepts now now' info (s s1 : dynamicPipelineScheduler) r :
  launchEvent opt GetInstance uint32_oor now now' info s = (s1, Some r) ->
  exists s0,
    debounce now info s = Some s0 /\
    s1 = fst (grow opt GetInstance uint32_oor now now' info s0) /\
    r = snd (grow opt GetInstance uint32_oor now now' info s0).
Proof.
  unfold launchEvent. destruct (debounce now info s) as [s0 |]; [| discriminate].
  cbv zeta. intros H. exists s0. split; [reflexivity |]. split; congruence.
Qed.

Lemma launchEvent_skips now now' info (s s1 : dynamicPipelineScheduler) :
  launchEvent opt GetInstance uint32_oor now now' info s = (s1, None) -> s1 = s.
Proof.
  unfold launchEvent. destruct (debounce now info s) as [s0 |].
  - cbv zeta. discriminate.
  - congruence.
Qed.

Lemma fromTrigger_Some info g :
  getterName info <> EmptyString -> getter info = Some g ->
  fromTrigger info = Some g.
Proof.
  intros Hn Hg. unfold fromTrigger. apply String.eqb_neq in Hn.
  rewrite Hn. exact Hg.
Qed.

(** X16. Two triggers of one source, handled one after the other with
    nothing in between: when the first is accepted at the time [now1],
    the second, at the time [now2], is skipped if
    [now2 - now1 < 500ms], leaving the state as it is, and is accepted
    otherwise. *)
Theorem debounce_spacing now1 now1' now2 now2' info info2 g g2
    (s s1 : dynamicPipelineScheduler) r :
  getterName info <> EmptyString -> getter info = Some g ->
  getterName info2 = getterName info -> getter info2 = Some g2 ->
  launchEvent opt GetInstance uint32_oor now1 now1' info s = (s1, Some r) ->
  (now2 - now1 < SCHEDULER_DYNAMIC_SPAWN_MIN_INTERVAL_MS * 1000000 ->
   launchEvent opt GetInstance uint32_oor now2 now2' info2 s1 = (s1, None)) /\
  (SCHEDULER_DYNAMIC_SPAWN_MIN_INTERVAL_MS * 1000000 <= now2 - now1 ->
   exists s2 r2,
     launchEvent opt GetInstance uint32_oor now2 now2' info2 s1 = (s2, Some r2)).
Proof.
  intros Hn Hg Hn2 Hg2 H.
  destruct (launchEvent_accepts _ _ _ _ _ _ H) as (s0 & Hd & -> & _).
  pose proof (grow_frame now1 now1' info s0) as G. cbv zeta in G.
  destruct G as (_ & G & _).
  assert (Hl : sourceLastScheduleTimes s0 !! getterName info = Some now1).
  { unfold debounce in Hd. rewrite (fromTrigger_Some _ _ Hn Hg) in Hd.
    destruct (Time.ms_lt _ _); [discriminate |].
    inversion Hd; subst. simpl. apply lookup_insert_eq. }
  assert (Ht : fromTrigger info2 = Some g2).
  { apply fromTrigger_Some; [rewrite Hn2; exact Hn | exact Hg2]. }
  unfold launchEvent at 1 2, debounce. rewrite Ht, Hn2, G, Hl. simpl.
  rewrite ms_lt_Sub by (unfold SCHEDULER_DYNAMIC_SPAWN_MIN_INTERVAL_MS; lia).
  destruct (Z.ltb_spec (now2 - now1)
              (SCHEDULER_DYNAMIC_SPAWN_MIN_INTERVAL_MS * 1000000)).
  - split; [reflexivity | lia].
  - split; [lia |]. intros _. eexists _, _. reflexivity.
Qed.

(** X17. A sweep restarts the windows of all sources together: after a
    sweep handled at the time [now1], a trigger of any source that has
    an entry in the ledger is skipped while [now2 - now1 < 500ms]. *)
Theorem sweep_restarts_windows now1 now1' now2 now2' info info2 g2
    (s s1 : dynamicPipelineScheduler) r :
  fromTrigger info = None ->
  launchEvent opt GetInstance uint32_oor now1 now1' info s = (s1, r) ->
  fromTrigger info2 = Some g2 ->
  getterName info2 ∈ dom (sourceLastScheduleTimes s) ->
  now2 - now1 < SCHEDULER_DYNAMIC_SPAWN_MIN_INTERVAL_MS * 1000000 ->
  launchEvent opt GetInstance uint32_oor now2 now2' info2 s1 = (s1, None).
Proof.
  intros Hs H Ht Hin Hlt.
  assert (Hl : sourceLastScheduleTimes s1 !! getterName info2 = Some now1).
  { assert (E : s1 = fst (grow opt GetInstance uint32_oor now1 now1' info
                            (set_sourceLastScheduleTimes
                               ((fun _ => now1) <$> sourceLastScheduleTimes s) s))).
    { unfold launchEvent, debounce in H. rewrite Hs in H. cbv zeta in H.
      congruence. }
    subst s1.
    match goal with |- context [grow opt GetInstance uint32_oor ?a ?b ?c ?d] =>
      pose proof (grow_frame a b c d) as G end.
    cbv zeta in G. destruct G as (_ & G & _). rewrite G. simpl.
    rewrite lookup_fmap. apply elem_of_dom in Hin. destruct Hin as [v ->].
    reflexivity. }
  unfold launchEvent, debounce. rewrite Ht, Hl. simpl.
  rewrite ms_lt_Sub by (unfold SCHEDULER_DYNAMIC_SPAWN_MIN_INTERVAL_MS; lia).
  destruct (Z.ltb_spec (now2 - now1)
              (SCHEDULER_DYNAMIC_SPAWN_MIN_INTERVAL_MS * 1000000)); [reflexivity | lia].
Qed.

Lemma launchRequest_bounds recent q :
  0 <= q ->
  0 <= launchRequest uint32_oor recent q <= SCHEDULER_DYNAMIC_SPAWN_MAX_IN_EACH.
Proof.
  intros Hq. unfold launchRequest, SCHEDULER_DYNAMIC_SPAWN_MAX_IN_EACH.
  pose proof (fastScale_ge uint32_oor q).
  destruct recent;
    match goal with |- context [?a >? 500] => destruct (Z.gtb_spec a 500) end; lia.
Qed.

Lemma grow_growth now now' info (s : dynamicPipelineScheduler) :
  size s <= PipelineMaxParallelism opt -> 0 <= queueLength info ->
  let r := grow opt GetInstance uint32_oor now now' info s in
  size s <= size (fst r) <= size s + SCHEDULER_DYNAMIC_SPAWN_MAX_IN_EACH /\
  size (fst r) <= PipelineMaxParallelism opt /\
  (exists new, instances (fst r) = instances s ++ new) /\
  launchTime (fst r) = (if size s <? size (fst r) then now' else launchTime s).
Proof.
  intros Hcap Hq. unfold grow. cbv zeta.
  set (request := launchRequest uint32_oor _ (queueLength info)).
  pose proof (launchRequest_bounds
                (Time.ms_lt (Time.Sub now (shrinkTime s))
                   SCHEDULER_DYNAMIC_FAST_SCALE_INTERVAL_MS) _ Hq) as Hr.
  fold request in Hr.
  pose proof (startPipeline_spec opt GetInstance opt_valid request s Hcap) as H.
  cbv zeta in H.
  destruct (startPipeline opt GetInstance request s) as [[cur delta] cs].
  simpl in *. destruct H as (H1 & H2 & _ & H3 & H4 & H5 & _).
  specialize (H2 ltac:(lia)).
  unfold SCHEDULER_DYNAMIC_SPAWN_MAX_IN_EACH in *.
  destruct (Z.gtb_spec delta 0); simpl;
    (split; [lia |]); (split; [lia |]); (split; [exact H5 |]);
    match goal with |- context [?a <? ?b] => destruct (Z.ltb_spec a b) end;
    try reflexivity; lia.
Qed.

(** X18. A round of the launcher adds at most 500 workers, at the tail
    of the set, and takes none away; it sets [launchTime] to the time of
    its second reading of the clock exactly when it has added a worker,
    and leaves [launchTime] as it is otherwise; it never changes
    [shrinkTime]. *)
Theorem launch_round_growth now now' info (s s' : dynamicPipelineScheduler) r :
  size s <= PipelineMaxParallelism opt -> 0 <= queueLength info ->
  launchEvent opt GetInstance uint32_oor now now' info s = (s', r) ->
  size s <= size s' <= size s + SCHEDULER_DYNAMIC_SPAWN_MAX_IN_EACH /\
  (exists new, instances s' = instances s ++ new) /\
  launchTime s' = (if size s <? size s' then now' else launchTime s) /\
  shrinkTime s' = shrinkTime s.
Proof.
  intros Hcap Hq H. destruct r as [r |].
  - destruct (launchEvent_accepts _ _ _ _ _ _ H) as (s0 & Hd & -> & _).
    destruct (debounce_common _ _ _ _ Hd) as (Hc & Hst & Hlt & _).
    assert (Hcap0 : size s0 <= PipelineMaxParallelism opt)
      by (rewrite Hc; exact Hcap).
    pose proof (grow_growth now now' info s0 Hcap0 Hq) as G. cbv zeta in G.
    pose proof (grow_frame now now' info s0) as F. cbv zeta in F.
    destruct F as (_ & _ & F & _).
    rewrite Hc, Hlt in G. rewrite F, Hst. tauto.
  - apply launchEvent_skips in H. subst s'.
    rewrite Z.ltb_irrefl. unfold SCHEDULER_DYNAMIC_SPAWN_MAX_IN_EACH.
    split_and!; try reflexivity; try lia.
    exists []. rewrite app_nil_r. reflexivity.
Qed.

Lemma shrinkTick_cooldown probe order t (s : dynamicPipelineScheduler) :
  t - launchTime s < SCHEDULER_DYNAMIC_SHRINK_MIN_DELAY_MS * 1000000 ->
  shrinkTick opt probe order t s = Ok (s, None).
Proof.
  intros Hlt. unfold shrinkTick, shrinkLocked.
  destruct (shrinkCheck _ _ _ _); [| reflexivity].
  destruct (_ <=? _); [reflexivity |].
  rewrite ms_lt_Sub by (unfold SCHEDULER_DYNAMIC_SHRINK_MIN_DELAY_MS; lia).
  destruct (Z.ltb_spec (t - launchTime s)
              (SCHEDULER_DYNAMIC_SHRINK_MIN_DELAY_MS * 1000000));
    [reflexivity | lia].
Qed.

Lemma grow_parts now now' info (s : dynamicPipelineScheduler) :
  grow opt GetInstance uint32_oor now now' info s
  = (growStamp now' (snd (growAppend opt GetInstance uint32_oor now info s))
       (fst (fst (growAppend opt GetInstance uint32_oor now info s))),
     snd (fst (growAppend opt GetInstance uint32_oor now info s))).
Proof. reflexivity. Qed.

(** X19. The cooldown of the shrinker starts when the launcher writes
    [launchTime], not when it appends: after a round of the launcher
    that has added a worker, with [now'] its second reading of the
    clock, a tick of the shrinker at a time [t] with [t - now' < 500ms]
    pops nothing and leaves the state as it is, whatever the probes
    return.  Between the return of [startPipeline] and the write of
    [launchTime] the cooldown still reads the old [launchTime]: a tick
    that runs there at a time [t] at least 500ms after it, with the set
    above the minimum and the probes at 0, pops a worker that the round
    has just made. *)
Theorem fresh_workers_are_not_shrunk now now' info probe order t
    (s s1 : dynamicPipelineScheduler) r :
  size s <= PipelineMaxParallelism opt -> 0 <= queueLength info ->
  launchEvent opt GetInstance uint32_oor now now' info s = (s1, r) ->
  size s < size s1 ->
  (t - now' < SCHEDULER_DYNAMIC_SHRINK_MIN_DELAY_MS * 1000000 ->
   shrinkTick opt probe order t s1 = Ok (s1, None)) /\
  exists s0 s2 request delta,
    debounce now info s = Some s0 /\
    growAppend opt GetInstance uint32_oor now info s0 = (s2, request, delta) /\
    s1 = growStamp now' delta s2 /\
    launchTime s2 = launchTime s /\ instances s2 = instances s1 /\
    getters s2 = getters s1 /\
    (PipelineMinParallelism opt < size s1 ->
     sumQueueLength probe (rangeGetters order (getters s1)) = 0 ->
     SCHEDULER_DYNAMIC_SHRINK_MIN_DELAY_MS * 1000000 <= t - launchTime s ->
     exists s3 h kept,
       shrinkTick opt probe order t s2 = Ok (s3, Some h) /\
       instances s1 = instances s ++ kept ++ [h] /\
       instances s3 = instances s ++ kept).
Proof.
  intros Hcap Hq H Hg.
  pose proof opt_valid as (_ & _ & Hmax). unfold U32.In in Hmax.
  destruct r as [r |]; [| apply launchEvent_skips in H; subst s1; lia].
  destruct (launchEvent_accepts _ _ _ _ _ _ H) as (s0 & Hd & E1 & _).
  destruct (debounce_common _ _ _ _ Hd) as (Hc & _ & Hl & _).
  assert (Hi0 : instances s0 = instances s) by (rewrite Hc; reflexivity).
  assert (Hcap0 : size s0 <= PipelineMaxParallelism opt)
    by (rewrite Hc; exact Hcap).
  assert (L : launchTime s1 = now').
  { subst s1.
    pose proof (grow_growth now now' info s0 Hcap0 Hq) as G. cbv zeta in G.
    destruct G as (_ & _ & _ & G). rewrite G. rewrite Hc.
    destruct (Z.ltb_spec (size s)
                (size (fst (grow opt GetInstance uint32_oor now now' info s0))));
      [reflexivity | lia]. }
  split; [intros Hlt; apply shrinkTick_cooldown; rewrite L; exact Hlt |].
  rewrite grow_parts in E1. cbn [fst] in E1.
  destruct (growAppend opt GetInstance uint32_oor now info s0)
    as [[s2 request] delta] eqn:Ea.
  cbn [fst snd] in E1.
  exists s0, s2, request, delta.
  assert (Hs2 : instances s1 = instances s2 /\ getters s1 = getters s2).
  { subst s1. unfold growStamp. destruct (delta >? 0); simpl; auto. }
  destruct Hs2 as [Hi Hgt].
  unfold growAppend in Ea. cbv zeta in Ea.
  set (request0 := launchRequest uint32_oor _ (queueLength info)) in Ea.
  pose proof (startPipeline_spec opt GetInstance opt_valid request0 s0 Hcap0) as P.
  cbv zeta in P. destruct P as (_ & _ & _ & _ & P1 & (new & P2) & _).
  assert (E2 : s2 = set_common (snd (startPipeline opt GetInstance request0 s0)) s0)
    by congruence.
  assert (Hl2 : launchTime s2 = launchTime s) by (rewrite E2; simpl; exact Hl).
  assert (Hi2 : instances s2 = instances s ++ new)
    by (rewrite E2; simpl; rewrite P2, Hi0; reflexivity).
  assert (Hsz : size s2 <= PipelineMaxParallelism opt)
    by (rewrite E2; simpl; exact P1).
  split_and!; auto.
  intros Hmin Hsum Hold.
  assert (Hsz1 : size s1 = size s2) by (unfold size; rewrite Hi; reflexivity).
  destruct (shrinkTick_spec opt opt_valid probe order t s2 ltac:(lia))
    as [Hno | (_ & h & s3 & Ht & Hk)].
  - exfalso. unfold shrinkTick, shrinkCheck in Hno. cbv zeta in Hno.
    rewrite parallelismOf_size in Hno by lia.
    destruct (Z.leb_spec (size s2) (PipelineMinParallelism opt)); [lia |].
    rewrite <- Hgt, Hsum in Hno. simpl in Hno.
    destruct (shrinkLocked_spec opt opt_valid t s2 ltac:(lia))
      as [(_ & [Hle | Hms]) | (h & s3 & Hp & _)].
    + lia.
    + rewrite Hl2 in Hms.
      rewrite ms_lt_Sub in Hms
        by (unfold SCHEDULER_DYNAMIC_SHRINK_MIN_DELAY_MS; lia).
      apply Z.ltb_lt in Hms. lia.
    + rewrite Hp in Hno. discriminate Hno.
  - destruct (shrinkLocked_spec opt opt_valid t s2 ltac:(lia))
      as [(Hno & _) | (h' & s3' & Hp & Hpop & _)];
      [rewrite Hno in Hk; discriminate Hk |].
    rewrite Hp in Hk. inversion Hk; subst h' s3'. clear Hk.
    assert (Hnew : new <> []).
    { intros ->. rewrite app_nil_r in Hi2. unfold size in *.
      rewrite Hi, Hi2 in Hg. lia. }
    destruct (exists_last Hnew) as (kept & h0 & ->).
    rewrite Hi2, app_assoc in Hpop. apply app_inj_tail in Hpop.
    destruct Hpop as [Hk1 Hk2]. subst h0.
    exists s3, h, kept. split_and!; [exact Ht | rewrite Hi; exact Hi2 |].
    rewrite <- Hk1. reflexivity.
Qed.




(** X21. After [Stop] the launcher drains [launchChan] and returns: on
    a stopped scheduler whose [launchChan] is closed, a round of the
    launcher never blocks; while events are queued it takes the oldest
    one and adds no worker, and on the drained channel it returns. *)
Theorem launcher_drains_then_returns now now' (s : dynamicPipelineScheduler) :
  stopped s = 1 -> closed (launchChan s) = true ->
  exists s' r,
    launch opt GetInstance uint32_oor now now' s = Ok (s', r) /\
    common s' = common s /\ closed (launchChan s') = true /\
    match buf (launchChan s) with
    | [] => r = None /\ loops s' = returned Launch (loops s) /\
            buf (launchChan s') = []
    | e :: rest => buf (launchChan s') = rest /\ loops s' = loops s
    end.
Proof.
  intros Hst Hc. unfold launch, recv.
  destruct (buf (launchChan s)) as [| info rest] eqn:Eb; simpl.
  - rewrite Hc. simpl. eexists _, _. split; [reflexivity |]. simpl.
    rewrite Hc, Eb. auto.
  - unfold launchEvent.
    destruct (debounce now info _) as [s0 |] eqn:Ed; cbv zeta; cbn [fst snd].
    + destruct (debounce_common _ _ _ _ Ed) as (C1 & _ & _ & C2 & C3).
      pose proof (grow_frame now now' info s0) as G. cbv zeta in G.
      destruct G as (_ & _ & _ & _ & _ & _ & _ & G).
      rewrite G by (rewrite C1; exact Hst).
      eexists _, _. split; [reflexivity |]. rewrite C1, C2, C3. simpl. auto.
    + eexists _, _. split; [reflexivity |]. simpl. auto.
Qed.

Lemma totalQueueLength_perm probe (gs gs' : list Getter) :
  gs ≡ₚ gs' -> totalQueueLength probe gs = totalQueueLength probe gs'.
Proof.
  induction 1; simpl; lia.
Qed.

Lemma sumQueueLength_zero probe (gs : list Getter) :
  (forall g, U32.In (probe g)) ->
  (sumQueueLength probe gs = 0 <-> totalQueueLength probe gs = 0) /\
  (totalQueueLength probe gs <= U32.max ->
   sumQueueLength probe gs = totalQueueLength probe gs).
Proof.
  intros Hp.
  assert (H0 : U32.In 0) by (unfold U32.In; vm_compute; intuition discriminate).
  destruct (sumFrom_bounds probe Hp gs 0 H0) as (I1 & I2 & I3 & I4).
  change (sumFrom probe 0 gs) with (sumQueueLength probe gs) in *.
  pose proof (totalQueueLength_nonneg probe Hp gs).
  split; [split |].
  - intros E. apply I4 in E. tauto.
  - intros E. assert (U32.max = 4294967295) by reflexivity. lia.
  - intros E. apply I3. lia.
Qed.

(** X22. The decisions of the spawner and of the shrinker do not depend
    on the order in which the map of probes is walked: for two orders of
    the same names the sum of the probes is zero for both or for
    neither, so a tick of the shrinker has the same outcome for both;
    and when the exact sum is at most [UINT32_MAX] the two sums are
    equal and a tick of the spawner has the same outcome for both. *)
Theorem probe_order_is_irrelevant probe order order' now
    (s : dynamicPipelineScheduler) :
  (forall g, U32.In (probe g)) -> order ≡ₚ order' ->
  (sumQueueLength probe (rangeGetters order (getters s)) = 0 <->
   sumQueueLength probe (rangeGetters order' (getters s)) = 0) /\
  shrinkTick opt probe order now s = shrinkTick opt probe order' now s /\
  (totalQueueLength probe (rangeGetters order (getters s)) <= U32.max ->
   sumQueueLength probe (rangeGetters order (getters s))
   = sumQueueLength probe (rangeGetters order' (getters s)) /\
   spawnTick opt probe order s = spawnTick opt probe order' s).
Proof.
  intros Hp Hperm.
  assert (P : rangeGetters order (getters s) ≡ₚ rangeGetters order' (getters s))
    by (unfold rangeGetters; rewrite Hperm; reflexivity).
  pose proof (totalQueueLength_perm probe _ _ P) as T.
  destruct (sumQueueLength_zero probe (rangeGetters order (getters s)) Hp)
    as (Z1 & E1).
  destruct (sumQueueLength_zero probe (rangeGetters order' (getters s)) Hp)
    as (Z2 & E2).
  assert (Z : sumQueueLength probe (rangeGetters order (getters s)) = 0 <->
              sumQueueLength probe (rangeGetters order' (getters s)) = 0)
    by (rewrite Z1, Z2, T; reflexivity).
  split_and!.
  - exact Z.
  - unfold shrinkTick, shrinkCheck. cbv zeta.
    destruct (parallelismOf s <=? PipelineMinParallelism opt); [reflexivity |].
    destruct (Z.eqb_spec (sumQueueLength probe (rangeGetters order (getters s))) 0)
      as [A | A];
    destruct (Z.eqb_spec (sumQueueLength probe (rangeGetters order' (getters s))) 0)
      as [B | B]; simpl; try reflexivity; tauto.
  - intros Hle.
    assert (E : sumQueueLength probe (rangeGetters order (getters s))
                = sumQueueLength probe (rangeGetters order' (getters s)))
      by (rewrite E1, E2 by lia; exact T).
    split; [exact E |]. unfold spawnTick. cbv zeta. rewrite E. reflexivity.
Qed.

(** X23. A sweep of the spawner reaches the launcher: on a scheduler
    that is not stopped, below the maximum, whose [launchChan] is empty
    and open, a tick of [spawn] that reads a sum [q] other than 0
    followed by a round of [launch] is never skipped by the debounce; it
    asks [startPipeline] for the request computed from [q], appends the
    workers that the rounds of this request make, registers no probe and
    leaves [launchChan] empty and open. *)
Theorem spawn_sweep_reaches_launcher probe order now now'
    (s : dynamicPipelineScheduler) :
  size s < PipelineMaxParallelism opt -> stopped s <> 1 ->
  buf (launchChan s) = [] -> closed (launchChan s) = false ->
  sumQueueLength probe (rangeGetters order (getters s)) <> 0 ->
  let request :=
    launchRequest uint32_oor
      (Time.ms_lt (Time.Sub now (shrinkTime s))
         SCHEDULER_DYNAMIC_FAST_SCALE_INTERVAL_MS)
      (sumQueueLength probe (rangeGetters order (getters s))) in
  exists s1 s2,
    spawnTick opt probe order s = Ok s1 /\
    launch opt GetInstance uint32_oor now now' s1 = Ok (s2, Some request) /\
    instances s2
    = instances s
      ++ map newPipelineInstance
           (made GetInstance (rounds opt request s) (pipeline s)) /\
    getters s2 = getters s /\
    buf (launchChan s2) = [] /\ closed (launchChan s2) = false.
Proof.
  intros Hcap Hst Hb Hc Hq request.
  pose proof opt_valid as (_ & _ & Hmax). unfold U32.In in Hmax.
  assert (Hs : 0 <= size s) by (unfold size; lia).
  unfold spawnTick. cbv zeta.
  rewrite parallelismOf_size by lia.
  destruct (Z.eqb_spec (size s) (PipelineMaxParallelism opt)) as [E | _]; [lia |].
  destruct (Z.eqb_spec (sumQueueLength probe (rangeGetters order (getters s))) 0)
    as [E | _]; [contradiction |].
  unfold send. rewrite Hc, Hb. simpl.
  eexists _, _. split; [reflexivity |].
  unfold launch, recv. simpl.
  unfold launchEvent, debounce, fromTrigger. simpl.
  unfold grow. cbv zeta. cbn [fst snd queueLength].
  fold request.
  pose proof (startPipeline_made request s ltac:(lia) Hst) as M.
  cbv zeta in M. destruct M as (M1 & _).
  split; [reflexivity |].
  match goal with |- context [if ?b then _ else _] => destruct b end;
    simpl in *; split_and!; try reflexivity; exact M1.
Qed.

End SchedulerLifecycle.

(** * Instances of the further properties *)

Section LifecycleInstances.

Import Scheduler.

Lemma run_reachable opt GetInstance uint32_oor os : forall s s',
  reachable opt GetInstance uint32_oor s ->
  run opt GetInstance uint32_oor os s = Ok s' ->
  reachable opt GetInstance uint32_oor s'.
Proof.
  induction os as [| o os IH]; intros s s' R H; simpl in H.
  - inversion H; subst. exact R.
  - destruct (perform opt GetInstance uint32_oor o s) as [s1 | |] eqn:E;
      simpl in H; try discriminate H.
    apply (IH s1 s'); [| exact H].
    exact (reach_perform opt GetInstance uint32_oor o s s1 R E).
Qed.

Lemma started1_reachable : reachable scenarioOptions makes oorZero started1.
Proof.
  apply (reach_perform scenarioOptions makes oorZero (OpStart 1 2 3)
           newDynamicPipelineScheduler); [apply reach_new | reflexivity].
Qed.

Lemma startPipeline_partial_success_witness :
  instances (snd (startPipeline scenarioOptions failsThird 5
                    newCommonPipelineScheduler))
  = [newPipelineInstance 0%nat; newPipelineInstance 1%nat] /\
  snd (fst (startPipeline scenarioOptions failsThird 5
              newCommonPipelineScheduler)) = 2.
Proof.
  destruct (startPipeline_partial_success scenarioOptions failsThird
              scenarioOptions_valid 5 newCommonPipelineScheduler)
    as (H1 & H2 & _).
  - vm_compute. discriminate.
  - discriminate.
  - split; [exact H1 | exact H2].
Defined.

Lemma Start_launches_witness :
  instances (Start scenarioOptions makes 1 2 3 newDynamicPipelineScheduler)
  = [newPipelineInstance 0%nat] /\
  loops (Start scenarioOptions makes 1 2 3 newDynamicPipelineScheduler)
  = [Launch; Spawn; Shrink].
Proof.
  destruct (Start_launches scenarioOptions makes scenarioOptions_valid 1 2 3
              newDynamicPipelineScheduler)
    as (H1 & _ & _ & _ & _ & _ & H2 & _).
  - vm_compute. discriminate.
  - reflexivity.
  - discriminate.
  - split; [exact H1 | exact H2].
Defined.

Lemma staticStart_launches_witness :
  CreatePipelineScheduler 3 = Static newCommonPipelineScheduler /\
  size (staticStart scenarioOptions makes 3 newCommonPipelineScheduler) = 3.
Proof.
  destruct (staticStart_launches scenarioOptions makes scenarioOptions_valid 3
              newCommonPipelineScheduler)
    as (_ & _ & _ & H).
  - vm_compute. discriminate.
  - reflexivity.
  - discriminate.
  - apply H; [reflexivity | vm_compute; split; discriminate | discriminate].
Defined.

Lemma static_lifecycle_witness :
  staticStart scenarioOptions makes 3 (staticStop newCommonPipelineScheduler)
  = set_started 1 (staticStop newCommonPipelineScheduler).
Proof.
  destruct (static_lifecycle scenarioOptions makes 3 3 newCommonPipelineScheduler)
    as (_ & _ & _ & _ & H).
  destruct (H eq_refl) as (_ & _ & E). exact E.
Defined.

Lemma dynamic_lifecycle_idempotent_witness :
  exists s', Stop started1 = Ok s' /\ Stop s' = Ok s'.
Proof.
  destruct (Stop started1) as [s' | |] eqn:E;
    [| vm_compute in E; discriminate E ..].
  exists s'. split; [reflexivity |].
  exact (proj2 (dynamic_lifecycle_idempotent scenarioOptions makes
                  1%nat 2%nat 3%nat 1%nat 2%nat 3%nat started1) s' E).
Defined.

Lemma Stop_stops_loops_only_witness :
  exists s', Stop started1 = Ok s' /\
             instances s' = instances started1 /\
             closed (launchChan s') = true.
Proof.
  destruct (Stop started1) as [s' | |] eqn:E;
    [| vm_compute in E; discriminate E ..].
  exists s'. split; [reflexivity |].
  destruct (Stop_stops_loops_only started1 s' eq_refl E)
    as (_ & _ & _ & _ & _ & H1 & _ & H2 & _).
  split; [exact H2 | exact H1].
Defined.

Lemma Stop_before_Start_blocks_witness :
  Stop newDynamicPipelineScheduler = Blocked /\
  exists s1 s2 s3,
    stopRequest newDynamicPipelineScheduler = Ok (Some s1) /\
    stopWait s1 = Blocked /\
    spawnReturn (Start scenarioOptions makes 1 2 3 s1) = Ok s2 /\
    stopFinish s2 = Ok s3 /\
    started s3 = 0 /\ instances s3 = [].
Proof.
  destruct (Stop_before_Start_blocks scenarioOptions makes 1%nat 2%nat 3%nat
              newDynamicPipelineScheduler)
    as (B & _ & s1 & H1 & _ & _ & _ & _ & _ & H2 & _ & _ & _ &
        s2 & s3 & H3 & _ & H4 & _ & H5 & _ & H6 & _);
    try reflexivity.
  split; [exact B |].
  exists s1, s2, s3. split_and!; assumption.
Defined.

Lemma stopped_is_final_witness :
  exists s, Stop started1 = Ok s /\
            stopped (Start scenarioOptions makes 4 5 6 s) = 1 /\
            pipeline (Start scenarioOptions makes 4 5 6 s) = pipeline s /\
            size (snd (startLoop makes 2 0 1 s)) = size s + 2.
Proof.
  destruct (Stop started1) as [s | |] eqn:E;
    [| vm_compute in E; discriminate E ..].
  exists s. split; [reflexivity |].
  destruct (Stop_frame started1 s eq_refl E) as (Hst & _).
  destruct (stopped_is_final scenarioOptions makes oorZero (OpStart 4 5 6) s
              (Start scenarioOptions makes 4 5 6 s) Hst eq_refl)
    as (H1 & _ & H2 & H3).
  split; [exact H1 |]. split; [exact H2 |].
  destruct (H3 2%nat 0 1) as (_ & _ & H4).
  apply H4. discriminate.
Defined.

Lemma trigger_send_races_with_Stop_witness :
  exists s',
    Stop started1 = Ok s' /\
    snd (triggerCheck (fun _ => 3) "a" (Some 0%nat) started1)
    = Ok (Some trigger3, started1) /\
    snd (triggerSend (Some trigger3) s') = Panic.
Proof.
  destruct (Stop started1) as [s' | |] eqn:E;
    [| vm_compute in E; discriminate E ..].
  exists s'. split; [reflexivity |].
  destruct (trigger_send_races_with_Stop scenarioOptions makes oorZero
              (fun _ => 3) "a" 0%nat started1 started1_reachable)
    as (_ & _ & _ & _ & _ & _ & H).
  exact (H ltac:(discriminate) eq_refl s' E).
Defined.

Lemma registry_grows_with_ledger_witness :
  exists s s',
    run scenarioOptions makes oorZero
      [OpStart 1 2 3; OpTrigger (fun _ => 3) "a" (Some 0%nat);
       OpLaunch 1000000000000000005 1000000000000000006;
       OpTrigger (fun _ => 3) "b" (Some 1%nat)]
      newDynamicPipelineScheduler = Ok s /\
    perform scenarioOptions makes oorZero
      (OpLaunch 1000000000000000007 1000000000000000008) s = Ok s' /\
    getters s !! "a"%string = Some 0%nat /\
    getters s !! "b"%string = None /\
    getters s' !! "a"%string = Some 0%nat /\
    getters s' !! "b"%string = Some 1%nat /\
    dom (getters s) ⊆ dom (getters s') /\
    dom (getters s) = dom (sourceLastScheduleTimes s).
Proof.
  assert (E : exists s s',
    run scenarioOptions makes oorZero
      [OpStart 1 2 3; OpTrigger (fun _ => 3) "a" (Some 0%nat);
       OpLaunch 1000000000000000005 1000000000000000006;
       OpTrigger (fun _ => 3) "b" (Some 1%nat)]
      newDynamicPipelineScheduler = Ok s /\
    perform scenarioOptions makes oorZero
      (OpLaunch 1000000000000000007 1000000000000000008) s = Ok s' /\
    getters s !! "a"%string = Some 0%nat /\
    getters s !! "b"%string = None /\
    getters s' !! "a"%string = Some 0%nat /\
    getters s' !! "b"%string = Some 1%nat).
  { eexists _, _. split; [vm_compute; reflexivity |].
    split; [vm_compute; reflexivity |].
    split_and!; vm_compute; reflexivity. }
  destruct E as (s & s' & E1 & E2 & Rest).
  exists s, s'. split; [exact E1 |]. split; [exact E2 |].
  destruct Rest as (A & B & C & D). split_and!; try assumption.
  - destruct (registry_grows_with_ledger scenarioOptions makes oorZero
                scenarioOptions_valid s
                (run_reachable scenarioOptions makes oorZero _ _ _
                   (reach_new scenarioOptions makes oorZero) E1))
      as (_ & _ & H).
    exact (H _ _ E2).
  - destruct (registry_grows_with_ledger scenarioOptions makes oorZero
                scenarioOptions_valid s
                (run_reachable scenarioOptions makes oorZero _ _ _
                   (reach_new scenarioOptions makes oorZero) E1))
      as (H & _).
    exact H.
Defined.

Lemma stopped_handles_leave_set_witness :
  exists kept gone new,
    instances started1 = kept ++ gone /\
    instances (set_common (StopPipeline started1) started1) = kept ++ new /\
    handlesOf (terminated (set_common (StopPipeline started1) started1))
    = handlesOf (terminated started1) ++ gone.
Proof.
  destruct (stopped_handles_leave_set scenarioOptions makes oorZero
              scenarioOptions_valid OpStopPipeline started1
              (set_common (StopPipeline started1) started1)
              started1_reachable eq_refl)
    as (kept & gone & new & H1 & H2 & H3 & _).
  exists kept, gone, new. split_and!; assumption.
Defined.

Lemma debounce_spacing_witness :
  launchEvent scenarioOptions makes oorZero
    1000000000000000007 1000000000000000008 trigger3 serving
  = (serving, None).
Proof.
  refine (proj1 (debounce_spacing scenarioOptions makes oorZero
                   1000000000000000005 1000000000000000006
                   1000000000000000007 1000000000000000008
                   trigger3 trigger3 0%nat 0%nat started1 serving 3
                   _ _ _ _ _) _).
  - discriminate.
  - reflexivity.
  - reflexivity.
  - reflexivity.
  - vm_compute. reflexivity.
  - vm_compute. reflexivity.
Defined.

Lemma sweep_restarts_windows_witness :
  launchEvent scenarioOptions makes oorZero
    1000000000000000011 1000000000000000012 trigger3
    (fst (launchEvent scenarioOptions makes oorZero
            1000000000000000009 1000000000000000010 unnamed serving))
  = (fst (launchEvent scenarioOptions makes oorZero
            1000000000000000009 1000000000000000010 unnamed serving), None).
Proof.
  apply (sweep_restarts_windows scenarioOptions makes oorZero
           1000000000000000009 1000000000000000010
           1000000000000000011 1000000000000000012
           unnamed trigger3 0%nat serving _
           (snd (launchEvent scenarioOptions makes oorZero
                   1000000000000000009 1000000000000000010 unnamed serving))).
  - reflexivity.
  - apply surjective_pairing.
  - reflexivity.
  - apply elem_of_dom. exists 1000000000000000005. vm_compute. reflexivity.
  - vm_compute. reflexivity.
Defined.

Lemma launch_round_growth_witness :
  size started1 <= size serving
    <= size started1 + SCHEDULER_DYNAMIC_SPAWN_MAX_IN_EACH /\
  launchTime serving = 1000000000000000006.
Proof.
  destruct (launch_round_growth scenarioOptions makes oorZero
              scenarioOptions_valid
              1000000000000000005 1000000000000000006 trigger3
              started1 serving (Some 3))
    as (H1 & _ & H2 & _).
  - vm_compute. discriminate.
  - vm_compute. discriminate.
  - vm_compute. reflexivity.
  - split; [exact H1 | exact H2].
Defined.

Lemma fresh_workers_are_not_shrunk_witness :
  shrinkTick scenarioOptions (fun _ => 0) ["a"%string] 1000000000000000007 serving
  = Ok (serving, None) /\
  exists s2 s3 h kept,
    launchTime s2 = launchTime started1 /\
    instances s2 = instances serving /\
    shrinkTick scenarioOptions (fun _ => 0) ["a"%string] 1000000000000000006 s2
    = Ok (s3, Some h) /\
    instances serving = instances started1 ++ kept ++ [h].
Proof.
  destruct (fresh_workers_are_not_shrunk scenarioOptions makes oorZero
              scenarioOptions_valid
              1000000000000000005 1000000000000000006 trigger3
              (fun _ => 0) ["a"%string] 1000000000000000007
              started1 serving (Some 3)) as (H1 & _).
  - vm_compute. discriminate.
  - vm_compute. discriminate.
  - vm_compute. reflexivity.
  - vm_compute. reflexivity.
  - split; [apply H1; vm_compute; reflexivity |].
    destruct (fresh_workers_are_not_shrunk scenarioOptions makes oorZero
                scenarioOptions_valid
                1000000000000000005 1000000000000000006 trigger3
                (fun _ => 0) ["a"%string] 1000000000000000006
                started1 serving (Some 3))
      as (_ & s0 & s2 & request & delta & _ & _ & _ & A & B & _ & H2).
    + vm_compute. discriminate.
    + vm_compute. discriminate.
    + vm_compute. reflexivity.
    + vm_compute. reflexivity.
    + destruct H2 as (s3 & h & kept & C & D & _).
      * vm_compute. reflexivity.
      * vm_compute. reflexivity.
      * vm_compute. discriminate.
      * exists s2, s3, h, kept. split_and!; assumption.
Defined.


Lemma launcher_drains_then_returns_witness :
  exists s s' r,
    Stop started1 = Ok s /\
    launch scenarioOptions makes oorZero 5 6 s = Ok (s', r) /\
    instances s' = instances s.
Proof.
  destruct (Stop started1) as [s | |] eqn:E;
    [| vm_compute in E; discriminate E ..].
  destruct (Stop_frame started1 s eq_refl E)
    as (Hst & _ & _ & _ & _ & Hc & _).
  destruct (launcher_drains_then_returns scenarioOptions makes oorZero 5 6 s
              Hst Hc) as (s' & r & H1 & H2 & _).
  exists s, s', r. split; [reflexivity |]. split; [exact H1 |].
  rewrite H2. reflexivity.
Defined.

Lemma probe_order_is_irrelevant_witness :
  rangeGetters ["a"; "b"]%string (getters twoSources) = [0; 1]%nat /\
  rangeGetters ["b"; "a"]%string (getters twoSources) = [1; 0]%nat /\
  sumQueueLength probe34 (rangeGetters ["a"; "b"]%string (getters twoSources)) = 7 /\
  sumQueueLength probe34 (rangeGetters ["a"; "b"]%string (getters twoSources))
  = sumQueueLength probe34 (rangeGetters ["b"; "a"]%string (getters twoSources)) /\
  shrinkTick scenarioOptions probe34 ["a"; "b"]%string 5 twoSources
  = shrinkTick scenarioOptions probe34 ["b"; "a"]%string 5 twoSources /\
  spawnTick scenarioOptions probe34 ["a"; "b"]%string twoSources
  = spawnTick scenarioOptions probe34 ["b"; "a"]%string twoSources.
Proof.
  destruct (probe_order_is_irrelevant scenarioOptions probe34
              ["a"; "b"]%string ["b"; "a"]%string 5 twoSources)
    as (_ & H1 & H2).
  - intros [| g]; unfold U32.In; vm_compute; intuition discriminate.
  - apply Permutation_swap.
  - destruct H2 as [H2 H3]; [vm_compute; discriminate |].
    split_and!; try assumption; vm_compute; reflexivity.
Defined.

Lemma spawn_sweep_reaches_launcher_witness :
  exists s1 s2,
    spawnTick scenarioOptions (fun _ => 3) ["a"%string] serving = Ok s1 /\
    launch scenarioOptions makes oorZero
      1000000001000000005 1000000001000000006 s1 = Ok (s2, Some 3) /\
    buf (launchChan s2) = [].
Proof.
  destruct (spawn_sweep_reaches_launcher scenarioOptions makes oorZero
              scenarioOptions_valid (fun _ => 3) ["a"%string]
              1000000001000000005 1000000001000000006 serving)
    as (s1 & s2 & H1 & H2 & _ & _ & H3 & _).
  - vm_compute. reflexivity.
  - vm_compute. discriminate.
  - reflexivity.
  - reflexivity.
  - vm_compute. discriminate.
  - exists s1, s2. split; [exact H1 |]. split; [exact H2 | exact H3].
Defined.

End LifecycleInstances.
